(** * Kiro CLI installer (tools/cli/installers/lib/ide/kiro-cli.js)

    A shallow embedding of [KiroCliSetup]: the tag extractor, the prompt and
    configuration formatters, the file-pair writer, module discovery, the
    selective cleanup and the orchestrating [setup], together with the
    properties the specification states about them.

    The repository holds two revisions of the installer.  The embedding
    follows the later one, which also writes command and steering files and
    throws when the BMAD folder is missing; [parseCompiledAgent],
    [processAgentArtifact], [sanitizeAgentName], [generatePrompt] and
    [discoverAllModules] read the same in both.

    Strings are lists of UTF-16 code units, the regular expressions of the
    source run on a small backtracking matcher, the file system is a finite
    map from paths to nodes with injected failures, and asynchronous code is
    a state-and-exception monad over that world. *)

From Stdlib Require Import String Ascii NArith List Lia Bool.
From stdpp Require Import base option list gmap.

Local Open Scope N_scope.
Local Open Scope list_scope.

(** ** JavaScript strings

    A JavaScript string is a sequence of UTF-16 code units; regular
    expressions without the [u] flag, [trim] and [startsWith] all work on
    code units. *)

Abbreviation jsstring := (list N).

(** An ASCII literal of the source as a list of code units. *)
Definition js (s : string) : jsstring :=
  List.map N_of_ascii (list_ascii_of_string s).

(** [s.startsWith(p)] *)
Fixpoint startsWith (p s : jsstring) : bool :=
  match p, s with
  | [], _ => true
  | _ :: _, [] => false
  | a :: p', b :: s' => (a =? b) && startsWith p' s'
  end.

(** The class [\s] of ECMAScript: WhiteSpace and LineTerminator code points. *)
Definition is_space (c : N) : bool :=
  ((9 <=? c) && (c <=? 13)) || (c =? 32) || (c =? 160) || (c =? 5760)
  || ((8192 <=? c) && (c <=? 8202)) || (c =? 8232) || (c =? 8233)
  || (c =? 8239) || (c =? 8287) || (c =? 12288) || (c =? 65279).

(** The class [[a-z0-9-]]. *)
Definition is_safe (c : N) : bool :=
  ((97 <=? c) && (c <=? 122)) || ((48 <=? c) && (c <=? 57)) || (c =? 45).

Definition any_unit (c : N) : bool := true.
Definition is_unit (a : N) (c : N) : bool := c =? a.
Definition not_unit (a : N) (c : N) : bool := negb (c =? a).

Definition u_lt : N := 60.     (* < *)
Definition u_gt : N := 62.     (* > *)
Definition u_quote : N := 34.  (* double quote *)
Definition u_hyphen : N := 45. (* - *)
Definition u_nl : N := 10.     (* line feed *)
Definition u_slash : N := 47.  (* / *)

(** [s.trim()]: strip the leading and trailing [\s] code units. *)
Fixpoint trimStart (s : jsstring) : jsstring :=
  match s with
  | c :: s' => if is_space c then trimStart s' else s
  | [] => []
  end.

Definition trim (s : jsstring) : jsstring :=
  rev (trimStart (rev (trimStart s))).

(** ** Regular expressions

    Every pattern of the source is a sequence of literal code units and of
    quantified character classes, some of them in a capture group.  The
    matcher below is the backtracking matcher of ECMAScript restricted to
    that shape: a greedy quantifier tries the longest run first, a lazy one
    the shortest. *)

Inductive quant := One | Plus | Star | LazyStar.

Record atom := Atom {
  cls : N -> bool;
  quantifier : quant;
  captured : bool
}.

Definition regex := list atom.

Definition lit (c : N) : atom := Atom (is_unit c) One false.
Definition lits (s : string) : regex := List.map lit (js s).

Section Quantifiers.
Context {R : Type} (p : N -> bool) (k : jsstring -> jsstring -> option R).

(** [x*] after [taken]: extend the run while possible, give back on failure. *)
Fixpoint greedy (taken s : jsstring) : option R :=
  match s with
  | c :: s' =>
      if p c then
        match greedy (taken ++ [c]) s' with
        | Some r => Some r
        | None => k taken s
        end
      else k taken s
  | [] => k taken s
  end.

(** [x*?] after [taken]: try the continuation first, extend on failure. *)
Fixpoint lazy (taken s : jsstring) : option R :=
  match k taken s with
  | Some r => Some r
  | None =>
      match s with
      | c :: s' => if p c then lazy (taken ++ [c]) s' else None
      | [] => None
      end
  end.
End Quantifiers.

(** Match [r] at the start of [s]: the capture groups, in order, and the
    text after the match. *)
Fixpoint match_here (r : regex) (s : jsstring) : option (list jsstring * jsstring) :=
  match r with
  | [] => Some ([], s)
  | a :: r' =>
      let k (taken rest : jsstring) :=
        match match_here r' rest with
        | Some (caps, rest') =>
            Some (if captured a then taken :: caps else caps, rest')
        | None => None
        end in
      match quantifier a with
      | One =>
          match s with
          | c :: s' => if cls a c then k [c] s' else None
          | [] => None
          end
      | Plus =>
          match s with
          | c :: s' => if cls a c then greedy (cls a) k [c] s' else None
          | [] => None
          end
      | Star => greedy (cls a) k [] s
      | LazyStar => lazy (cls a) k [] s
      end
  end.

(** The first position of [s] at which [r] matches: the text before the
    match, the capture groups and the text after the match. *)
Fixpoint search (r : regex) (pre s : jsstring)
  : option (jsstring * list jsstring * jsstring) :=
  match match_here r s with
  | Some (caps, rest) => Some (pre, caps, rest)
  | None =>
      match s with
      | c :: s' => search r (pre ++ [c]) s'
      | [] => None
      end
  end.

(** [s.match(r)] for a pattern without the [g] flag: the capture groups of the
    first match, or [None] for JavaScript's [null]. *)
Definition js_match (r : regex) (s : jsstring) : option (list jsstring) :=
  match search r [] s with
  | Some (_, caps, _) => Some caps
  | None => None
  end.

(** [m[i]] for [i >= 1]. *)
Definition group (i : nat) (caps : list jsstring) : jsstring :=
  nth (i - 1) caps [].

(** [s.replaceAll(r, repl)] for a pattern with the [g] flag and a replacement
    without [$] patterns.  Each round finds the next match after the previous
    one; an empty match advances by one code unit.  A round consumes at least
    one code unit, so [S (length s)] rounds are enough. *)
Fixpoint replace_go (fuel : nat) (r : regex) (repl s : jsstring) : jsstring :=
  match fuel with
  | O => s
  | S fuel' =>
      match search r [] s with
      | None => s
      | Some (pre, _, rest) =>
          if (length pre + length rest <? length s)%nat
          then pre ++ repl ++ replace_go fuel' r repl rest
          else match rest with
               | [] => pre ++ repl
               | c :: rest' => pre ++ repl ++ c :: replace_go fuel' r repl rest'
               end
      end
  end.

Definition replaceAll (r : regex) (repl s : jsstring) : jsstring :=
  replace_go (S (length s)) r repl s.

(** The loop [while ((m = re.exec(s)) !== null) { ... }] for a pattern with the
    [g] flag: the capture groups of the successive matches.  The only pattern
    run this way starts with the literal [<item], so every match is non-empty
    and [lastIndex] strictly advances. *)
Fixpoint exec_go (fuel : nat) (r : regex) (s : jsstring) : list (list jsstring) :=
  match fuel with
  | O => []
  | S fuel' =>
      match search r [] s with
      | None => []
      | Some (_, caps, rest) => caps :: exec_go fuel' r rest
      end
  end.

Definition exec_all (r : regex) (s : jsstring) : list (list jsstring) :=
  exec_go (S (length s)) r s.

(** What it means for a text to match a pattern, with its capture groups. *)
Definition atom_matches (a : atom) (t : jsstring) : Prop :=
  Forall (fun c => cls a c = true) t /\
  match quantifier a with
  | One => length t = 1%nat
  | Plus => t <> []
  | Star | LazyStar => True
  end.

Inductive matches : regex -> jsstring -> list jsstring -> Prop :=
| matches_nil : matches [] [] []
| matches_cons a r t u caps :
    atom_matches a t ->
    matches r u caps ->
    matches (a :: r) (t ++ u) (if captured a then t :: caps else caps).

(** [occurs r s]: the pattern matches somewhere in [s]. *)
Definition occurs (r : regex) (s : jsstring) : Prop :=
  exists pre t post caps, s = pre ++ t ++ post /\ matches r t caps.

(** ** Small string helpers of the runtime *)

(** [xs.join(sep)] *)
Fixpoint join (sep : jsstring) (xs : list jsstring) : jsstring :=
  match xs with
  | [] => []
  | [x] => x
  | x :: xs' => x ++ sep ++ join sep xs'
  end.

(** A number in a template literal: its decimal digits. *)
Fixpoint uint_units (d : Decimal.uint) : jsstring :=
  match d with
  | Decimal.Nil => []
  | Decimal.D0 d' => 48 :: uint_units d'
  | Decimal.D1 d' => 49 :: uint_units d'
  | Decimal.D2 d' => 50 :: uint_units d'
  | Decimal.D3 d' => 51 :: uint_units d'
  | Decimal.D4 d' => 52 :: uint_units d'
  | Decimal.D5 d' => 53 :: uint_units d'
  | Decimal.D6 d' => 54 :: uint_units d'
  | Decimal.D7 d' => 55 :: uint_units d'
  | Decimal.D8 d' => 56 :: uint_units d'
  | Decimal.D9 d' => 57 :: uint_units d'
  end.

Definition decimal (n : nat) : jsstring := uint_units (Nat.to_uint n).

(** [path.posix.normalize] and [path.posix.join] of Node.js, on code units. *)
Fixpoint split_on (sep : N) (cur s : jsstring) : list jsstring :=
  match s with
  | [] => [cur]
  | c :: s' =>
      if c =? sep then cur :: split_on sep [] s'
      else split_on sep (cur ++ [c]) s'
  end.

Definition units_eqb (a b : jsstring) : bool := bool_decide (a = b).

Definition normalize_step (allowAboveRoot : bool) (res : list jsstring) (seg : jsstring)
  : list jsstring :=
  if units_eqb seg [] || units_eqb seg (js ".") then res
  else if units_eqb seg (js "..") then
    match last res with
    | Some l =>
        if units_eqb l (js "..") then res ++ [seg] else removelast res
    | None => if allowAboveRoot then res ++ [seg] else res
    end
  else res ++ [seg].

Definition normalizeString (p : jsstring) (allowAboveRoot : bool) : jsstring :=
  join [u_slash] (fold_left (normalize_step allowAboveRoot) (split_on u_slash [] p) []).

Definition posix_normalize (p : jsstring) : jsstring :=
  match p with
  | [] => js "."
  | c :: _ =>
      let isAbsolute := c =? u_slash in
      let trailingSeparator :=
        match last p with Some l => l =? u_slash | None => false end in
      let q := normalizeString p (negb isAbsolute) in
      match q with
      | [] => if isAbsolute then [u_slash]
              else if trailingSeparator then js "./" else js "."
      | _ :: _ =>
          let q' := if trailingSeparator then q ++ [u_slash] else q in
          if isAbsolute then u_slash :: q' else q'
      end
  end.

Definition posix_join (args : list jsstring) : jsstring :=
  match List.filter (fun a => negb (units_eqb a [])) args with
  | [] => js "."
  | parts => posix_normalize (join [u_slash] parts)
  end.

(** [path.join(dir, file)] for a directory of the tree, given by its segments
    from the root, and a file name: the name is split at [/] and its segments
    are resolved against the directory; an empty segment and [.] are dropped
    and [..] goes one directory up. *)
Definition join_path (dir : list jsstring) (file : jsstring) : list jsstring :=
  fold_left (normalize_step false) (split_on u_slash [] file) dir.

(** ** Data model *)

(** A path of the file system, as its segments: [path.join(dir, name)] is
    [dir ++ [name]]. *)
Abbreviation path := (list jsstring).

(** An agent artifact handed over by the shared [AgentCommandGenerator]. *)
Module Artifact.
Record t := mk {
  name : jsstring;
  module : jsstring;
  sourcePath : path;
  description : jsstring
}.
End Artifact.

Module MenuItem.
Record t := mk {
  trigger : jsstring;
  description : jsstring
}.
End MenuItem.

(** [generatePrompt] accepts principles as a string or as an array of
    strings; [parseCompiledAgent] only ever produces a string. *)
Inductive principles_t :=
| PrinciplesText (s : jsstring)
| PrinciplesList (l : list jsstring).

(** The record [parseCompiledAgent] returns. *)
Module AgentData.
Record t := mk {
  name : jsstring;
  title : jsstring;
  icon : jsstring;
  role : jsstring;
  identity : jsstring;
  communicationStyle : jsstring;
  principles : principles_t;
  menuItems : list MenuItem.t
}.
End AgentData.

Module McpServer.
Record t := mk {
  command : jsstring;
  args : list jsstring
}.
End McpServer.

(** The Kiro agent configuration object. *)
Module AgentConfig.
Record t := mk {
  name : jsstring;
  description : jsstring;
  prompt : jsstring;
  tools : list jsstring;
  mcpServers : gmap jsstring McpServer.t;
  useLegacyMcpJson : bool;
  resources : list jsstring
}.
End AgentConfig.

(** One entry of Ajv's [validate.errors]. *)
Module ValidationError.
Record t := mk {
  instancePath : jsstring;
  message : jsstring
}.
End ValidationError.

(** Ajv, the validation library, as far as the installer uses it: a schema
    is taken by its rules, each of which accepts an object or reports one
    error; [validate(data)] tells whether every rule accepts, and
    [validate.errors] is what the compiled validator leaves behind.  With the
    [allErrors] option it checks every rule and leaves every failure; without
    it, which is the default, it returns at the first rule that fails and
    leaves that failure alone. *)
Module Ajv.
Record options := mk {
  strict : bool;
  logger : bool;
  allErrors : bool
}.

Definition rule : Type := AgentConfig.t -> option ValidationError.t.

(** Every failure of an object against a schema, in the order of the rules. *)
Definition violations (schema : list rule) (data : AgentConfig.t)
  : list ValidationError.t :=
  omap (fun r => r data) schema.

Definition validate (schema : list rule) (data : AgentConfig.t) : bool :=
  match violations schema data with [] => true | _ :: _ => false end.

Definition errors (o : options) (schema : list rule) (data : AgentConfig.t)
  : list ValidationError.t :=
  if allErrors o then violations schema data
  else take 1 (violations schema data).
End Ajv.

(** [new Ajv({ strict: false, logger: false })]: [allErrors] is not set. *)
Definition ajv_options : Ajv.options := Ajv.mk false false false.

(** A JavaScript [Error], by its message. *)
Abbreviation error := jsstring (only parsing).

Inductive result (A : Type) :=
| Ok (a : A)
| Throw (e : error).
Arguments Ok {A} a.
Arguments Throw {A} e.

(** JavaScript truthiness of a string. *)
Definition truthy (s : jsstring) : bool :=
  match s with [] => false | _ :: _ => true end.

Definition principles_truthy (p : principles_t) : bool :=
  match p with
  | PrinciplesText s => truthy s
  | PrinciplesList _ => true
  end.

(** ** The patterns of [parseCompiledAgent] and [sanitizeAgentName] *)

Definition lit_units (s : jsstring) : regex := List.map lit s.

(** [/<agent\s+([^>]+)>/] *)
Definition re_agent : regex :=
  lits "<agent" ++ [Atom is_space Plus false; Atom (not_unit u_gt) Plus true]
  ++ lits ">".

(** The attribute pattern: [key=], a double quote, the group [([^Q]+)] of
    units other than a double quote, and a closing double quote; for [name],
    [title] and [icon]. *)
Definition re_attr (key : string) : regex :=
  lits key ++ lits "=" ++ [lit u_quote; Atom (not_unit u_quote) Plus true; lit u_quote].

(** [/<tag>([\s\S]*?)<\/tag>/] for [persona] and [menu]. *)
Definition re_block (tag : string) : regex :=
  lits "<" ++ lits tag ++ lits ">" ++ [Atom any_unit LazyStar true]
  ++ lits "</" ++ lits tag ++ lits ">".

(** [/<tag>([^<]+)<\/tag>/] for the four persona fields. *)
Definition re_field (tag : string) : regex :=
  lits "<" ++ lits tag ++ lits ">" ++ [Atom (not_unit u_lt) Plus true]
  ++ lits "</" ++ lits tag ++ lits ">".

(** The item pattern, with the [g] flag: [<item\s+cmd=], a quoted group as in
    the attribute pattern, then [[^>]*>([^<]+)<\/item>]. *)
Definition re_item : regex :=
  lits "<item" ++ [Atom is_space Plus false] ++ lits "cmd="
  ++ [lit u_quote; Atom (not_unit u_quote) Plus true; lit u_quote;
      Atom (not_unit u_gt) Star false]
  ++ lits ">" ++ [Atom (not_unit u_lt) Plus true] ++ lits "</item>".

(** [/\s+/g] *)
Definition re_spaces : regex := [Atom is_space Plus false].

(** [/[^a-z0-9-]/g] *)
Definition re_unsafe : regex := [Atom (fun c => negb (is_safe c)) One false].

(** The robot glyph U+1F916, as its surrogate pair. *)
Definition robot : jsstring := [55358; 56598].

(** ** Tag extractor *)

(** [m ? m[1].trim() : ''] *)
Definition field_of (tag : string) (personaContent : jsstring) : jsstring :=
  match js_match (re_field tag) personaContent with
  | Some m => trim (group 1 m)
  | None => []
  end.

(** A persona field: the empty string unless the persona block was found. *)
Definition persona_field (tag : string) (personaMatch : option (list jsstring)) : jsstring :=
  match personaMatch with
  | Some m => field_of tag (group 1 m)
  | None => []
  end.

Definition menu_of (content : jsstring) : list MenuItem.t :=
  match js_match (re_block "menu") content with
  | Some menuMatch =>
      List.map (fun itemMatch =>
                  MenuItem.mk (group 1 itemMatch) (trim (group 2 itemMatch)))
               (exec_all re_item (group 1 menuMatch))
  | None => []
  end.

Definition parseCompiledAgent (content : jsstring) (artifact : Artifact.t)
  : option AgentData.t :=
  match js_match re_agent content with
  | None => None
  | Some agentTagMatch =>
      let attrs := group 1 agentTagMatch in
      let nameMatch := js_match (re_attr "name") attrs in
      let titleMatch := js_match (re_attr "title") attrs in
      let iconMatch := js_match (re_attr "icon") attrs in
      let personaMatch := js_match (re_block "persona") content in
      let role := persona_field "role" personaMatch in
      let identity_ := persona_field "identity" personaMatch in
      let communicationStyle := persona_field "communication_style" personaMatch in
      let principles := persona_field "principles" personaMatch in
      let menuItems := menu_of content in
      Some (AgentData.mk
              (match nameMatch with Some m => group 1 m | None => Artifact.name artifact end)
              (match titleMatch with Some m => group 1 m | None => Artifact.description artifact end)
              (match iconMatch with Some m => group 1 m | None => robot end)
              role identity_ communicationStyle (PrinciplesText principles)
              menuItems)
  end.

(** ** Record-to-document formatter *)

Definition menu_line (i : nat) (item : MenuItem.t) : jsstring :=
  decimal (i + 1) ++ js ". **" ++ MenuItem.trigger item ++ js "**: "
  ++ MenuItem.description item ++ [u_nl].

(** The [for (const [i, item] of menuItems.entries())] loop, from index [i]. *)
Fixpoint menu_lines (i : nat) (items : list MenuItem.t) (prompt : jsstring) : jsstring :=
  match items with
  | [] => prompt
  | item :: items' => menu_lines (S i) items' (prompt ++ menu_line i item)
  end.

Fixpoint bullet_lines (ps : list jsstring) (prompt : jsstring) : jsstring :=
  match ps with
  | [] => prompt
  | p :: ps' => bullet_lines ps' (prompt ++ js "- " ++ p ++ [u_nl])
  end.

Definition instructions (name : jsstring) : jsstring :=
  js "## Instructions" ++ [u_nl] ++ js "You are " ++ name
  ++ js ", part of the BMad Method. Follow your role and principles while assisting users with their development needs."
  ++ [u_nl].

Definition generatePrompt (agentData : AgentData.t) : jsstring :=
  let name := AgentData.name agentData in
  let icon := AgentData.icon agentData in
  let role := AgentData.role agentData in
  let identity_ := AgentData.identity agentData in
  let communicationStyle := AgentData.communicationStyle agentData in
  let principles := AgentData.principles agentData in
  let menuItems := AgentData.menuItems agentData in
  let prompt := js "# " ++ name ++ js " " ++ icon ++ [u_nl; u_nl] in
  let prompt :=
    if truthy role then prompt ++ js "## Role" ++ [u_nl] ++ role ++ [u_nl; u_nl]
    else prompt in
  let prompt :=
    if truthy identity_
    then prompt ++ js "## Identity" ++ [u_nl] ++ identity_ ++ [u_nl; u_nl]
    else prompt in
  let prompt :=
    if truthy communicationStyle
    then prompt ++ js "## Communication Style" ++ [u_nl] ++ communicationStyle ++ [u_nl; u_nl]
    else prompt in
  let prompt :=
    if principles_truthy principles then
      let prompt := prompt ++ js "## Principles" ++ [u_nl] in
      match principles with
      | PrinciplesText s => prompt ++ s ++ [u_nl; u_nl]
      | PrinciplesList ps => bullet_lines ps prompt ++ [u_nl]
      end
    else prompt in
  let prompt :=
    if (0 <? length menuItems)%nat then
      let prompt := prompt ++ js "## Available Workflows" ++ [u_nl] in
      menu_lines 0 menuItems prompt ++ [u_nl]
    else prompt in
  prompt ++ instructions name.

(** ** The world: a file system with injected failures, and the console *)

Inductive node :=
| File (data : jsstring)
| Dir.

Definition is_dir (n : node) : bool :=
  match n with Dir => true | File _ => false end.

(** Which operations fail, and how: a failing write may leave a partial file
    behind ([Some residue]) or nothing new ([None]); a failing removal or
    listing leaves the tree as it was. *)
Record faults := Faults {
  write_fault : path -> option (error * option jsstring);
  remove_fault : path -> option error;
  readdir_fault : path -> option error
}.

Inductive level := LogInfo | LogWarn | LogError.

Record world := World {
  files : gmap path node;
  failures : faults;
  console : list (level * jsstring)
}.

Definition set_files (m : gmap path node) (w : world) : world :=
  World m (failures w) (console w).

(** Computations that read and write the world and may throw. *)
Definition M (A : Type) : Type := world -> result A * world.

Definition ret {A} (a : A) : M A := fun w => (Ok a, w).

Definition bind {A B} (m : M A) (k : A -> M B) : M B :=
  fun w =>
    match m w with
    | (Ok a, w') => k a w'
    | (Throw e, w') => (Throw e, w')
    end.

Definition throw {A} (e : error) : M A := fun w => (Throw e, w).

(** [try { body } catch (error) { handler }] *)
Definition try_catch {A} (body : M A) (handler : error -> M A) : M A :=
  fun w =>
    match body w with
    | (Ok a, w') => (Ok a, w')
    | (Throw e, w') => handler e w'
    end.

(** [promise.catch(() => {})] *)
Definition swallow (m : M unit) : M unit := try_catch m (fun _ => ret tt).

(** A synchronous computation that may throw, inside an [async] function. *)
Definition lift {A} (r : result A) : M A := fun w => (r, w).

Notation "x <- m ;; k" := (bind m (fun x => k))
  (at level 100, m at next level, right associativity).
Notation "m ;;; k" := (bind m (fun _ => k))
  (at level 100, right associativity).

(** [console.log], [console.warn] and [console.error]; chalk only colours. *)
Definition log (l : level) (msg : jsstring) : M unit :=
  fun w => (Ok tt, World (files w) (failures w) (console w ++ [(l, msg)])).

Definition ENOENT : error := js "ENOENT: no such file or directory".
Definition ENOTDIR : error := js "ENOTDIR: not a directory".
Definition EISDIR : error := js "EISDIR: illegal operation on a directory".

Module Dirent.
Record t := mk {
  name : jsstring;
  isDirectory : bool
}.
End Dirent.

Fixpoint strip_prefix (p l : path) : option path :=
  match p, l with
  | [], _ => Some l
  | _ :: _, [] => None
  | a :: p', b :: l' => if units_eqb a b then strip_prefix p' l' else None
  end.

(** The entry of [dir] that a path of the tree stands for, if it is one. *)
Definition child_entry (dir : path) (kv : path * node) : option Dirent.t :=
  match strip_prefix dir kv.1 with
  | Some [x] => Some (Dirent.mk x (is_dir kv.2))
  | _ => None
  end.

Definition entries (dir : path) (m : gmap path node) : list Dirent.t :=
  omap (child_entry dir) (map_to_list m).

(** [fs.pathExists(p)]: never rejects. *)
Definition pathExists (p : path) : M bool :=
  fun w => (Ok (match files w !! p with Some _ => true | None => false end), w).

(** [fs.readdir(p, { withFileTypes: true })] *)
Definition readdir (p : path) : M (list Dirent.t) :=
  fun w =>
    match readdir_fault (failures w) p with
    | Some e => (Throw e, w)
    | None =>
        match files w !! p with
        | Some Dir => (Ok (entries p (files w)), w)
        | Some (File _) => (Throw ENOTDIR, w)
        | None => (Throw ENOENT, w)
        end
    end.

(** [fs.readdir(p)]: the names only. *)
Definition readdir_names (p : path) : M (list jsstring) :=
  es <- readdir p ;; ret (List.map Dirent.name es).

(** [fs.remove(p)] of fs-extra: removes a file or a whole directory; removing
    what does not exist succeeds. *)
Definition remove (p : path) : M unit :=
  fun w =>
    match remove_fault (failures w) p with
    | Some e => (Throw e, w)
    | None =>
        (Ok tt, set_files (filter (fun kv => ~ p `prefix_of` kv.1) (files w)) w)
    end.

(** [fs.writeFile(p, data)] *)
Definition writeFile (p : path) (data : jsstring) : M unit :=
  fun w =>
    match write_fault (failures w) p with
    | Some (e, residue) =>
        (Throw e,
         match residue with
         | Some partial => set_files (<[p := File partial]> (files w)) w
         | None => w
         end)
    | None =>
        match files w !! removelast p with
        | Some Dir =>
            match files w !! p with
            | Some Dir => (Throw EISDIR, w)
            | _ => (Ok tt, set_files (<[p := File data]> (files w)) w)
            end
        | _ => (Throw ENOENT, w)
        end
    end.

(** [fs.readFile(p, 'utf8')] *)
Definition readFile (p : path) : M jsstring :=
  fun w =>
    match files w !! p with
    | Some (File data) => (Ok data, w)
    | Some Dir => (Throw EISDIR, w)
    | None => (Throw ENOENT, w)
    end.

(** ** Collaborators outside this file *)

Module WorkflowArtifact.
Record t := mk {
  type : jsstring;
  name : jsstring;
  description : jsstring;
  workflowPath : jsstring
}.
End WorkflowArtifact.

Module Task.
Record t := mk {
  name : jsstring;
  displayName : jsstring;
  description : jsstring;
  path : jsstring
}.
End Task.

Module Tool.
Record t := mk {
  name : jsstring;
  description : jsstring;
  path : jsstring
}.
End Tool.

Module SteeringResults.
Record t := mk {
  generated : nat;
  errors : list jsstring
}.
End SteeringResults.

Module SkippedItem.
Record t := mk {
  type : jsstring;
  name : jsstring;
  reason : jsstring
}.
End SkippedItem.

Module Detection.
Record t := mk {
  state : jsstring;
  canProceed : bool
}.
End Detection.

(** What [KiroCliSetup] takes from its environment: the string runtime, the
    compiled Ajv validator with the [errors] it leaves behind, jsonfile's
    serialiser, the fields and [ensureDir] inherited from [BaseIdeSetup], and
    the shared generators. *)
Record Env := {
  toLowerCase : jsstring -> jsstring;
  validate : AgentConfig.t -> bool;
  validate_errors : AgentConfig.t -> list ValidationError.t;
  stringify : AgentConfig.t -> jsstring;
  this_name : jsstring;
  bmadFolderName : jsstring;
  ensureDir : path -> M unit;
  collectAgentArtifacts : path -> list jsstring -> M (list Artifact.t);
  collectWorkflowArtifacts : path -> M (list WorkflowArtifact.t);
  collectTasks : path -> M (list Task.t);
  collectTools : path -> M (list Tool.t);
  generateAll : path -> M SteeringResults.t
}.

Definition configDir : jsstring := js ".kiro".
Definition agentsDir : jsstring := js "agents".

Section KiroCliSetup.
Context (E : Env).

(** *** Identifier sanitisation *)

Definition sanitizeAgentName (name : jsstring) : jsstring :=
  replaceAll re_unsafe []
    (replaceAll re_spaces (js "-") (toLowerCase E name)).

(** *** Record-to-config formatter *)

Definition validateAgentJson (agentConfig : AgentConfig.t) : result unit :=
  if validate E agentConfig then Ok tt
  else
    let errorDetails :=
      join (js ", ")
        (List.map (fun err => ValidationError.instancePath err ++ js ": "
                              ++ ValidationError.message err)
                  (validate_errors E agentConfig)) in
    Throw (js "Invalid agent schema: " ++ errorDetails).

(** The object literal of [createAgentConfig]. *)
Definition agentConfig_of (agentName : jsstring) (agentData : AgentData.t)
  : AgentConfig.t :=
  AgentConfig.mk
    agentName
    (AgentData.name agentData ++ js " - "
     ++ (if truthy (AgentData.role agentData) then AgentData.role agentData
         else AgentData.title agentData))
    (js "file://" ++ posix_join [js "."; agentName ++ js "-prompt.md"])
    [js "*"]
    ∅
    true
    [].

Definition createAgentConfig (agentName : jsstring) (agentData : AgentData.t)
  : result AgentConfig.t :=
  let agentConfig := agentConfig_of agentName agentData in
  match validateAgentJson agentConfig with
  | Ok _ => Ok agentConfig
  | Throw e => Throw e
  end.

(** *** File pair writer *)

(** [fs.writeJson(p, obj, { spaces: 2 })] *)
Definition writeJson (p : path) (obj : AgentConfig.t) : M unit :=
  writeFile p (stringify E obj).

Definition agentName_of (artifact : Artifact.t) : jsstring :=
  js "bmad-" ++ Artifact.module artifact ++ js "-" ++ Artifact.name artifact.

Definition jsonPath_of (agentsDir : path) (artifact : Artifact.t) : path :=
  agentsDir ++ [sanitizeAgentName (agentName_of artifact) ++ js ".json"].

Definition promptPath_of (agentsDir : path) (artifact : Artifact.t) : path :=
  agentsDir ++ [sanitizeAgentName (agentName_of artifact) ++ js "-prompt.md"].

Definition processAgentArtifact (artifact : Artifact.t) (agentsDir projectDir : path)
  : M unit :=
  agentContent <- readFile (Artifact.sourcePath artifact) ;;
  match parseCompiledAgent agentContent artifact with
  | None => ret tt
  | Some agentData =>
      let agentName := agentName_of artifact in
      let sanitizedAgentName := sanitizeAgentName agentName in
      let jsonPath := jsonPath_of agentsDir artifact in
      let promptPath := promptPath_of agentsDir artifact in
      try_catch
        (agentConfig <- lift (createAgentConfig sanitizedAgentName agentData) ;;
         let promptContent := generatePrompt agentData in
         writeFile promptPath promptContent ;;;
         writeJson jsonPath agentConfig)
        (fun error =>
           swallow (remove promptPath) ;;;
           swallow (remove jsonPath) ;;;
           throw error)
  end.

(** *** Installation state detector *)

Definition detectInstallation (projectDir : path) : M Detection.t :=
  log LogInfo (js "Detecting BMAD installation...") ;;;
  let bmadPath := projectDir ++ [bmadFolderName E] in
  let kiroPath := projectDir ++ [configDir] in
  let agentsPath := kiroPath ++ [agentsDir] in
  let commandsPath := kiroPath ++ [js "commands"] in
  bmadExists <- pathExists bmadPath ;;
  kiroExists <- pathExists kiroPath ;;
  agentsExists <- pathExists agentsPath ;;
  commandsExists <- pathExists commandsPath ;;
  if negb bmadExists then
    log LogInfo ([9888] ++ js " No " ++ bmadFolderName E
                 ++ js "/ folder found. BMAD may not be installed.") ;;;
    ret (Detection.mk (js "no-bmad") false)
  else
    log LogInfo ([10003] ++ js " Found " ++ bmadFolderName E ++ js "/ folder") ;;;
    if kiroExists then
      log LogInfo ([10003] ++ js " Found existing " ++ configDir ++ js "/ installation") ;;;
      (if agentsExists
       then log LogInfo (js "  " ++ [9492; 9472] ++ js " "
                         ++ posix_join [configDir; agentsDir] ++ js "/ exists")
       else ret tt) ;;;
      (if commandsExists
       then log LogInfo (js "  " ++ [9492; 9472] ++ js " "
                         ++ posix_join [configDir; js "commands"] ++ js "/ exists")
       else ret tt) ;;;
      log LogInfo ([8594] ++ js " Upgrade mode: Will clean and reinstall") ;;;
      ret (Detection.mk (js "upgrade") true)
    else
      log LogInfo ([8594] ++ js " New Kiro installation") ;;;
      ret (Detection.mk (js "new") true).

(** *** Selective cleanup *)

(** The loop [for (const file of bmadFiles) { try { remove; removedCount++ }
    catch (error) { warn } }]. *)
Fixpoint removeEach (dir : path) (bmadFiles : list jsstring) (removedCount : nat)
  : M nat :=
  match bmadFiles with
  | [] => ret removedCount
  | file :: rest =>
      n <- try_catch
             (remove (dir ++ [file]) ;;; ret (S removedCount))
             (fun error =>
                log LogWarn (js "  Warning: Failed to remove " ++ file ++ js ": " ++ error) ;;;
                ret removedCount) ;;
      removeEach dir rest n
  end.

(** The block that [cleanup] runs once for the agents directory and once for
    the commands directory; the two copies differ in the directory and in the
    word of the log line. *)
Definition cleanPrefixed (dir : path) (kind : string) : M nat :=
  present <- pathExists dir ;;
  if present then
    names <- readdir_names dir ;;
    let bmadFiles := List.filter (startsWith (js "bmad")) names in
    removedCount <- removeEach dir bmadFiles 0 ;;
    log LogInfo (js "  Cleaned " ++ decimal removedCount ++ js " BMAD " ++ js kind
                 ++ js " files from " ++ this_name E) ;;;
    ret removedCount
  else ret 0%nat.

Definition cleanup (projectDir : path) : M unit :=
  let bmadAgentsDir := projectDir ++ [configDir; agentsDir] in
  let bmadCommandsDir := projectDir ++ [configDir; js "commands"] in
  let steeringDir := projectDir ++ [configDir; js "steering"] in
  removedAgents <- cleanPrefixed bmadAgentsDir "agent" ;;
  removedCommands <- cleanPrefixed bmadCommandsDir "command" ;;
  let totalRemoved := (removedAgents + removedCommands)%nat in
  present <- pathExists steeringDir ;;
  (if present then
     try_catch
       (remove steeringDir ;;;
        log LogInfo (js "  Cleaned steering directory from " ++ this_name E))
       (fun error =>
          log LogWarn (js "  Warning: Failed to remove steering directory: " ++ error))
   else ret tt) ;;;
  log LogInfo (js "  Total files removed: " ++ decimal totalRemoved).

(** *** Directory-tree discoverer *)

(** The [for (const entry of entries)] loop; [modules] is the array built so
    far.  [pathExists] cannot throw, so the loop cannot either. *)
Fixpoint scanEntries (bmadDir : path) (es : list Dirent.t) (modules : list jsstring)
  : M (list jsstring) :=
  match es with
  | [] => ret modules
  | entry :: rest =>
      if negb (Dirent.isDirectory entry)
         || units_eqb (Dirent.name entry) (js "core")
         || startsWith (js "_") (Dirent.name entry)
      then scanEntries bmadDir rest modules
      else
        let moduleAgentsPath := bmadDir ++ [Dirent.name entry; js "agents"] in
        present <- pathExists moduleAgentsPath ;;
        if present then scanEntries bmadDir rest (modules ++ [Dirent.name entry])
        else scanEntries bmadDir rest modules
  end.

(** [modules] is mutated inside the [try]; the one operation that can throw
    is [readdir], and what was pushed before it stays in the array the
    function returns after the [catch]. *)
Definition discoverAllModules (bmadDir : path) : M (list jsstring) :=
  let coreAgentsPath := bmadDir ++ [js "core"; js "agents"] in
  coreExists <- pathExists coreAgentsPath ;;
  let modules := if coreExists then [js "core"] else [] in
  try_catch
    (es <- readdir bmadDir ;;
     scanEntries bmadDir es modules)
    (fun error =>
       log LogWarn (js "  Warning: Failed to discover modules: " ++ error) ;;;
       ret modules).

(** *** Command files *)

Definition loadDirective (title description target : jsstring) : jsstring :=
  js "# " ++ title ++ [u_nl; u_nl] ++ description ++ [u_nl; u_nl]
  ++ js "LOAD @" ++ target ++ [u_nl].

Definition generateWorkflowCommandContent (artifact : WorkflowArtifact.t) : jsstring :=
  loadDirective (WorkflowArtifact.name artifact)
                (WorkflowArtifact.description artifact)
                (WorkflowArtifact.workflowPath artifact).

Definition generateTaskCommandContent (task : Task.t) : jsstring :=
  loadDirective (if truthy (Task.displayName task) then Task.displayName task
                 else Task.name task)
                (Task.description task) (Task.path task).

Definition generateToolCommandContent (tool : Tool.t) : jsstring :=
  loadDirective (Tool.name tool) (Tool.description tool) (Tool.path tool).

(** [path.join(commandsDir, `bmad-${name}.md`)] *)
Definition commandPath_of (commandsDir : path) (name : jsstring) : path :=
  join_path commandsDir (js "bmad-" ++ name ++ js ".md").

Fixpoint writeWorkflowCommands (commandsDir : path) (artifacts : list WorkflowArtifact.t)
         (workflowCount : nat) : M nat :=
  match artifacts with
  | [] => ret workflowCount
  | artifact :: rest =>
      if units_eqb (WorkflowArtifact.type artifact) (js "workflow-command") then
        writeFile (commandPath_of commandsDir (WorkflowArtifact.name artifact))
                  (generateWorkflowCommandContent artifact) ;;;
        writeWorkflowCommands commandsDir rest (S workflowCount)
      else writeWorkflowCommands commandsDir rest workflowCount
  end.

Definition generateWorkflowCommands (bmadDir commandsDir : path) : M nat :=
  artifacts <- collectWorkflowArtifacts E bmadDir ;;
  writeWorkflowCommands commandsDir artifacts 0.

Fixpoint writeTaskCommands (commandsDir : path) (tasks : list Task.t) (taskCount : nat)
  : M nat :=
  match tasks with
  | [] => ret taskCount
  | task :: rest =>
      writeFile (commandPath_of commandsDir (Task.name task))
                (generateTaskCommandContent task) ;;;
      writeTaskCommands commandsDir rest (S taskCount)
  end.

Definition generateTaskCommands (bmadDir commandsDir : path) : M nat :=
  tasks <- collectTasks E bmadDir ;;
  writeTaskCommands commandsDir tasks 0.

Fixpoint writeToolCommands (commandsDir : path) (tools : list Tool.t) (toolCount : nat)
  : M nat :=
  match tools with
  | [] => ret toolCount
  | tool :: rest =>
      writeFile (commandPath_of commandsDir (Tool.name tool))
                (generateToolCommandContent tool) ;;;
      writeToolCommands commandsDir rest (S toolCount)
  end.

Definition generateToolCommands (bmadDir commandsDir : path) : M nat :=
  tools <- collectTools E bmadDir ;;
  writeToolCommands commandsDir tools 0.

(** *** Steering files *)

Fixpoint logEach (lines : list jsstring) : M unit :=
  match lines with
  | [] => ret tt
  | l :: rest => log LogInfo (js "  " ++ l) ;;; logEach rest
  end.

Definition generateSteeringFiles (projectDir : path) : M SteeringResults.t :=
  try_catch
    (results <- generateAll E projectDir ;;
     (if (0 <? length (SteeringResults.errors results))%nat then
        log LogInfo ([9888] ++ js " Steering generation warnings: "
                     ++ decimal (length (SteeringResults.errors results))) ;;;
        logEach (SteeringResults.errors results)
      else ret tt) ;;;
     ret results)
    (fun error =>
       log LogWarn (js "  Warning: Failed to generate steering files: " ++ error) ;;;
       ret (SteeringResults.mk 0 [error])).

(** *** Orchestrator *)

Definition isAgentItem (item : SkippedItem.t) : bool :=
  units_eqb (SkippedItem.type item) (js "agent").

Definition displayInstallationSummary (agentCount workflowCount taskCount toolCount : nat)
           (steeringResults : SteeringResults.t) (skippedItems : list SkippedItem.t)
  : M unit :=
  log LogInfo ([10003] ++ js " Generated agents: " ++ decimal agentCount ++ js " files") ;;;
  log LogInfo ([10003] ++ js " Generated workflows: " ++ decimal workflowCount ++ js " files") ;;;
  log LogInfo ([10003] ++ js " Generated tasks: " ++ decimal taskCount ++ js " files") ;;;
  log LogInfo ([10003] ++ js " Generated tools: " ++ decimal toolCount ++ js " files") ;;;
  log LogInfo ([10003] ++ js " Generated steering files: "
               ++ decimal (SteeringResults.generated steeringResults) ++ js " files") ;;;
  if (0 <? length skippedItems)%nat then
    let skippedAgents := length (List.filter isAgentItem skippedItems) in
    if (0 <? skippedAgents)%nat then
      log LogInfo ([9888] ++ js " Skipped: " ++ decimal skippedAgents
                   ++ js " invalid agents (see warnings above)")
    else ret tt
  else ret tt.

Definition skipWarning (artifact : Artifact.t) (e : error) : jsstring :=
  js "  Warning: Failed to process agent " ++ Artifact.name artifact ++ js ": " ++ e.

Definition skippedAgent (artifact : Artifact.t) (e : error) : SkippedItem.t :=
  SkippedItem.mk (js "agent") (Artifact.name artifact) e.

(** The loop over [agentArtifacts], with its per-artifact [try]/[catch];
    [skippedItems] and [agentCount] are the accumulators of [setup]. *)
Fixpoint processAgents (agentArtifacts : list Artifact.t) (agentsDir projectDir : path)
         (skippedItems : list SkippedItem.t) (agentCount : nat)
  : M (list SkippedItem.t * nat) :=
  match agentArtifacts with
  | [] => ret (skippedItems, agentCount)
  | artifact :: rest =>
      acc <- try_catch
               (processAgentArtifact artifact agentsDir projectDir ;;;
                ret (skippedItems, S agentCount))
               (fun error =>
                  log LogWarn (skipWarning artifact error) ;;;
                  ret (skippedItems ++ [skippedAgent artifact error], agentCount)) ;;
      processAgents rest agentsDir projectDir acc.1 acc.2
  end.

Definition cannotProceed : error :=
  js "Cannot proceed: " ++ bmadFolderName E
  ++ js "/ folder is required. Please install BMAD first.".

Definition setup (projectDir bmadDir : path) : M unit :=
  log LogInfo (js "Setting up " ++ this_name E ++ js "...") ;;;
  try_catch
    (detection <- detectInstallation projectDir ;;
     (if negb (Detection.canProceed detection) then throw cannotProceed else ret tt) ;;;
     cleanup projectDir ;;;
     let kiroDir := projectDir ++ [configDir] in
     let agentsDir := kiroDir ++ [agentsDir] in
     let commandsDir := kiroDir ++ [js "commands"] in
     ensureDir E agentsDir ;;;
     ensureDir E commandsDir ;;;
     allModules <- discoverAllModules bmadDir ;;
     log LogInfo (js "  Discovered modules: " ++ join (js ", ") allModules) ;;;
     agentArtifacts <- collectAgentArtifacts E bmadDir allModules ;;
     acc <- processAgents agentArtifacts agentsDir projectDir [] 0 ;;
     let skippedItems := acc.1 in
     let agentCount := acc.2 in
     workflowCount <- generateWorkflowCommands bmadDir commandsDir ;;
     taskCount <- generateTaskCommands bmadDir commandsDir ;;
     toolCount <- generateToolCommands bmadDir commandsDir ;;
     steeringResults <- generateSteeringFiles projectDir ;;
     displayInstallationSummary agentCount workflowCount taskCount toolCount
                                steeringResults skippedItems)
    (fun error =>
       log LogError (js "Installation failed: " ++ error) ;;;
       log LogInfo (js "Cleaning up partial installation...") ;;;
       cleanup projectDir ;;;
       throw error).

End KiroCliSetup.

(** ** The specification's wording, for comparison *)

(** *** Identifier sanitisation *)

(** The maximal runs of a text: each run is tagged with whether it is made of
    whitespace, and neighbouring runs have different tags. *)
Fixpoint runs (s : jsstring) : list (bool * jsstring) :=
  match s with
  | [] => []
  | c :: s' =>
      match runs s' with
      | (b, r) :: rs =>
          if eqb b (is_space c) then (b, c :: r) :: rs
          else (is_space c, [c]) :: (b, r) :: rs
      | [] => [(is_space c, [c])]
      end
  end.

(** No two neighbouring runs are of the same kind. *)
Fixpoint alternating (rs : list (bool * jsstring)) : Prop :=
  match rs with
  | r1 :: ((r2 :: _) as rs') => r1.1 <> r2.1 /\ alternating rs'
  | _ => True
  end.

Definition hyphen_for_spaces (run : bool * jsstring) : jsstring :=
  if run.1 then [u_hyphen] else run.2.

(** Replace every maximal whitespace run with a single hyphen. *)
Definition collapse_runs (s : jsstring) : jsstring :=
  concat (List.map hyphen_for_spaces (runs s)).

(** Lower-case, collapse whitespace runs to a single hyphen, then strip any
    character outside [[a-z0-9-]]. *)
Definition sanitize_spec (E : Env) (x : jsstring) : jsstring :=
  List.filter is_safe (collapse_runs (toLowerCase E x)).

(** [[a-z0-9-]*] *)
Definition re_safe_star : regex := [Atom is_safe Star false].

(** The same collapse, written as a scan that remembers whether the previous
    unit was whitespace. *)
Fixpoint collapse_scan (in_run : bool) (s : jsstring) : jsstring :=
  match s with
  | [] => []
  | c :: s' =>
      if is_space c then
        if in_run then collapse_scan true s' else u_hyphen :: collapse_scan true s'
      else c :: collapse_scan false s'
  end.

(** What the runtime guarantees about [toLowerCase]: a text of lower-case
    ASCII letters, digits and hyphens is already in lower case. *)
Definition lowercase_fixes_safe (E : Env) : Prop :=
  forall s, Forall (fun c => is_safe c = true) s -> toLowerCase E s = s.

(** *** Tag extractor *)

(** An opening agent tag with attributes: [<agent], whitespace, at least one
    unit other than [>], and the closing [>]. *)
Definition has_agent_tag (content : jsstring) : Prop :=
  exists pre ws attrs post,
    content = pre ++ js "<agent" ++ ws ++ attrs ++ [u_gt] ++ post
    /\ ws <> [] /\ Forall (fun c => is_space c = true) ws
    /\ attrs <> [] /\ Forall (fun c => c <> u_gt) attrs.

(** A block [<tag> ... </tag>] somewhere in the text. *)
Definition has_block (tag : string) (content : jsstring) : Prop :=
  exists pre body post,
    content = pre ++ (js "<" ++ js tag ++ js ">") ++ body
              ++ (js "</" ++ js tag ++ js ">") ++ post.

(** An attribute [key] with a non-empty double-quoted value in the attribute
    text of a tag. *)
Definition has_attr (key : string) (attrs : jsstring) : Prop :=
  exists pre value post,
    attrs = pre ++ (js key ++ js "=" ++ [u_quote]) ++ value ++ [u_quote] ++ post
    /\ value <> [] /\ Forall (fun c => c <> u_quote) value.

(** The attribute text of the agent tag that [parseCompiledAgent] works on:
    the first group of the first match of the agent pattern. *)
Definition agent_attrs (content : jsstring) : option jsstring :=
  match js_match re_agent content with
  | Some agentTagMatch => Some (group 1 agentTagMatch)
  | None => None
  end.

(** *** Content document *)

(** A titled section of the content document: the heading line, the body and
    the blank line that ends the section. *)
Definition titled_section (heading : string) (body : jsstring) : jsstring :=
  js "## " ++ js heading ++ [u_nl] ++ body ++ [u_nl].

(** The section of a text field: emitted only if the field is non-empty. *)
Definition optional_section (heading : string) (field : jsstring) : jsstring :=
  match field with
  | [] => []
  | _ :: _ => titled_section heading (field ++ [u_nl])
  end.

(** The menu entries, numbered from 1 in the order of the list. *)
Definition numbered_menu (items : list MenuItem.t) : jsstring :=
  concat (imap (fun i item =>
                  decimal (i + 1) ++ js ". **" ++ MenuItem.trigger item ++ js "**: "
                  ++ MenuItem.description item ++ [u_nl])
               items).

Definition menu_section (items : list MenuItem.t) : jsstring :=
  match items with
  | [] => []
  | _ :: _ => titled_section "Available Workflows" (numbered_menu items)
  end.



(** *** Module discovery *)

(** Whether a path exists in a world. *)
Definition exists_in (w : world) (p : path) : bool :=
  match files w !! p with Some _ => true | None => false end.

(** An entry of the root that counts as a module besides [core]: a directory
    whose name does not start with an underscore and which contains
    [agents]. *)
Definition is_module (bmadDir : path) (w : world) (entry : Dirent.t) : bool :=
  Dirent.isDirectory entry
  && negb (units_eqb (Dirent.name entry) (js "core"))
  && negb (startsWith (js "_") (Dirent.name entry))
  && exists_in w (bmadDir ++ [Dirent.name entry; js "agents"]).

(** [core] comes first, if and only if [core/agents] exists. *)
Definition core_first (bmadDir : path) (w : world) : list jsstring :=
  if exists_in w (bmadDir ++ [js "core"; js "agents"]) then [js "core"] else [].

Definition warned (msg : jsstring) (w : world) : world :=
  World (files w) (failures w) (console w ++ [(LogWarn, msg)]).

(** *** Cleanup *)

(** The three output directories under the project. *)
Definition kiro_agents (projectDir : path) : path :=
  projectDir ++ [configDir; agentsDir].
Definition kiro_commands (projectDir : path) : path :=
  projectDir ++ [configDir; js "commands"].
Definition kiro_steering (projectDir : path) : path :=
  projectDir ++ [configDir; js "steering"].

(** A directory of the target tree that, when present, is a directory whose
    listing does not fail. *)
Definition listable (w : world) (dir : path) : Prop :=
  files w !! dir = None
  \/ (files w !! dir = Some Dir /\ readdir_fault (failures w) dir = None).

(** [k] is, or lies below, an entry of the directory [dir] whose name starts
    with the reserved prefix and whose removal does not fail. *)
Definition swept (w : world) (dir k : path) : Prop :=
  files w !! dir = Some Dir
  /\ exists n, startsWith (js "bmad") n = true
               /\ is_Some (files w !! (dir ++ [n]))
               /\ remove_fault (failures w) (dir ++ [n]) = None
               /\ (dir ++ [n]) `prefix_of` k.

(** [k] is, or lies below, the steering directory, which is present and whose
    removal does not fail. *)
Definition steering_swept (w : world) (projectDir k : path) : Prop :=
  is_Some (files w !! kiro_steering projectDir)
  /\ remove_fault (failures w) (kiro_steering projectDir) = None
  /\ kiro_steering projectDir `prefix_of` k.

Definition removeWarning (file : jsstring) (e : error) : level * jsstring :=
  (LogWarn, js "  Warning: Failed to remove " ++ file ++ js ": " ++ e).


(** *** File pair *)

(** The catch block of [processAgentArtifact]. *)
Definition rollback (promptPath jsonPath : path) (e : error) : M unit :=
  swallow (remove promptPath) ;;;
  swallow (remove jsonPath) ;;;
  throw e.

(** The failure that sends [processAgentArtifact] into its catch block: the
    one thrown by [createAgentConfig], by the write of the prompt, or by the
    write of the configuration. *)
Definition original_failure (E : Env) (artifact : Artifact.t) (agentsDir : path)
           (d : AgentData.t) (w : world) (e : error) : Prop :=
  let name := sanitizeAgentName E (agentName_of artifact) in
  let promptPath := promptPath_of E agentsDir artifact in
  let jsonPath := jsonPath_of E agentsDir artifact in
  createAgentConfig E name d = Throw e
  \/ exists config,
       createAgentConfig E name d = Ok config
       /\ ((writeFile promptPath (generatePrompt d) w).1 = Throw e
           \/ ((writeFile promptPath (generatePrompt d) w).1 = Ok tt
               /\ (writeJson E jsonPath config
                             (writeFile promptPath (generatePrompt d) w).2).1 = Throw e)).

(** The claim that the pair is all-or-nothing whatever fails: after the call,
    the configuration file is there if and only if the prompt file is. *)
Definition pair_all_or_nothing : Prop :=
  forall (E : Env) (artifact : Artifact.t) (agentsDir projectDir : path)
         (w : world) (content : jsstring) (d : AgentData.t),
    (readFile (Artifact.sourcePath artifact) w).1 = Ok content ->
    parseCompiledAgent content artifact = Some d ->
    let w' := (processAgentArtifact E artifact agentsDir projectDir w).2 in
    is_Some (files w' !! jsonPath_of E agentsDir artifact)
    <-> is_Some (files w' !! promptPath_of E agentsDir artifact).

(** *** Orchestrator *)

(** Nothing was created or changed between two worlds: every path of the
    later one was in the earlier one with the same content. *)
Definition only_removes (w w' : world) : Prop :=
  forall k, files w' !! k = None \/ files w' !! k = files w !! k.

(** ** A concrete environment, to run the model *)

Definition ascii_toLowerCase (s : jsstring) : jsstring :=
  List.map (fun c => if (65 <=? c) && (c <=? 90) then c + 32 else c) s.

(** A schema with two rules on the name: it is not empty, and it starts with
    the reserved prefix. *)
Definition demo_schema : list Ajv.rule :=
  [fun c => if truthy (AgentConfig.name c) then None
            else Some (ValidationError.mk (js "/name")
                         (js "must NOT have fewer than 1 characters"));
   fun c => if startsWith (js "bmad") (AgentConfig.name c) then None
            else Some (ValidationError.mk (js "/name") (js "must match pattern ^bmad"))].

(** The validator the installer compiles from it, and what it leaves in
    [validate.errors]. *)
Definition demo_errors (c : AgentConfig.t) : list ValidationError.t :=
  Ajv.errors ajv_options demo_schema c.

Definition demo_validate (c : AgentConfig.t) : bool :=
  Ajv.validate demo_schema c.

Definition demo_stringify (c : AgentConfig.t) : jsstring :=
  js "{ name: " ++ AgentConfig.name c ++ js ", prompt: " ++ AgentConfig.prompt c ++ js " }"
  ++ [u_nl].

(** [fs.ensureDir] for a directory whose parent exists. *)
Definition demo_ensureDir (p : path) : M unit :=
  fun w =>
    match files w !! p with
    | Some (File _) => (Throw (js "EEXIST: file already exists"), w)
    | Some Dir => (Ok tt, w)
    | None => (Ok tt, set_files (<[p := Dir]> (files w)) w)
    end.

Definition demo_env (agentArtifacts : list Artifact.t) : Env := {|
  toLowerCase := ascii_toLowerCase;
  validate := demo_validate;
  validate_errors := demo_errors;
  stringify := demo_stringify;
  this_name := js "kiro-cli";
  bmadFolderName := js "_bmad";
  ensureDir := demo_ensureDir;
  collectAgentArtifacts := fun _ _ => ret agentArtifacts;
  collectWorkflowArtifacts := fun _ => ret [];
  collectTasks := fun _ => ret [];
  collectTools := fun _ => ret [];
  generateAll := fun _ => ret (SteeringResults.mk 0 [])
|}.

(** ** Example worlds *)

Definition demo_project : path := [js "project"].
Definition demo_bmad : path := demo_project ++ [js "_bmad"].
Definition demo_source : path := demo_bmad ++ [js "core"; js "agents"; js "pm.md"].
Definition demo_agents : path := kiro_agents demo_project.
Definition demo_commands : path := kiro_commands demo_project.

Definition demo_artifact : Artifact.t :=
  Artifact.mk (js "pm") (js "core") demo_source (js "Product Manager").

(** The document of the specification's round-trip scenario (with the robot
    glyph for the icon). *)
Definition demo_document : jsstring :=
  js "<agent name=" ++ [u_quote] ++ js "pm" ++ [u_quote]
  ++ js " title=" ++ [u_quote] ++ js "Product Manager" ++ [u_quote]
  ++ js " icon=" ++ [u_quote] ++ robot ++ [u_quote]
  ++ js "><persona><role>Leads planning</role></persona><menu><item cmd="
  ++ [u_quote] ++ js "plan" ++ [u_quote]
  ++ js ">Create plan</item></menu></agent>".

(** A document with the agent tag only. *)
Definition bare_document : jsstring :=
  js "<agent name=" ++ [u_quote] ++ js "pm" ++ [u_quote] ++ js ">".

Definition no_faults : faults :=
  Faults (fun _ => None) (fun _ => None) (fun _ => None).

Definition EACCES : error := js "EACCES: permission denied".

(** A directory without write permission: nothing can be created in it and
    nothing can be removed from it. *)
Definition readonly_faults : faults :=
  Faults (fun _ => Some (EACCES, None)) (fun _ => Some EACCES) (fun _ => None).

Definition demo_tree : gmap path node :=
  list_to_map
    [(demo_project, Dir);
     (demo_bmad, Dir);
     (demo_bmad ++ [js "core"], Dir);
     (demo_bmad ++ [js "core"; js "agents"], Dir);
     (demo_source, File demo_document);
     (demo_project ++ [configDir], Dir);
     (demo_agents, Dir);
     (demo_commands, Dir);
     (demo_agents ++ [js "bmad-core-pm.json"], File (js "{}"));
     (demo_agents ++ [js "user-agent.json"], File (js "{}"));
     (demo_commands ++ [js "bmad-help.md"], File (js "# help"))].

Definition demo_world : world := World demo_tree no_faults [].

(** The same tree with the agents directory read-only; a configuration file
    of an earlier installation is still in it. *)
Definition readonly_world : world := World demo_tree readonly_faults [].

(** The record [parseCompiledAgent] extracts from [demo_document]. *)
Definition demo_record : AgentData.t :=
  AgentData.mk (js "pm") (js "Product Manager") robot (js "Leads planning")
               [] [] (PrinciplesText [])
               [MenuItem.mk (js "plan") (js "Create plan")].

Definition demo_prompt_path : path := demo_agents ++ [js "bmad-core-pm-prompt.md"].
Definition demo_json_path : path := demo_agents ++ [js "bmad-core-pm.json"].

(** No space is left for the configuration file, and the prompt file, once
    created, cannot be unlinked. *)
Definition halfway_faults : faults :=
  Faults (fun p => if bool_decide (p = demo_json_path)
                   then Some (js "ENOSPC: no space left on device", None)
                   else None)
         (fun p => if bool_decide (p = demo_prompt_path)
                   then Some (js "EBUSY: resource busy or locked")
                   else None)
         (fun _ => None).

(** A fresh target tree: the agents directory is there and empty. *)
Definition fresh_tree : gmap path node :=
  list_to_map
    [(demo_project, Dir);
     (demo_bmad, Dir);
     (demo_bmad ++ [js "core"], Dir);
     (demo_bmad ++ [js "core"; js "agents"], Dir);
     (demo_source, File demo_document);
     (demo_project ++ [configDir], Dir);
     (demo_agents, Dir)].

Definition halfway_world : world := World fresh_tree halfway_faults [].

(** The demo tree with a regular file where the agents directory should
    be. *)
Definition blocked_world : world :=
  World (<[demo_agents := File []]> demo_tree) no_faults [].

(** The root of the modules cannot be listed. *)
Definition unlistable_world : world :=
  World demo_tree (Faults (fun _ => None) (fun _ => None) (fun _ => Some EACCES)) [].

(** A project without a BMAD folder. *)
Definition bare_world : world :=
  World (list_to_map [(demo_project, Dir)]) no_faults [].

(** An artifact whose compiled file is missing. *)
Definition lost_artifact : Artifact.t :=
  Artifact.mk (js "ghost") (js "core") (demo_bmad ++ [js "core"; js "agents"; js "ghost.md"])
              (js "Ghost").

(** A record without a name, for an identifier that sanitises to nothing. *)
Definition nameless_record : AgentData.t :=
  AgentData.mk [] [] robot [] [] [] (PrinciplesText []) [].

(** ** Further vocabulary *)

(** *** Installation state *)

(** The state [detectInstallation] reports for a tree: it depends on the BMAD
    folder and on the [.kiro] folder only. *)
Definition detection_of (E : Env) (projectDir : path) (w : world) : Detection.t :=
  if exists_in w (projectDir ++ [bmadFolderName E]) then
    if exists_in w (projectDir ++ [configDir])
    then Detection.mk (js "upgrade") true
    else Detection.mk (js "new") true
  else Detection.mk (js "no-bmad") false.

(** One world continues another: same tree, same failures, and a console
    that only grew. *)
Definition only_logs (w w' : world) : Prop :=
  files w' = files w /\ failures w' = failures w
  /\ exists more, console w' = console w ++ more.

(** *** Traces of an earlier installation *)

(** A project whose BMAD folder is gone while the files of an earlier
    installation are still under [.kiro]. *)
Definition stale_world : world :=
  World (list_to_map
           [(demo_project, Dir);
            (demo_project ++ [configDir], Dir);
            (demo_agents, Dir);
            (demo_agents ++ [js "bmad-core-pm.json"], File (js "{}"));
            (kiro_steering demo_project, Dir)])
        no_faults [].

(** *** Reserved prefix *)

(** What the runtime guarantees about [toLowerCase] on a text that begins
    with the reserved prefix: the prefix, already in lower case, is kept. *)
Definition lowercase_keeps_prefix (E : Env) : Prop :=
  forall s, exists s', toLowerCase E (js "bmad-" ++ s) = js "bmad-" ++ s'.

(** *** Command files *)

(** A name that [path.join] keeps as one path segment. *)
Definition plain_name (name : jsstring) : Prop := ~ In u_slash name.

(** The loop shared by the three command generators: write each file in
    turn, counting; the first write that fails ends the loop. *)
Fixpoint writeAll (writes : list (path * jsstring)) (count : nat) : M nat :=
  match writes with
  | [] => ret count
  | (p, data) :: rest => writeFile p data ;;; writeAll rest (S count)
  end.

Definition workflow_write (commandsDir : path) (artifact : WorkflowArtifact.t)
  : path * jsstring :=
  (commandPath_of commandsDir (WorkflowArtifact.name artifact),
   generateWorkflowCommandContent artifact).

Definition task_write (commandsDir : path) (task : Task.t) : path * jsstring :=
  (commandPath_of commandsDir (Task.name task), generateTaskCommandContent task).

Definition tool_write (commandsDir : path) (tool : Tool.t) : path * jsstring :=
  (commandPath_of commandsDir (Tool.name tool), generateToolCommandContent tool).

Definition is_workflow_command (artifact : WorkflowArtifact.t) : bool :=
  units_eqb (WorkflowArtifact.type artifact) (js "workflow-command").

(** A file that can be written in a world: no failure is due at its path
    and no directory is in its place. *)
Definition writable (w : world) (p : path) : Prop :=
  write_fault (failures w) p = None /\ files w !! p <> Some Dir.

(** *** What the shared generators deliver, for the examples *)

Definition demo_workflows : list WorkflowArtifact.t :=
  [WorkflowArtifact.mk (js "workflow-command") (js "plan") (js "Plan the work")
                       (js "_bmad/bmm/workflows/plan/workflow.md");
   WorkflowArtifact.mk (js "workflow-launcher") (js "launch") (js "Launch a workflow")
                       (js "_bmad/core/tasks/workflow.md")].

Definition demo_tasks : list Task.t :=
  [Task.mk (js "review") (js "Review") (js "Review a story")
           (js "_bmad/core/tasks/review.md");
   Task.mk (js "index") [] (js "Index the documents") (js "_bmad/core/tasks/index.md")].

Definition demo_tools : list Tool.t :=
  [Tool.mk (js "review") (js "Review tool") (js "_bmad/core/tools/review.md")].

Definition commands_env : Env := {|
  toLowerCase := ascii_toLowerCase;
  validate := demo_validate;
  validate_errors := demo_errors;
  stringify := demo_stringify;
  this_name := js "kiro-cli";
  bmadFolderName := js "_bmad";
  ensureDir := demo_ensureDir;
  collectAgentArtifacts := fun _ _ => ret [];
  collectWorkflowArtifacts := fun _ => ret demo_workflows;
  collectTasks := fun _ => ret demo_tasks;
  collectTools := fun _ => ret demo_tools;
  generateAll := fun _ => ret (SteeringResults.mk 0 [])
|}.

(** A project with an empty commands directory. *)
Definition commands_world : world :=
  World (list_to_map
           [(demo_project, Dir);
            (demo_project ++ [configDir], Dir);
            (demo_commands, Dir)])
        no_faults [].

(** No space is left when the command file of the review tool is written. *)
Definition full_disk_world : world :=
  World (files commands_world)
        (Faults (fun p => if bool_decide (p = demo_commands ++ [js "bmad-review.md"])
                          then Some (js "ENOSPC: no space left on device", None)
                          else None)
                (fun _ => None) (fun _ => None))
        [].

(** *** Extracted text *)

(** A text without white space at either end. *)
Definition trimmed (s : jsstring) : Prop :=
  forall c, head s = Some c \/ last s = Some c -> is_space c = false.

(** A text field as [parseCompiledAgent] extracts it: no [<] in it, and no
    white space at either end. *)
Definition plain_text (s : jsstring) : Prop :=
  Forall (fun c => c <> u_lt) s /\ trimmed s.

(** ** The earlier revision of the installer

    The functions of the earlier revision that differ from the ones above:
    validation reports [JSON.stringify(validate.errors)], the prompt
    reference is written with [./], [cleanup] sweeps the agents directory
    only and does not guard its removals, and [setup] has no handler of its
    own.  [parseCompiledAgent], [sanitizeAgentName], [generatePrompt],
    [detectInstallation] and [discoverAllModules] are the same in both. *)

Module Legacy.
Section KiroCliSetup.
Context (E : Env) (stringifyErrors : list ValidationError.t -> jsstring).

Definition validateAgentJson (agentConfig : AgentConfig.t) : result unit :=
  if validate E agentConfig then Ok tt
  else Throw (js "Invalid agent schema: "
              ++ stringifyErrors (validate_errors E agentConfig)).

Definition agentConfig_of (agentName : jsstring) (agentData : AgentData.t)
  : AgentConfig.t :=
  AgentConfig.mk
    agentName
    (AgentData.name agentData ++ js " - "
     ++ (if truthy (AgentData.role agentData) then AgentData.role agentData
         else AgentData.title agentData))
    (js "file://./" ++ agentName ++ js "-prompt.md")
    [js "*"]
    ∅
    true
    [].

Definition createAgentConfig (agentName : jsstring) (agentData : AgentData.t)
  : result AgentConfig.t :=
  let agentConfig := agentConfig_of agentName agentData in
  match validateAgentJson agentConfig with
  | Ok _ => Ok agentConfig
  | Throw e => Throw e
  end.

Definition processAgentArtifact (artifact : Artifact.t) (agentsDir projectDir : path)
  : M unit :=
  agentContent <- readFile (Artifact.sourcePath artifact) ;;
  match parseCompiledAgent agentContent artifact with
  | None => ret tt
  | Some agentData =>
      let agentName := agentName_of artifact in
      let sanitizedAgentName := sanitizeAgentName E agentName in
      let jsonPath := jsonPath_of E agentsDir artifact in
      let promptPath := promptPath_of E agentsDir artifact in
      try_catch
        (agentConfig <- lift (createAgentConfig sanitizedAgentName agentData) ;;
         let promptContent := generatePrompt agentData in
         writeFile promptPath promptContent ;;;
         writeJson E jsonPath agentConfig)
        (fun error =>
           swallow (remove promptPath) ;;;
           swallow (remove jsonPath) ;;;
           throw error)
  end.

(** The loop [for (const file of files) { if (file.startsWith('bmad')) await
    fs.remove(...) }]: a removal that fails ends the loop and the cleanup. *)
Fixpoint removePrefixed (dir : path) (files : list jsstring) : M unit :=
  match files with
  | [] => ret tt
  | file :: rest =>
      (if startsWith (js "bmad") file then remove (dir ++ [file]) else ret tt) ;;;
      removePrefixed dir rest
  end.

Definition cleanup (projectDir : path) : M unit :=
  let bmadAgentsDir := projectDir ++ [configDir; agentsDir] in
  present <- pathExists bmadAgentsDir ;;
  if present then
    files <- readdir_names bmadAgentsDir ;;
    removePrefixed bmadAgentsDir files ;;;
    log LogInfo (js "  Cleaned old BMAD agents from " ++ this_name E)
  else ret tt.

(** The loop over [agentArtifacts]; [agentCount] is its accumulator. *)
Fixpoint processAgents (agentArtifacts : list Artifact.t) (agentsDir projectDir : path)
         (agentCount : nat) : M nat :=
  match agentArtifacts with
  | [] => ret agentCount
  | artifact :: rest =>
      n <- try_catch
             (processAgentArtifact artifact agentsDir projectDir ;;;
              ret (S agentCount))
             (fun error =>
                log LogWarn (skipWarning artifact error) ;;;
                ret agentCount) ;;
      processAgents rest agentsDir projectDir n
  end.

Definition setup (projectDir bmadDir : path) : M unit :=
  log LogInfo (js "Setting up " ++ this_name E ++ js "...") ;;;
  detection <- detectInstallation E projectDir ;;
  if negb (Detection.canProceed detection) then
    log LogInfo (js "Cannot proceed: " ++ bmadFolderName E ++ js "/ folder is required.") ;;;
    log LogInfo (js "Please install BMAD first before running Kiro setup.")
  else
    cleanup projectDir ;;;
    let kiroDir := projectDir ++ [configDir] in
    let agentsDir := kiroDir ++ [agentsDir] in
    ensureDir E agentsDir ;;;
    allModules <- discoverAllModules bmadDir ;;
    log LogInfo (js "  Discovered modules: " ++ join (js ", ") allModules) ;;;
    agentArtifacts <- collectAgentArtifacts E bmadDir allModules ;;
    agentCount <- processAgents agentArtifacts agentsDir projectDir 0 ;;
    log LogInfo ([10003] ++ js " " ++ this_name E ++ js " configured with "
                 ++ decimal agentCount ++ js " BMad agents from "
                 ++ decimal (length allModules) ++ js " modules").

End KiroCliSetup.
End Legacy.

(** An installation of the earlier kind whose agent file resists removal. *)
Definition locked_world : world :=
  World (files stale_world)
        (Faults (fun _ => None)
                (fun p => if bool_decide (p = demo_agents ++ [js "bmad-core-pm.json"])
                          then Some (js "EBUSY: resource busy or locked")
                          else None)
                (fun _ => None))
        [].

(** ** The steering generator

    [KiroSteeringGenerator], which [generateSteeringFiles] drives.  Its
    constructor, [generateAll] and the file helpers are embedded here; the
    five generators, whose bodies build the documents, are taken as given,
    and so is [fs.ensureDir]. *)

Module Steering.

(** The keys of the [config] object that the constructor reads. *)
Record Config := mkConfig {
  cfg_sourceDir : option path;
  cfg_targetDir : option path;
  cfg_projectDir : option path
}.

Record t := mk {
  config : Config;
  sourceDir : path;
  targetDir : path;
  projectDir : path
}.

(** [v || d] for a directory option: [undefined] and the empty string give
    the default. *)
Definition or_else (v : option path) (d : path) : path :=
  match v with
  | Some (x :: p) => x :: p
  | _ => d
  end.

(** [new KiroSteeringGenerator(config)], run where the working directory is
    [cwd]. *)
Definition new (config : Config) (cwd : path) : t :=
  mk config
     (or_else (cfg_sourceDir config) [js "_bmad-output"; js "planning-artifacts"])
     (or_else (cfg_targetDir config) [js ".kiro"; js "steering"])
     (or_else (cfg_projectDir config) cwd).

(** [new KiroSteeringGenerator()]: the default [config] is an empty object. *)
Definition empty_config : Config := mkConfig None None None.

(** [generator.config.projectDir = projectDir], as [generateSteeringFiles]
    does before it calls [generateAll]. *)
Definition assign_projectDir (g : t) (projectDir : path) : t :=
  mk (mkConfig (cfg_sourceDir (config g)) (cfg_targetDir (config g)) (Some projectDir))
     (sourceDir g) (targetDir g) (Steering.projectDir g).

Section Generator.
Context (ensureDir : path -> M unit)
        (generateProductSteering generateTechSteering generateStructureSteering
         generateBmadIndex generateWorkflowIndex : t -> M unit).

(** The loop [for (const generator of generators) { try { await generator();
    results.generated++ } catch (error) { results.errors.push(error.message)
    } }]; [results] is the object built so far. *)
Fixpoint runGenerators (generators : list (M unit)) (results : SteeringResults.t)
  : M SteeringResults.t :=
  match generators with
  | [] => ret results
  | generator :: rest =>
      r <- try_catch
             (generator ;;;
              ret (SteeringResults.mk (S (SteeringResults.generated results))
                                      (SteeringResults.errors results)))
             (fun error =>
                ret (SteeringResults.mk (SteeringResults.generated results)
                                        (SteeringResults.errors results ++ [error]))) ;;
      runGenerators rest r
  end.

(** [results] is mutated inside the outer [try]; the loop catches whatever a
    generator throws, so the one operation that can reach the outer [catch]
    is [ensureDir], and [results] is still empty then. *)
Definition generateAll (g : t) : M SteeringResults.t :=
  try_catch
    (ensureDir (projectDir g ++ targetDir g) ;;;
     runGenerators [generateProductSteering g; generateTechSteering g;
                    generateStructureSteering g; generateBmadIndex g;
                    generateWorkflowIndex g]
                   (SteeringResults.mk 0 []))
    (fun error =>
       ret (SteeringResults.mk 0 [js "Failed to create target directory: " ++ error])).

Fixpoint _findSourceFile (g : t) (candidates : list jsstring) : M (option path) :=
  match candidates with
  | [] => ret None
  | candidate :: rest =>
      let fullPath := projectDir g ++ sourceDir g ++ [candidate] in
      present <- pathExists fullPath ;;
      if present then ret (Some (sourceDir g ++ [candidate]))
      else _findSourceFile g rest
  end.

Definition _readSourceFile (g : t) (filePath : path) : M jsstring :=
  readFile (projectDir g ++ filePath).

Definition _writeSteeringFile (g : t) (filename content : jsstring) : M unit :=
  let targetDir := projectDir g ++ targetDir g in
  ensureDir targetDir ;;;
  let targetPath := targetDir ++ [filename] in
  writeFile targetPath content ;;;
  log LogInfo ([10003] ++ js " Generated "
               ++ join [u_slash] (Steering.targetDir g ++ [filename])).

End Generator.

(** *** Goals of the product document *)

(** [s.includes(needle)] *)
Fixpoint includes (needle s : jsstring) : bool :=
  startsWith needle s
  || match s with
     | [] => false
     | _ :: s' => includes needle s'
     end.

(** [s.endsWith(suffix)] *)
Definition endsWith (suffix s : jsstring) : bool :=
  startsWith (rev suffix) (rev s).

Definition is_digit (c : N) : bool := (48 <=? c) && (c <=? 57).

(** The class [[\s\-*\d.]]. *)
Definition is_lead (c : N) : bool :=
  is_space c || (c =? 45) || (c =? 42) || is_digit c || (c =? 46).

(** [/^[\s\-*\d.]+/]; the anchor is the use of [match_here]. *)
Definition re_lead : regex := [Atom is_lead Plus false].

(** [/^\d+\./] *)
Definition re_numbered : regex := [Atom is_digit Plus false; lit 46].

(** [re.test(s)] for an anchored pattern. *)
Definition test_at_start (r : regex) (s : jsstring) : bool :=
  match match_here r s with Some _ => true | None => false end.

(** [s.replace(re, '')] for an anchored pattern without the [g] flag. *)
Definition strip_at_start (r : regex) (s : jsstring) : jsstring :=
  match match_here r s with
  | Some (_, rest) => rest
  | None => s
  end.

Section Goals.
Context (toLowerCase : jsstring -> jsstring).

Definition is_heading (line : jsstring) : bool :=
  startsWith (js "#") line || startsWith (js "**") line.

(** The [for (const line of lines)] loop of [_extractGoals], with its
    [continue] and [break]. *)
Fixpoint goals_loop (lines : list jsstring) (inGoalsSection : bool)
         (goals : list jsstring) : list jsstring :=
  match lines with
  | [] => goals
  | line :: rest =>
      if (includes (js "goal") (toLowerCase line)
          || includes (js "objective") (toLowerCase line))
         && is_heading line
      then goals_loop rest true goals
      else if inGoalsSection
              && (startsWith (js "#") line
                  || (startsWith (js "**") line && endsWith (js "**") line))
      then goals
      else if inGoalsSection
              && (startsWith (js "-") (trim line) || startsWith (js "*") (trim line)
                  || test_at_start re_numbered (trim line))
      then
        let goal := trim (strip_at_start re_lead line) in
        if truthy goal && (length goals <? 5)%nat
        then goals_loop rest inGoalsSection (goals ++ [goal])
        else goals_loop rest inGoalsSection goals
      else goals_loop rest inGoalsSection goals
  end.

Definition fallback_goals : list jsstring :=
  [js "Enhance Kiro CLI functionality and user experience";
   js "Achieve feature parity with other BMAD IDE installers";
   js "Implement efficient context management and lazy loading"].

Definition _extractGoals (lines : list jsstring) : list jsstring :=
  let goals := goals_loop lines false [] in
  if (length goals =? 0)%nat then fallback_goals else goals.

End Goals.

(** A generator does not read the [config] object. *)
Definition ignores_config (generator : t -> M unit) : Prop :=
  forall g config,
    generator (mk config (sourceDir g) (targetDir g) (projectDir g)) = generator g.

End Steering.

(** [fs.ensureDir] and five generators for the examples: the first writes a
    file, the second throws, the others find nothing to do. *)
Definition demo_generators : list (Steering.t -> M unit) :=
  [fun g => Steering._writeSteeringFile demo_ensureDir g (js "product.md") (js "# Product");
   fun _ => throw (js "architecture.md is not readable");
   fun _ => ret tt;
   fun _ => ret tt;
   fun _ => ret tt].

Definition demo_generateAll (g : Steering.t) : M SteeringResults.t :=
  Steering.generateAll demo_ensureDir
    (nth 0 demo_generators (fun _ => ret tt)) (nth 1 demo_generators (fun _ => ret tt))
    (nth 2 demo_generators (fun _ => ret tt)) (nth 3 demo_generators (fun _ => ret tt))
    (nth 4 demo_generators (fun _ => ret tt)) g.

(** A project with its [.kiro] folder and a product brief. *)
Definition steering_world : world :=
  World (list_to_map
           [(demo_project, Dir);
            (demo_project ++ [configDir], Dir);
            (demo_project ++ [js "_bmad-output"; js "planning-artifacts"], Dir);
            (demo_project ++ [js "_bmad-output"; js "planning-artifacts"; js "prd.md"],
             File (js "# PRD"))])
        no_faults [].

(** *** The steering generator as [KiroCliSetup] holds it *)

(** An environment whose steering generator is the given one. *)
Definition with_steering (E : Env) (generateAll' : path -> M SteeringResults.t) : Env := {|
  toLowerCase := toLowerCase E;
  validate := validate E;
  validate_errors := validate_errors E;
  stringify := stringify E;
  this_name := this_name E;
  bmadFolderName := bmadFolderName E;
  ensureDir := ensureDir E;
  collectAgentArtifacts := collectAgentArtifacts E;
  collectWorkflowArtifacts := collectWorkflowArtifacts E;
  collectTasks := collectTasks E;
  collectTools := collectTools E;
  generateAll := generateAll'
|}.

(** The constructor of [KiroCliSetup] builds the generator without a
    [config], in a process whose working directory is [cwd]; before each run
    [generateSteeringFiles] assigns the project directory to the [config] of
    that generator. *)
Definition kiro_generateAll
           (fsEnsureDir : path -> M unit)
           (generateProductSteering generateTechSteering generateStructureSteering
            generateBmadIndex generateWorkflowIndex : Steering.t -> M unit)
           (cwd : path) (projectDir : path) : M SteeringResults.t :=
  Steering.generateAll fsEnsureDir generateProductSteering generateTechSteering
    generateStructureSteering generateBmadIndex generateWorkflowIndex
    (Steering.assign_projectDir (Steering.new Steering.empty_config cwd) projectDir).

(** *** Frames *)

(** Two worlds that differ in the tree only, and there only at the paths
    picked out by [inside]. *)
Definition same_outside (inside : path -> Prop) (w w' : world) : Prop :=
  failures w' = failures w
  /\ console w' = console w
  /\ forall k, ~ inside k -> files w' !! k = files w !! k.

(** *** Principles given as a list *)

(** One bullet line for each principle, in the order of the list. *)
Definition bullet_list (ps : list jsstring) : jsstring :=
  concat (List.map (fun p => js "- " ++ p ++ [u_nl]) ps).

(** The content document for a record whose principles are a list: the
    section is there for every list, the empty one included. *)
Definition prompt_with_list (d : AgentData.t) (ps : list jsstring) : jsstring :=
  (js "# " ++ AgentData.name d ++ js " " ++ AgentData.icon d ++ [u_nl; u_nl])
  ++ optional_section "Role" (AgentData.role d)
  ++ optional_section "Identity" (AgentData.identity d)
  ++ optional_section "Communication Style" (AgentData.communicationStyle d)
  ++ titled_section "Principles" (bullet_list ps)
  ++ menu_section (AgentData.menuItems d)
  ++ instructions (AgentData.name d).

(** *** What cleanup counts *)

(** An entry name that [cleanup] removes and counts: it starts with the
    reserved prefix and its removal is not due to fail. *)
Definition removable_name (w : world) (dir : path) (n : jsstring) : bool :=
  startsWith (js "bmad") n
  && match remove_fault (failures w) (dir ++ [n]) with
     | None => true
     | Some _ => false
     end.

(** The number of such entries in a directory; none if it is missing. *)
Definition removable (w : world) (dir : path) : nat :=
  match files w !! dir with
  | Some Dir =>
      length (List.filter (removable_name w dir)
                          (List.map Dirent.name (entries dir (files w))))
  | _ => 0%nat
  end.

(** An environment that delivers the given tasks and tools. *)
Definition tasks_env (tasks : list Task.t) (tools : list Tool.t) : Env := {|
  toLowerCase := ascii_toLowerCase;
  validate := demo_validate;
  validate_errors := demo_errors;
  stringify := demo_stringify;
  this_name := js "kiro-cli";
  bmadFolderName := js "_bmad";
  ensureDir := demo_ensureDir;
  collectAgentArtifacts := fun _ _ => ret [];
  collectWorkflowArtifacts := fun _ => ret [];
  collectTasks := fun _ => ret tasks;
  collectTools := fun _ => ret tools;
  generateAll := fun _ => ret (SteeringResults.mk 0 [])
|}.

(** Two tasks of the same name, from two modules. *)
Definition twin_tasks : list Task.t :=
  [Task.mk (js "review") (js "Review") (js "Review a story")
           (js "_bmad/core/tasks/review.md");
   Task.mk (js "review") (js "Review code") (js "Review a change")
           (js "_bmad/bmm/tasks/review.md")].

(** Three tools; the file of the second is the one [full_disk_world] cannot
    take. *)
Definition three_tools : list Tool.t :=
  [Tool.mk (js "lint") (js "Lint the sources") (js "_bmad/core/tools/lint.md");
   Tool.mk (js "review") (js "Review tool") (js "_bmad/core/tools/review.md");
   Tool.mk (js "format") (js "Format the sources") (js "_bmad/core/tools/format.md")].

(** *** The validator as the installer compiles it *)

(** An environment whose validator is compiled from the given schema with
    the options of the installer. *)
Definition with_schema (E : Env) (schema : list Ajv.rule) : Env := {|
  toLowerCase := toLowerCase E;
  validate := Ajv.validate schema;
  validate_errors := Ajv.errors ajv_options schema;
  stringify := stringify E;
  this_name := this_name E;
  bmadFolderName := bmadFolderName E;
  ensureDir := ensureDir E;
  collectAgentArtifacts := collectAgentArtifacts E;
  collectWorkflowArtifacts := collectWorkflowArtifacts E;
  collectTasks := collectTasks E;
  collectTools := collectTools E;
  generateAll := generateAll E
|}.


(** *** Attributes of the agent tag *)

(** The tag carries an attribute named [key]: [key], the equals sign and a
    non-empty double-quoted value, where [key] begins the attribute text or
    comes right after white space, so that it is the whole name of the
    attribute and not the end of a longer one. *)
Definition attribute_named (key : string) (attrs : jsstring) : Prop :=
  exists pre value post,
    attrs = pre ++ (js key ++ js "=" ++ [u_quote]) ++ value ++ [u_quote] ++ post
    /\ value <> [] /\ Forall (fun c => c <> u_quote) value
    /\ match last pre with Some c => is_space c = true | None => True end.

(** The claim that a tag without an attribute named [icon] always gets the
    fixed glyph. *)
Definition icon_default_without_attribute : Prop :=
  forall (content : jsstring) (artifact : Artifact.t) (attrs : jsstring),
    agent_attrs content = Some attrs ->
    ~ attribute_named "icon" attrs ->
    exists d, parseCompiledAgent content artifact = Some d /\ AgentData.icon d = robot.

(** An agent tag whose one attribute is named [lexicon]. *)
Definition lexicon_attrs : jsstring := js "lexicon=" ++ [u_quote] ++ js "abc" ++ [u_quote].

Definition lexicon_document : jsstring := js "<agent " ++ lexicon_attrs ++ js ">".

(** *** Module markers *)

(** An input root with the module [core] and a directory [bmm] in which
    [agents] is a regular file, not a subdirectory. *)
Definition marker_file_world : world :=
  World (list_to_map
           [(demo_project, Dir);
            (demo_bmad, Dir);
            (demo_bmad ++ [js "core"], Dir);
            (demo_bmad ++ [js "core"; js "agents"], Dir);
            (demo_bmad ++ [js "bmm"], Dir);
            (demo_bmad ++ [js "bmm"; js "agents"], File (js "pm, analyst"))])
        no_faults [].

(** *** The stages of [setup] *)

(** The statements of the [try] block of [setup] that come before the loop
    over the agent artifacts; the value is [agentArtifacts]. *)
Definition setup_collect (E : Env) (projectDir bmadDir : path) : M (list Artifact.t) :=
  detection <- detectInstallation E projectDir ;;
  (if negb (Detection.canProceed detection) then throw (cannotProceed E) else ret tt) ;;;
  cleanup E projectDir ;;;
  let kiroDir := projectDir ++ [configDir] in
  let agentsDir := kiroDir ++ [agentsDir] in
  let commandsDir := kiroDir ++ [js "commands"] in
  ensureDir E agentsDir ;;;
  ensureDir E commandsDir ;;;
  allModules <- discoverAllModules bmadDir ;;
  log LogInfo (js "  Discovered modules: " ++ join (js ", ") allModules) ;;;
  collectAgentArtifacts E bmadDir allModules.

(** The statements of the [try] block that come after the loop, with the two
    accumulators the loop leaves. *)
Definition setup_generate (E : Env) (projectDir bmadDir : path)
           (skippedItems : list SkippedItem.t) (agentCount : nat) : M unit :=
  let kiroDir := projectDir ++ [configDir] in
  let commandsDir := kiroDir ++ [js "commands"] in
  workflowCount <- generateWorkflowCommands E bmadDir commandsDir ;;
  taskCount <- generateTaskCommands E bmadDir commandsDir ;;
  toolCount <- generateToolCommands E bmadDir commandsDir ;;
  steeringResults <- generateSteeringFiles E projectDir ;;
  displayInstallationSummary agentCount workflowCount taskCount toolCount
                             steeringResults skippedItems.

(** The [catch] block of [setup]. *)
Definition setup_failed (E : Env) (projectDir : path) (error : error) : M unit :=
  log LogError (js "Installation failed: " ++ error) ;;;
  log LogInfo (js "Cleaning up partial installation...") ;;;
  cleanup E projectDir ;;;
  throw error.

(** The world after the first line of [setup]. *)
Definition setup_started (E : Env) (w : world) : world :=
  (log LogInfo (js "Setting up " ++ this_name E ++ js "...") w).2.

(** The claim that [setup] throws only when the BMAD input root is missing,
    be it the [bmadDir] it is given or the BMAD folder of the project. *)
Definition only_missing_root_aborts : Prop :=
  forall (E : Env) (projectDir bmadDir : path) (w : world) (e : error),
    (setup E projectDir bmadDir w).1 = Throw e ->
    files w !! bmadDir = None \/ files w !! (projectDir ++ [bmadFolderName E]) = None.

(** * Properties *)

(** ** The matcher agrees with the meaning of patterns *)

Section QuantifierFacts.
Context {R : Type} (p : N -> bool) (k : jsstring -> jsstring -> option R).

Lemma greedy_sound s : forall taken r,
  greedy p k taken s = Some r ->
  exists t rest, s = t ++ rest /\ Forall (fun c => p c = true) t
                 /\ k (taken ++ t) rest = Some r.
Proof.
  induction s as [|c s IH]; intros taken r H; simpl in H.
  - exists [], []. rewrite !app_nil_r. auto.
  - destruct (p c) eqn:Hc.
    + destruct (greedy p k (taken ++ [c]) s) as [r'|] eqn:Hg.
      * injection H as <-. apply IH in Hg as (t & rest & -> & Ht & Hk).
        exists (c :: t), rest. rewrite <- app_assoc in Hk. simpl in Hk.
        split; [reflexivity|]. split; [constructor; assumption|assumption].
      * exists [], (c :: s). rewrite !app_nil_r. auto.
    + exists [], (c :: s). rewrite !app_nil_r. auto.
Qed.

Lemma greedy_complete t : forall rest taken,
  Forall (fun c => p c = true) t ->
  is_Some (k (taken ++ t) rest) ->
  is_Some (greedy p k taken (t ++ rest)).
Proof.
  induction t as [|c t IH]; intros rest taken Ht Hk.
  - rewrite app_nil_r in Hk. simpl.
    destruct rest as [|c s]; simpl; [assumption|].
    destruct (p c); [|assumption].
    destruct (greedy p k (taken ++ [c]) s); [eauto|assumption].
  - inversion Ht as [|? ? Hc Ht']; subst. simpl. rewrite Hc.
    destruct (IH rest (taken ++ [c]) Ht') as [r Hr].
    + rewrite <- app_assoc. exact Hk.
    + rewrite Hr. eauto.
Qed.

Lemma lazy_sound s : forall taken r,
  lazy p k taken s = Some r ->
  exists t rest, s = t ++ rest /\ Forall (fun c => p c = true) t
                 /\ k (taken ++ t) rest = Some r.
Proof.
  induction s as [|c s IH]; intros taken r H; simpl in H.
  - destruct (k taken []) eqn:Hk; [|discriminate].
    exists [], []. rewrite !app_nil_r. injection H as <-. auto.
  - destruct (k taken (c :: s)) eqn:Hk.
    + injection H as <-. exists [], (c :: s). rewrite !app_nil_r. auto.
    + destruct (p c) eqn:Hc; [|discriminate].
      apply IH in H as (t & rest & -> & Ht & Hk').
      exists (c :: t), rest. rewrite <- app_assoc in Hk'. simpl in Hk'.
      split; [reflexivity|]. split; [constructor; assumption|assumption].
Qed.

Lemma lazy_complete t : forall rest taken,
  Forall (fun c => p c = true) t ->
  is_Some (k (taken ++ t) rest) ->
  is_Some (lazy p k taken (t ++ rest)).
Proof.
  induction t as [|c t IH]; intros rest taken Ht Hk.
  - rewrite app_nil_r in Hk. destruct Hk as [r Hr]. simpl.
    destruct rest; simpl; rewrite Hr; eauto.
  - inversion Ht as [|? ? Hc Ht']; subst. simpl.
    destruct (k taken (c :: t ++ rest)); [eauto|]. rewrite Hc.
    apply IH; [assumption|]. rewrite <- app_assoc. exact Hk.
Qed.
End QuantifierFacts.

Lemma match_here_sound r : forall s caps rest,
  match_here r s = Some (caps, rest) ->
  exists t, s = t ++ rest /\ matches r t caps.
Proof.
  induction r as [|a r IH]; intros s caps rest H; simpl in H.
  - injection H as <- <-. exists []. split; [reflexivity|constructor].
  - set (k := fun taken rest0 : jsstring =>
                match match_here r rest0 with
                | Some (caps0, rest') =>
                    Some (if captured a then taken :: caps0 else caps0, rest')
                | None => None
                end) in H.
    assert (Hk : forall taken rest0, k taken rest0 = Some (caps, rest) ->
                 exists u caps0, rest0 = u ++ rest /\ matches r u caps0 /\
                   caps = if captured a then taken :: caps0 else caps0).
    { intros taken rest0 Hk0. unfold k in Hk0.
      destruct (match_here r rest0) as [[caps0 rest']|] eqn:Hm; [|discriminate].
      injection Hk0 as <- <-. apply IH in Hm as (u & -> & Hu). eauto. }
    destruct (quantifier a) eqn:Hq.
    + destruct s as [|c s]; [discriminate|].
      destruct (cls a c) eqn:Hc; [|discriminate].
      apply Hk in H as (u & caps0 & -> & Hu & ->).
      exists ([c] ++ u). split; [reflexivity|].
      apply matches_cons; [|assumption].
      split; [repeat constructor; assumption|]. rewrite Hq. reflexivity.
    + destruct s as [|c s]; [discriminate|].
      destruct (cls a c) eqn:Hc; [|discriminate].
      apply greedy_sound in H as (t & rest0 & -> & Ht & H).
      apply Hk in H as (u & caps0 & -> & Hu & ->).
      exists (([c] ++ t) ++ u). split; [simpl; rewrite <- app_assoc; reflexivity|].
      apply matches_cons; [|assumption].
      split; [constructor; assumption|]. rewrite Hq. discriminate.
    + apply greedy_sound in H as (t & rest0 & -> & Ht & H).
      apply Hk in H as (u & caps0 & -> & Hu & ->).
      exists (([] ++ t) ++ u). split; [simpl; rewrite <- app_assoc; reflexivity|].
      apply matches_cons; [|assumption].
      split; [assumption|]. rewrite Hq. exact I.
    + apply lazy_sound in H as (t & rest0 & -> & Ht & H).
      apply Hk in H as (u & caps0 & -> & Hu & ->).
      exists (([] ++ t) ++ u). split; [simpl; rewrite <- app_assoc; reflexivity|].
      apply matches_cons; [|assumption].
      split; [assumption|]. rewrite Hq. exact I.
Qed.

Lemma match_here_complete r t caps :
  matches r t caps -> forall rest, is_Some (match_here r (t ++ rest)).
Proof.
  induction 1 as [|a r t u caps [Ht Hq] Hm IH]; intros rest; simpl; [eauto|].
  set (k := fun taken rest0 : jsstring =>
              match match_here r rest0 with
              | Some (caps0, rest') =>
                  Some (if captured a then taken :: caps0 else caps0, rest')
              | None => None
              end).
  assert (Hk : forall taken, is_Some (k taken (u ++ rest))).
  { intros taken. unfold k. destruct (IH rest) as [[caps0 rest'] ->]. eauto. }
  rewrite <- app_assoc.
  destruct (quantifier a).
  - destruct t as [|c [|? ?]]; try discriminate. simpl.
    inversion Ht; subst. rewrite H1. apply Hk.
  - destruct t as [|c t]; [congruence|]. simpl.
    inversion Ht; subst. rewrite H1.
    apply greedy_complete; [assumption|apply Hk].
  - apply (greedy_complete _ _ t (u ++ rest) []); [assumption|apply Hk].
  - apply (lazy_complete _ _ t (u ++ rest) []); [assumption|apply Hk].
Qed.

Lemma search_sound r s : forall pre pre' caps rest,
  search r pre s = Some (pre', caps, rest) ->
  exists skipped t, s = skipped ++ t ++ rest /\ pre' = pre ++ skipped
                    /\ matches r t caps.
Proof.
  induction s as [|c s IH]; intros pre pre' caps rest H; simpl in H.
  - destruct (match_here r []) as [[caps0 rest0]|] eqn:Hm; [|discriminate].
    injection H as <- <- <-. apply match_here_sound in Hm as (t & Hs & Ht).
    exists [], t. rewrite app_nil_r. auto.
  - destruct (match_here r (c :: s)) as [[caps0 rest0]|] eqn:Hm.
    + injection H as <- <- <-. apply match_here_sound in Hm as (t & Hs & Ht).
      exists [], t. rewrite app_nil_r. auto.
    + apply IH in H as (skipped & t & -> & -> & Ht).
      exists (c :: skipped), t. rewrite <- app_assoc. auto.
Qed.

Lemma search_complete r s : forall pre,
  occurs r s -> is_Some (search r pre s).
Proof.
  induction s as [|c s IH]; intros pre (skipped & t & post & caps & Hs & Hm).
  - destruct skipped; [|discriminate]. simpl in Hs.
    destruct (match_here_complete _ _ _ Hm post) as [[caps0 rest0] Hr].
    rewrite <- Hs in Hr. simpl. rewrite Hr. eauto.
  - simpl. destruct (match_here r (c :: s)) as [[caps0 rest0]|] eqn:Hh; [eauto|].
    destruct skipped as [|c' skipped].
    + simpl in Hs. destruct (match_here_complete _ _ _ Hm post) as [x Hx].
      rewrite <- Hs in Hx. congruence.
    + injection Hs as <- ->. apply IH. exists skipped, t, post, caps. auto.
Qed.

(** [s.match(r)] is [null] exactly when [r] matches nowhere in [s]. *)
Lemma js_match_None r s : js_match r s = None <-> ~ occurs r s.
Proof.
  unfold js_match. split.
  - intros H Hocc. destruct (search_complete r s [] Hocc) as [[[pre caps] rest] Hx].
    rewrite Hx in H. discriminate.
  - intros H. destruct (search r [] s) as [[[pre caps] rest]|] eqn:Hx; [|reflexivity].
    exfalso. apply H. apply search_sound in Hx as (skipped & t & -> & _ & Ht).
    exists skipped, t, rest, caps. auto.
Qed.

Lemma js_match_Some r s caps :
  js_match r s = Some caps ->
  exists pre t post, s = pre ++ t ++ post /\ matches r t caps.
Proof.
  unfold js_match. intros H.
  destruct (search r [] s) as [[[pre caps0] rest]|] eqn:Hx; [|discriminate].
  injection H as <-. apply search_sound in Hx as (skipped & t & -> & _ & Ht).
  eauto.
Qed.

(** ** Global replacement *)

Lemma search_pre r s : forall pre,
  search r pre s =
  match search r [] s with
  | Some (p, caps, rest) => Some (pre ++ p, caps, rest)
  | None => None
  end.
Proof.
  induction s as [|c s IH]; intros pre; simpl.
  - destruct (match_here r []) as [[caps rest]|]; [rewrite app_nil_r|]; reflexivity.
  - destruct (match_here r (c :: s)) as [[caps rest]|].
    + rewrite app_nil_r. reflexivity.
    + rewrite (IH (pre ++ [c])), (IH [c]).
      destruct (search r [] s) as [[[p caps] rest]|]; [|reflexivity].
      rewrite <- app_assoc. reflexivity.
Qed.

(** A unit at which the pattern does not match is copied to the output. *)
Lemma replace_go_skip fuel r repl c s :
  match_here r (c :: s) = None ->
  replace_go (S fuel) r repl (c :: s) = c :: replace_go (S fuel) r repl s.
Proof.
  intros Hm. cbn [replace_go search]. rewrite Hm. rewrite search_pre.
  destruct (search r [] s) as [[[p caps] rest]|]; [|reflexivity].
  cbn [app length].
  replace (S (length p) + length rest <? S (length s))%nat
    with (length p + length rest <? length s)%nat
    by (destruct (Nat.ltb_spec (length p + length rest) (length s));
        destruct (Nat.ltb_spec (S (length p) + length rest) (S (length s)));
        (reflexivity || lia)).
  destruct (length p + length rest <? length s)%nat; [reflexivity|].
  destruct rest; reflexivity.
Qed.

Lemma trimStart_length s : (length (trimStart s) <= length s)%nat.
Proof.
  induction s as [|c s IH]; simpl; [lia|]. destruct (is_space c); simpl; lia.
Qed.

Lemma greedy_spaces s : forall taken,
  greedy is_space (fun _ rest => Some (@nil jsstring, rest)) taken s
  = Some ([], trimStart s).
Proof.
  induction s as [|c s IH]; intros taken; simpl; [reflexivity|].
  destruct (is_space c); [rewrite IH|]; reflexivity.
Qed.

Lemma match_here_spaces s :
  match_here re_spaces s =
  match s with
  | c :: s' => if is_space c then Some ([], trimStart s') else None
  | [] => None
  end.
Proof.
  destruct s as [|c s]; [reflexivity|]. cbn. destruct (is_space c); [|reflexivity].
  apply greedy_spaces.
Qed.

Lemma collapse_scan_run s :
  collapse_scan true s = collapse_scan false (trimStart s).
Proof.
  induction s as [|c s IH]; simpl; [reflexivity|].
  destruct (is_space c) eqn:Hc; [assumption|]. simpl. rewrite Hc. reflexivity.
Qed.

Lemma replace_spaces_scan fuel : forall s,
  (length s < fuel)%nat ->
  replace_go fuel re_spaces (js "-") s = collapse_scan false s.
Proof.
  induction fuel as [|fuel IH]; intros s Hlen; [lia|].
  induction s as [|c s IHs].
  - reflexivity.
  - destruct (is_space c) eqn:Hc.
    + cbn [replace_go search]. rewrite match_here_spaces, Hc.
      pose proof (trimStart_length s) as Hle. cbn [length] in *.
      replace (0 + length (trimStart s) <? S (length s))%nat with true
        by (symmetry; apply Nat.ltb_lt; lia).
      rewrite IH by lia. simpl. rewrite Hc, collapse_scan_run. reflexivity.
    + rewrite replace_go_skip by (rewrite match_here_spaces, Hc; reflexivity).
      rewrite IHs by (cbn [length] in Hlen; lia). simpl. rewrite Hc. reflexivity.
Qed.

Lemma replace_unsafe_filter fuel : forall s,
  (length s < fuel)%nat ->
  replace_go fuel re_unsafe [] s = List.filter is_safe s.
Proof.
  induction fuel as [|fuel IH]; intros s Hlen; [lia|].
  induction s as [|c s IHs].
  - reflexivity.
  - cbn [length] in Hlen. destruct (is_safe c) eqn:Hc.
    + rewrite replace_go_skip by (cbn; rewrite Hc; reflexivity).
      rewrite IHs by lia. simpl. rewrite Hc. reflexivity.
    + cbn [replace_go search]. cbn [match_here re_unsafe cls quantifier captured].
      rewrite Hc. cbn [negb length app].
      replace (0 + length s <? S (length s))%nat with true
        by (symmetry; apply Nat.ltb_lt; lia).
      rewrite IH by lia. simpl. rewrite Hc. reflexivity.
Qed.

(** The scan and the run-by-run reading of the collapse agree. *)
Lemma collapse_scan_runs s :
  collapse_scan false s = collapse_runs s /\
  collapse_scan true s =
    match runs s with
    | (true, _) :: rs => concat (List.map hyphen_for_spaces rs)
    | _ => collapse_runs s
    end.
Proof.
  unfold collapse_runs. induction s as [|c s [IHf IHt]]; [split; reflexivity|].
  simpl. destruct (is_space c) eqn:Hc.
  - rewrite IHt. destruct (runs s) as [|[[|] r] rs]; simpl; split; reflexivity.
  - rewrite IHf. destruct (runs s) as [|[[|] r] rs]; simpl; split; reflexivity.
Qed.

Lemma runs_concat s : concat (List.map snd (runs s)) = s.
Proof.
  induction s as [|c s IH]; [reflexivity|]. simpl.
  destruct (runs s) as [|[b r] rs]; simpl in *.
  - subst. reflexivity.
  - destruct (eqb b (is_space c)); simpl; rewrite IH; reflexivity.
Qed.

(** Every run is non-empty and of one kind, and no two neighbours are of the
    same kind: the runs are maximal. *)
Lemma runs_maximal s :
  Forall (fun run => run.2 <> [] /\ Forall (fun c => is_space c = run.1) run.2) (runs s)
  /\ alternating (runs s).
Proof.
  induction s as [|c s [IH1 IH2]]; [split; [constructor|exact I]|]. simpl.
  destruct (runs s) as [|[b r] rs].
  - split; [|exact I]. repeat constructor. discriminate.
  - destruct (eqb b (is_space c)) eqn:Hb.
    + apply eqb_prop in Hb. inversion IH1 as [|? ? [Hne Hall] Hrest]; subst.
      split.
      * constructor; [|assumption]. simpl in *. split; [discriminate|].
        constructor; [reflexivity|assumption].
      * destruct rs; [exact I|]. exact IH2.
    + apply eqb_false_iff in Hb. split.
      * constructor; [|assumption]. simpl. split; [discriminate|].
        repeat constructor.
      * split; [simpl; congruence|exact IH2].
Qed.

(** The rounds given to the two loops are enough: more fuel changes
    nothing. *)
Lemma replace_go_fuel r repl : forall fuel1 fuel2 s,
  (length s < fuel1)%nat -> (length s < fuel2)%nat ->
  replace_go fuel1 r repl s = replace_go fuel2 r repl s.
Proof.
  induction fuel1 as [|fuel1 IH]; intros fuel2 s H1 H2; [lia|].
  destruct fuel2 as [|fuel2]; [lia|]. cbn [replace_go].
  destruct (search r [] s) as [[[pre caps] rest]|] eqn:Hs; [|reflexivity].
  apply search_sound in Hs as (skipped & t & -> & -> & Hm).
  rewrite !length_app in *. cbn [app].
  match goal with |- context [(?a <? ?b)%nat] => destruct (Nat.ltb_spec a b) end.
  - do 2 f_equal. cbn [length] in *. apply IH; lia.
  - destruct rest as [|c rest]; [reflexivity|]. do 3 f_equal.
    cbn [length] in *. apply IH; lia.
Qed.

Lemma exec_go_fuel r :
  (forall t caps, matches r t caps -> t <> []) ->
  forall fuel1 fuel2 s,
    (length s < fuel1)%nat -> (length s < fuel2)%nat ->
    exec_go fuel1 r s = exec_go fuel2 r s.
Proof.
  intros Hprogress. induction fuel1 as [|fuel1 IH]; intros fuel2 s H1 H2; [lia|].
  destruct fuel2 as [|fuel2]; [lia|]. cbn [exec_go].
  destruct (search r [] s) as [[[pre caps] rest]|] eqn:Hs; [|reflexivity].
  apply search_sound in Hs as (skipped & t & -> & -> & Hm).
  pose proof (Hprogress _ _ Hm) as Hne. destruct t as [|c t]; [contradiction|].
  rewrite !length_app in *. cbn [length] in *. f_equal. apply IH; lia.
Qed.

(** ** Identifier sanitisation *)

Lemma filter_safe_Forall s : Forall (fun c => is_safe c = true) (List.filter is_safe s).
Proof.
  induction s as [|c s IH]; simpl; [constructor|].
  destruct (is_safe c) eqn:Hc; [constructor|]; assumption.
Qed.

Lemma filter_safe_id s :
  Forall (fun c => is_safe c = true) s -> List.filter is_safe s = s.
Proof.
  induction 1 as [|c s Hc _ IH]; simpl; [reflexivity|]. rewrite Hc, IH. reflexivity.
Qed.

Lemma safe_not_space c : is_safe c = true -> is_space c = false.
Proof.
  unfold is_safe, is_space. intros H. apply not_true_iff_false.
  rewrite !orb_true_iff, !andb_true_iff, !N.leb_le, !N.eqb_eq in *. lia.
Qed.

Lemma collapse_scan_id s :
  Forall (fun c => is_safe c = true) s -> collapse_scan false s = s.
Proof.
  induction 1 as [|c s Hc _ IH]; simpl; [reflexivity|].
  rewrite (safe_not_space c Hc), IH. reflexivity.
Qed.

Lemma sanitizeAgentName_unfold E x :
  sanitizeAgentName E x = sanitize_spec E x.
Proof.
  unfold sanitizeAgentName, sanitize_spec, replaceAll.
  rewrite replace_unsafe_filter by lia. rewrite replace_spaces_scan by lia.
  rewrite (proj1 (collapse_scan_runs _)). reflexivity.
Qed.

Lemma sanitizeAgentName_safe E x :
  Forall (fun c => is_safe c = true) (sanitizeAgentName E x).
Proof. rewrite sanitizeAgentName_unfold. apply filter_safe_Forall. Qed.

Lemma ascii_toLowerCase_fixes_safe s :
  Forall (fun c => is_safe c = true) s -> ascii_toLowerCase s = s.
Proof.
  induction 1 as [|c s Hc _ IH]; [reflexivity|].
  unfold ascii_toLowerCase in *. cbn [List.map]. rewrite IH.
  replace ((65 <=? c) && (c <=? 90)) with false; [reflexivity|].
  symmetry. apply not_true_iff_false. unfold is_safe in Hc.
  rewrite !orb_true_iff, !andb_true_iff, !N.leb_le, !N.eqb_eq in *. lia.
Qed.

(** C2.  [sanitizeAgentName] is the composition the specification describes:
    lower-case the input, replace every maximal whitespace run with a single
    hyphen, then delete every code unit outside [[a-z0-9-]].  Its result
    therefore matches [[a-z0-9-]*], and, the runtime's [toLowerCase] leaving
    such a text alone, sanitising twice is the same as sanitising once. *)
Theorem sanitizeAgentName_composition_idempotent (E : Env) (x : jsstring) :
  lowercase_fixes_safe E ->
  sanitizeAgentName E x = sanitize_spec E x
  /\ Forall (fun c => is_safe c = true) (sanitizeAgentName E x)
  /\ matches re_safe_star (sanitizeAgentName E x) []
  /\ sanitizeAgentName E (sanitizeAgentName E x) = sanitizeAgentName E x.
Proof.
  intros Hlower. pose proof (sanitizeAgentName_safe E x) as Hsafe.
  split; [apply sanitizeAgentName_unfold|]. split; [assumption|]. split.
  - rewrite <- (app_nil_r (sanitizeAgentName E x)).
    apply (matches_cons (Atom is_safe Star false) [] _ [] []); [|constructor].
    split; [assumption|exact I].
  - rewrite (sanitizeAgentName_unfold E (sanitizeAgentName E x)).
    unfold sanitize_spec. rewrite (Hlower _ Hsafe).
    rewrite <- (proj1 (collapse_scan_runs _)).
    rewrite (collapse_scan_id _ Hsafe). apply filter_safe_id, Hsafe.
Qed.

(** ** Reading patterns off a text *)

Lemma matches_nil_inv t caps : matches [] t caps -> t = [] /\ caps = [].
Proof. inversion 1; auto. Qed.

Lemma matches_cons_inv a r t caps :
  matches (a :: r) t caps ->
  exists t1 u caps', t = t1 ++ u /\ atom_matches a t1 /\ matches r u caps'
                     /\ caps = if captured a then t1 :: caps' else caps'.
Proof. inversion 1; subst. eauto 8. Qed.

Lemma atom_matches_lit c t : atom_matches (lit c) t <-> t = [c].
Proof.
  unfold atom_matches, lit, is_unit. simpl. split.
  - intros [Hall Hlen]. destruct t as [|x [|? ?]]; try discriminate.
    inversion Hall as [|? ? Hx _]; subst. apply N.eqb_eq in Hx. congruence.
  - intros ->. split; [|reflexivity]. repeat constructor. apply N.eqb_refl.
Qed.

Lemma matches_lit_units_intro l r u caps :
  matches r u caps -> matches (lit_units l ++ r) (l ++ u) caps.
Proof.
  intros H. induction l as [|c l IH]; [exact H|]. simpl.
  apply (matches_cons (lit c) _ [c] (l ++ u) caps); [|exact IH].
  apply atom_matches_lit. reflexivity.
Qed.

Lemma matches_lit_units_elim l r : forall t caps,
  matches (lit_units l ++ r) t caps ->
  exists u, t = l ++ u /\ matches r u caps.
Proof.
  induction l as [|c l IH]; intros t caps H; [eauto|].
  simpl in H. apply matches_cons_inv in H as (t1 & u & caps' & -> & Ha & Hm & ->).
  apply atom_matches_lit in Ha as ->. simpl.
  apply IH in Hm as (u' & -> & Hm). eauto.
Qed.

Lemma matches_lits_intro s r u caps :
  matches r u caps -> matches (lits s ++ r) (js s ++ u) caps.
Proof. apply matches_lit_units_intro. Qed.

Lemma matches_lits_elim s r t caps :
  matches (lits s ++ r) t caps -> exists u, t = js s ++ u /\ matches r u caps.
Proof. apply matches_lit_units_elim. Qed.

Lemma matches_lits_only s t caps :
  matches (lits s) t caps <-> t = js s /\ caps = [].
Proof.
  split.
  - intros H. rewrite <- (app_nil_r (lits s)) in H.
    apply matches_lits_elim in H as (u & -> & Hu).
    apply matches_nil_inv in Hu as [-> ->]. rewrite app_nil_r. auto.
  - intros [-> ->]. rewrite <- (app_nil_r (lits s)), <- (app_nil_r (js s)).
    apply matches_lits_intro. constructor.
Qed.

Lemma not_unit_true a c : not_unit a c = true <-> c <> a.
Proof.
  unfold not_unit. rewrite negb_true_iff, N.eqb_neq. reflexivity.
Qed.

Lemma Forall_not_unit a t :
  Forall (fun c => not_unit a c = true) t <-> Forall (fun c => c <> a) t.
Proof. apply Forall_iff. intros c. apply not_unit_true. Qed.

(** The agent pattern matches exactly the opening tags with attributes, and
    its group is the attribute text. *)
Lemma matches_re_agent t caps :
  matches re_agent t caps <->
  exists ws attrs,
    t = js "<agent" ++ ws ++ attrs ++ [u_gt]
    /\ ws <> [] /\ Forall (fun c => is_space c = true) ws
    /\ attrs <> [] /\ Forall (fun c => c <> u_gt) attrs
    /\ caps = [attrs].
Proof.
  unfold re_agent. split.
  - intros H. apply matches_lits_elim in H as (u & -> & H).
    apply matches_cons_inv in H as (ws & u1 & caps1 & -> & [Hws Hne] & H & ->).
    apply matches_cons_inv in H as (attrs & u2 & caps2 & -> & [Hat Hne'] & H & ->).
    apply (matches_lits_only ">") in H as [-> ->]. simpl in *.
    exists ws, attrs. rewrite Forall_not_unit in Hat. auto 10.
  - intros (ws & attrs & -> & Hne & Hws & Hne' & Hat & ->).
    apply matches_lits_intro.
    apply (matches_cons (Atom is_space Plus false) _ ws _ [attrs]); [split; assumption|].
    apply (matches_cons (Atom (not_unit u_gt) Plus true) _ attrs _ []).
    + split; [apply Forall_not_unit|]; assumption.
    + apply (matches_lits_only ">"). auto.
Qed.

Lemma occurs_re_agent content : occurs re_agent content <-> has_agent_tag content.
Proof.
  unfold occurs, has_agent_tag. split.
  - intros (pre & t & post & caps & -> & H).
    apply matches_re_agent in H as (ws & attrs & -> & H1 & H2 & H3 & H4 & _).
    exists pre, ws, attrs, post. rewrite <- !app_assoc. auto.
  - intros (pre & ws & attrs & post & -> & H1 & H2 & H3 & H4).
    exists pre, (js "<agent" ++ ws ++ attrs ++ [u_gt]), post, [attrs].
    split; [rewrite <- !app_assoc; reflexivity|].
    apply matches_re_agent. eauto 10.
Qed.

Lemma matches_re_block tag t caps :
  matches (re_block tag) t caps <->
  exists body,
    t = (js "<" ++ js tag ++ js ">") ++ body ++ (js "</" ++ js tag ++ js ">")
    /\ caps = [body].
Proof.
  unfold re_block. split.
  - intros H. apply matches_lits_elim in H as (u & -> & H).
    apply matches_lits_elim in H as (u1 & -> & H).
    apply matches_lits_elim in H as (u2 & -> & H).
    apply matches_cons_inv in H as (body & u3 & caps3 & -> & _ & H & ->).
    apply matches_lits_elim in H as (u4 & -> & H).
    apply matches_lits_elim in H as (u5 & -> & H).
    apply matches_lits_only in H as [-> ->]. simpl captured.
    exists body. rewrite <- !app_assoc. auto.
  - intros (body & -> & ->). rewrite <- !app_assoc.
    do 3 apply matches_lits_intro.
    apply (matches_cons (Atom any_unit LazyStar true) _ body _ []).
    + split; [|exact I]. apply Forall_forall. reflexivity.
    + do 2 apply matches_lits_intro. apply matches_lits_only. auto.
Qed.

Lemma occurs_re_block tag content :
  occurs (re_block tag) content <-> has_block tag content.
Proof.
  unfold occurs, has_block. split.
  - intros (pre & t & post & caps & -> & H).
    apply matches_re_block in H as (body & -> & _).
    exists pre, body, post. rewrite <- !app_assoc. reflexivity.
  - intros (pre & body & post & ->).
    exists pre, ((js "<" ++ js tag ++ js ">") ++ body ++ (js "</" ++ js tag ++ js ">")),
           post, [body].
    split; [rewrite <- !app_assoc; reflexivity|].
    apply matches_re_block. eauto.
Qed.

Lemma matches_re_attr key t caps :
  matches (re_attr key) t caps <->
  exists value,
    t = (js key ++ js "=" ++ [u_quote]) ++ value ++ [u_quote]
    /\ value <> [] /\ Forall (fun c => c <> u_quote) value
    /\ caps = [value].
Proof.
  unfold re_attr. split.
  - intros H. apply matches_lits_elim in H as (u & -> & H).
    apply matches_lits_elim in H as (u1 & -> & H).
    apply matches_cons_inv in H as (q1 & u2 & caps2 & -> & Hq1 & H & ->).
    apply atom_matches_lit in Hq1 as ->.
    apply matches_cons_inv in H as (value & u3 & caps3 & -> & [Hv Hne] & H & ->).
    apply matches_cons_inv in H as (q2 & u4 & caps4 & -> & Hq2 & H & ->).
    apply atom_matches_lit in Hq2 as ->.
    apply matches_nil_inv in H as [-> ->]. simpl in *.
    exists value. rewrite Forall_not_unit in Hv. rewrite <- !app_assoc. auto.
  - intros (value & -> & Hne & Hv & ->). rewrite <- !app_assoc.
    do 2 apply matches_lits_intro.
    apply (matches_cons (lit u_quote) _ [u_quote] _ [value]);
      [apply atom_matches_lit; reflexivity|].
    apply (matches_cons (Atom (not_unit u_quote) Plus true) _ value _ []).
    + split; [apply Forall_not_unit|]; assumption.
    + rewrite <- (app_nil_r [u_quote]).
      apply (matches_cons (lit u_quote) _ [u_quote] [] []);
        [apply atom_matches_lit; reflexivity|constructor].
Qed.

Lemma occurs_re_attr key attrs : occurs (re_attr key) attrs <-> has_attr key attrs.
Proof.
  unfold occurs, has_attr. split.
  - intros (pre & t & post & caps & -> & H).
    apply matches_re_attr in H as (value & -> & Hne & Hv & _).
    exists pre, value, post. rewrite <- !app_assoc. auto.
  - intros (pre & value & post & -> & Hne & Hv).
    exists pre, ((js key ++ js "=" ++ [u_quote]) ++ value ++ [u_quote]), post, [value].
    split; [rewrite <- !app_assoc; reflexivity|].
    apply matches_re_attr. eauto.
Qed.

(** ** Tag extractor *)

Lemma js_match_absent r s : ~ occurs r s -> js_match r s = None.
Proof. apply js_match_None. Qed.

Lemma agent_attrs_None content :
  agent_attrs content = None <-> ~ has_agent_tag content.
Proof.
  unfold agent_attrs. rewrite <- occurs_re_agent, <- js_match_None.
  destruct (js_match re_agent content); split; congruence.
Qed.

(** The attribute text is the one of an opening agent tag of the document. *)
Lemma agent_attrs_Some content attrs :
  agent_attrs content = Some attrs ->
  exists pre ws post,
    content = pre ++ js "<agent" ++ ws ++ attrs ++ [u_gt] ++ post
    /\ ws <> [] /\ Forall (fun c => is_space c = true) ws
    /\ attrs <> [] /\ Forall (fun c => c <> u_gt) attrs.
Proof.
  unfold agent_attrs. intros H.
  destruct (js_match re_agent content) as [m|] eqn:Hm; [|discriminate].
  injection H as <-.
  apply js_match_Some in Hm as (pre & t & post & -> & Ht).
  apply matches_re_agent in Ht as (ws & attrs & -> & H1 & H2 & H3 & H4 & ->).
  exists pre, ws, post. rewrite <- !app_assoc. auto.
Qed.

Lemma parseCompiledAgent_Some content artifact :
  forall attrs, agent_attrs content = Some attrs ->
  parseCompiledAgent content artifact =
  Some (AgentData.mk
          (match js_match (re_attr "name") attrs with
           | Some m => group 1 m | None => Artifact.name artifact end)
          (match js_match (re_attr "title") attrs with
           | Some m => group 1 m | None => Artifact.description artifact end)
          (match js_match (re_attr "icon") attrs with
           | Some m => group 1 m | None => robot end)
          (persona_field "role" (js_match (re_block "persona") content))
          (persona_field "identity" (js_match (re_block "persona") content))
          (persona_field "communication_style" (js_match (re_block "persona") content))
          (PrinciplesText
             (persona_field "principles" (js_match (re_block "persona") content)))
          (menu_of content)).
Proof.
  unfold agent_attrs, parseCompiledAgent. intros attrs H.
  destruct (js_match re_agent content); [|discriminate].
  injection H as <-. reflexivity.
Qed.

Lemma parseCompiledAgent_None content artifact :
  parseCompiledAgent content artifact = None <-> agent_attrs content = None.
Proof.
  unfold agent_attrs, parseCompiledAgent.
  destruct (js_match re_agent content); split; congruence.
Qed.

(** A matched attribute yields the quoted value that stands in the text. *)
Lemma attribute_value key attrs m :
  js_match (re_attr key) attrs = Some m ->
  exists pre post,
    attrs = pre ++ (js key ++ js "=" ++ [u_quote]) ++ group 1 m ++ [u_quote] ++ post
    /\ group 1 m <> [].
Proof.
  intros H. apply js_match_Some in H as (pre & t & post & -> & Ht).
  apply matches_re_attr in Ht as (value & -> & Hne & _ & ->).
  exists pre, post. rewrite <- !app_assoc. auto.
Qed.


(** C3.  [parseCompiledAgent] answers [null] exactly when the text has no
    opening agent tag with attributes.  With the tag present and no persona
    block, it still returns a record, whose role, identity, communication
    style and principles are the empty string and whose name is still read
    from the [name] attribute when there is one; and without a menu block the
    menu of the record is empty.  The function is total and has no failure
    outcome besides [null]. *)
Theorem parseCompiledAgent_absences (content : jsstring) (artifact : Artifact.t) :
  (parseCompiledAgent content artifact = None <-> ~ has_agent_tag content)
  /\ (has_agent_tag content -> ~ has_block "persona" content ->
      exists d, parseCompiledAgent content artifact = Some d
                /\ AgentData.role d = []
                /\ AgentData.identity d = []
                /\ AgentData.communicationStyle d = []
                /\ AgentData.principles d = PrinciplesText []
                /\ (forall attrs,
                      agent_attrs content = Some attrs -> has_attr "name" attrs ->
                      exists pre post,
                        attrs = pre ++ (js "name" ++ js "=" ++ [u_quote])
                                ++ AgentData.name d ++ [u_quote] ++ post))
  /\ (has_agent_tag content -> ~ has_block "menu" content ->
      exists d, parseCompiledAgent content artifact = Some d
                /\ AgentData.menuItems d = []).
Proof.
  split; [rewrite parseCompiledAgent_None; apply agent_attrs_None|].
  split.
  - intros Htag Hpersona.
    destruct (agent_attrs content) as [attrs|] eqn:Ha;
      [|apply agent_attrs_None in Ha; contradiction].
    rewrite (parseCompiledAgent_Some _ _ _ Ha).
    rewrite <- occurs_re_block in Hpersona. apply js_match_absent in Hpersona.
    rewrite Hpersona. eexists. split; [reflexivity|]. cbn [persona_field].
    cbn [AgentData.role AgentData.identity AgentData.communicationStyle
         AgentData.principles AgentData.name].
    do 4 (split; [reflexivity|]).
    intros attrs' Ha' Hname. assert (attrs' = attrs) as -> by congruence.
    destruct (js_match (re_attr "name") attrs) as [m|] eqn:Hm.
    + destruct (attribute_value _ _ _ Hm) as (pre & post & Heq & _). eauto.
    + apply js_match_None in Hm. exfalso. apply Hm, occurs_re_attr, Hname.
  - intros Htag Hmenu.
    destruct (agent_attrs content) as [attrs|] eqn:Ha;
      [|apply agent_attrs_None in Ha; contradiction].
    rewrite (parseCompiledAgent_Some _ _ _ Ha).
    rewrite <- occurs_re_block in Hmenu. apply js_match_absent in Hmenu.
    eexists. split; [reflexivity|]. simpl. unfold menu_of. rewrite Hmenu. reflexivity.
Qed.

(** C10.  When the attribute text of the agent tag has no occurrence of
    [icon=] followed by a non-empty double-quoted value, be it an attribute
    of its own or the end of a longer attribute name, the record's icon is
    the fixed robot glyph, whatever the caller passed; without such an
    occurrence for [name] the name falls back to the artifact's name, and
    without one for [title] the title falls back to the artifact's
    description. *)
Theorem parseCompiledAgent_icon_default
        (content : jsstring) (artifact : Artifact.t) (attrs : jsstring) :
  agent_attrs content = Some attrs ->
  ~ has_attr "icon" attrs ->
  exists d, parseCompiledAgent content artifact = Some d
            /\ AgentData.icon d = robot
            /\ (~ has_attr "name" attrs -> AgentData.name d = Artifact.name artifact)
            /\ (~ has_attr "title" attrs ->
                AgentData.title d = Artifact.description artifact).
Proof.
  intros Ha Hicon. rewrite (parseCompiledAgent_Some _ _ _ Ha).
  eexists. split; [reflexivity|]. simpl.
  rewrite <- occurs_re_attr in Hicon. apply js_match_absent in Hicon.
  rewrite Hicon. split; [reflexivity|]. split; intros H;
    rewrite <- occurs_re_attr in H; apply js_match_absent in H; rewrite H; reflexivity.
Qed.

(** ** Record-to-document formatter *)

Lemma menu_lines_imap items : forall i prompt,
  menu_lines i items prompt
  = prompt ++ concat (imap (fun j item => menu_line (i + j) item) items).
Proof.
  induction items as [|item items IH]; intros i prompt; simpl.
  - rewrite app_nil_r. reflexivity.
  - rewrite IH, <- app_assoc. rewrite Nat.add_0_r. do 3 f_equal.
    apply imap_ext. intros j x _. simpl. f_equal. lia.
Qed.

Lemma menu_lines_numbered items prompt :
  menu_lines 0 items prompt = prompt ++ numbered_menu items.
Proof. apply menu_lines_imap. Qed.




Lemma optional_step (heading_line : jsstring) (heading : string) field prompt :
  heading_line = js "## " ++ js heading ->
  (if truthy field then prompt ++ heading_line ++ [u_nl] ++ field ++ [u_nl; u_nl]
   else prompt)
  = prompt ++ optional_section heading field.
Proof.
  intros ->. destruct field as [|c field]; cbn [truthy optional_section].
  - rewrite app_nil_r. reflexivity.
  - unfold titled_section. rewrite <- !app_assoc. reflexivity.
Qed.


Lemma menu_step (heading_line : jsstring) items prompt :
  heading_line = js "## " ++ js "Available Workflows" ->
  (if (0 <? length items)%nat
   then menu_lines 0 items (prompt ++ heading_line ++ [u_nl]) ++ [u_nl]
   else prompt)
  = prompt ++ menu_section items.
Proof.
  intros ->. destruct items as [|item items].
  - cbn [length Nat.ltb Nat.leb menu_section]. rewrite app_nil_r. reflexivity.
  - change (0 <? length (item :: items))%nat with true. cbv iota.
    rewrite menu_lines_numbered. unfold menu_section, titled_section.
    rewrite <- !app_assoc. reflexivity.
Qed.



(** ** Record-to-config formatter *)

Lemma split_on_no_sep sep s : forall cur,
  Forall (fun c => c <> sep) s -> split_on sep cur s = [cur ++ s].
Proof.
  induction s as [|c s IH]; intros cur Hs; simpl.
  - rewrite app_nil_r. reflexivity.
  - inversion Hs as [|? ? Hc Hs']; subst.
    destruct (N.eqb_spec c sep) as [->|_]; [contradiction|].
    rewrite IH by assumption. rewrite <- app_assoc. reflexivity.
Qed.

Lemma units_eqb_false a b : a <> b -> units_eqb a b = false.
Proof. intros H. unfold units_eqb. apply bool_decide_eq_false. exact H. Qed.

Lemma safe_not_slash c : is_safe c = true -> c <> u_slash.
Proof.
  unfold is_safe, u_slash. intros H ->. vm_compute in H. discriminate.
Qed.

(** [path.posix.join('.', name + '-prompt.md')] is the file name itself when
    the name is a sanitised identifier. *)
Lemma posix_join_prompt agentName :
  Forall (fun c => is_safe c = true) agentName ->
  posix_join [js "."; agentName ++ js "-prompt.md"] = agentName ++ js "-prompt.md".
Proof.
  intros Hsafe. set (x := agentName ++ js "-prompt.md").
  assert (Hlen : (10 <= length x)%nat)
    by (unfold x; rewrite length_app; simpl; lia).
  assert (Hne : forall y, (length y < 10)%nat -> x <> y)
    by (intros y Hy ->; lia).
  assert (Hslash : Forall (fun c => c <> u_slash) x).
  { unfold x. apply Forall_app. split.
    - eapply Forall_impl; [exact Hsafe|]. apply safe_not_slash.
    - repeat constructor; discriminate. }
  assert (Hlast : last (46 :: 47 :: x) = Some 100).
  { unfold x. change (js "-prompt.md") with (js "-prompt.m" ++ [100]).
    rewrite app_assoc. change (46 :: 47 :: ?l ++ [100]) with ((46 :: 47 :: l) ++ [100]).
    apply last_snoc. }
  unfold posix_join. cbn [List.filter js list_ascii_of_string List.map].
  rewrite (units_eqb_false x []) by (apply Hne; simpl; lia).
  change (units_eqb [N_of_ascii "."] []) with false. cbn [negb join].
  change ([N_of_ascii "."] ++ [u_slash] ++ x) with (46 :: 47 :: x).
  unfold posix_normalize. rewrite Hlast.
  change (46 =? u_slash) with false. change (100 =? u_slash) with false.
  cbn [negb]. unfold normalizeString.
  change (split_on u_slash [] (46 :: 47 :: x)) with ([46] :: split_on u_slash [] x).
  rewrite split_on_no_sep by assumption. cbn [app fold_left].
  change (normalize_step true [] [46]) with (@nil jsstring).
  unfold normalize_step.
  rewrite (units_eqb_false x []) by (apply Hne; simpl; lia).
  rewrite (units_eqb_false x (js ".")) by (apply Hne; simpl; lia).
  rewrite (units_eqb_false x (js "..")) by (apply Hne; simpl; lia).
  cbn [orb app join]. destruct x; [simpl in Hlen; lia|reflexivity].
Qed.

Lemma join_elem sep xs x :
  In x xs -> exists before after, join sep xs = before ++ x ++ after.
Proof.
  induction xs as [|y xs IH]; intros Hin; [contradiction|].
  destruct Hin as [->|Hin].
  - destruct xs as [|z xs].
    + exists [], []. simpl. rewrite app_nil_r. reflexivity.
    + exists [], (sep ++ join sep (z :: xs)). reflexivity.
  - destruct (IH Hin) as (before & after & Heq).
    destruct xs as [|z xs]; [contradiction|].
    exists (y ++ sep ++ before), after.
    change (join sep (y :: z :: xs)) with (y ++ sep ++ join sep (z :: xs)).
    rewrite Heq, <- !app_assoc. reflexivity.
Qed.

Lemma createAgentConfig_cases E agentName agentData :
  (validate E (agentConfig_of agentName agentData) = true
   /\ createAgentConfig E agentName agentData = Ok (agentConfig_of agentName agentData))
  \/ (validate E (agentConfig_of agentName agentData) = false
      /\ createAgentConfig E agentName agentData
         = Throw (js "Invalid agent schema: "
                  ++ join (js ", ")
                       (List.map (fun err => ValidationError.instancePath err ++ js ": "
                                             ++ ValidationError.message err)
                                 (validate_errors E (agentConfig_of agentName agentData))))).
Proof.
  unfold createAgentConfig, validateAgentJson.
  destruct (validate E (agentConfig_of agentName agentData)); auto.
Qed.

(** C9.  The configuration object built for a sanitised identifier has that
    identifier as its name, a description made of the record's name and of
    its role when the role is non-empty and of its title otherwise, and a
    prompt reference that is the file reference to [<identifier>-prompt.md];
    [createAgentConfig] validates this very object, returning it when the
    validator accepts it and throwing otherwise. *)
Theorem createAgentConfig_description_prompt
        (E : Env) (rawName : jsstring) (agentData : AgentData.t) :
  let agentName := sanitizeAgentName E rawName in
  let config := agentConfig_of agentName agentData in
  AgentConfig.name config = agentName
  /\ (AgentData.role agentData <> [] ->
      AgentConfig.description config
      = AgentData.name agentData ++ js " - " ++ AgentData.role agentData)
  /\ (AgentData.role agentData = [] ->
      AgentConfig.description config
      = AgentData.name agentData ++ js " - " ++ AgentData.title agentData)
  /\ AgentConfig.prompt config = js "file://" ++ agentName ++ js "-prompt.md"
  /\ ((validate E config = true
       /\ createAgentConfig E agentName agentData = Ok config)
      \/ (validate E config = false
          /\ exists e, createAgentConfig E agentName agentData = Throw e)).
Proof.
  intros agentName config. split; [reflexivity|]. split; [|split; [|split]].
  - intros Hrole. unfold config, agentConfig_of. simpl.
    destruct (AgentData.role agentData); [contradiction|reflexivity].
  - intros Hrole. unfold config, agentConfig_of. simpl. rewrite Hrole. reflexivity.
  - unfold config, agentConfig_of. simpl.
    rewrite posix_join_prompt by apply sanitizeAgentName_safe. reflexivity.
  - destruct (createAgentConfig_cases E agentName agentData) as [[Hv Hc]|[Hv Hc]];
      [left|right]; (split; [exact Hv|]); eauto.
Qed.

(** ** Directory-tree discoverer *)

Lemma pathExists_run p w : pathExists p w = (Ok (exists_in w p), w).
Proof. reflexivity. Qed.

Lemma scanEntries_run bmadDir w es : forall modules,
  scanEntries bmadDir es modules w
  = (Ok (modules ++ List.map Dirent.name (List.filter (is_module bmadDir w) es)), w).
Proof.
  induction es as [|entry es IH]; intros modules; cbn [scanEntries List.filter].
  - cbn [List.map]. rewrite app_nil_r. reflexivity.
  - unfold is_module at 1.
    destruct (Dirent.isDirectory entry); cbn [negb orb andb]; [|apply IH].
    destruct (units_eqb (Dirent.name entry) (js "core")); cbn [negb orb andb];
      [apply IH|].
    destruct (startsWith (js "_") (Dirent.name entry)); cbn [negb orb andb];
      [apply IH|].
    unfold bind. rewrite pathExists_run.
    destruct (exists_in w (bmadDir ++ [Dirent.name entry; js "agents"])).
    + rewrite IH. cbn [List.map]. rewrite <- app_assoc. reflexivity.
    + apply IH.
Qed.

Lemma readdir_world p w : (readdir p w).2 = w.
Proof.
  unfold readdir. destruct (readdir_fault (failures w) p); [reflexivity|].
  destruct (files w !! p) as [[?|]|]; reflexivity.
Qed.

Lemma in_filter_module bmadDir w es n :
  In n (List.map Dirent.name (List.filter (is_module bmadDir w) es)) -> n <> js "core".
Proof.
  rewrite in_map_iff. intros (entry & <- & Hin). apply filter_In in Hin as [_ Hm].
  unfold is_module in Hm. rewrite !andb_true_iff in Hm.
  destruct Hm as [[[_ Hcore] _] _]. apply negb_true_iff in Hcore.
  unfold units_eqb in Hcore. apply bool_decide_eq_false in Hcore. exact Hcore.
Qed.

(** The listing [discoverAllModules] returns.  When the root can be listed,
    it is [core] first if and only if [core/agents] exists, and then, in the
    order of the listing, the name of every other directory entry that does
    not start with an underscore and under which a path [agents] exists,
    whatever its kind.  When listing the root fails, the failure is logged as
    a warning and what was collected before it, that is [core] or nothing, is
    returned; no error is thrown in either case. *)
Theorem discoverAllModules_listing (bmadDir : path) (w : world) :
  (forall es, (readdir bmadDir w).1 = Ok es ->
     discoverAllModules bmadDir w
     = (Ok (core_first bmadDir w
            ++ List.map Dirent.name (List.filter (is_module bmadDir w) es)), w)
     /\ (In (js "core")
            (core_first bmadDir w
             ++ List.map Dirent.name (List.filter (is_module bmadDir w) es))
         <-> exists_in w (bmadDir ++ [js "core"; js "agents"]) = true))
  /\ (forall e, (readdir bmadDir w).1 = Throw e ->
        discoverAllModules bmadDir w
        = (Ok (core_first bmadDir w),
           warned (js "  Warning: Failed to discover modules: " ++ e) w)).
Proof.
  split.
  - intros es Hes. split.
    + unfold discoverAllModules, bind, try_catch, pathExists, core_first, exists_in.
      pose proof (readdir_world bmadDir w) as Hw.
      destruct (readdir bmadDir w) as [r w']. simpl in Hes, Hw. subst.
      rewrite scanEntries_run. reflexivity.
    + rewrite in_app_iff. unfold core_first. split.
      * intros [H|H]; [|apply in_filter_module in H; contradiction].
        destruct (exists_in w (bmadDir ++ [js "core"; js "agents"]));
          [reflexivity|contradiction].
      * intros ->. left. left. reflexivity.
  - intros e He.
    unfold discoverAllModules, bind, try_catch, pathExists, core_first, exists_in.
    pose proof (readdir_world bmadDir w) as Hw.
    destruct (readdir bmadDir w) as [r w']. simpl in He, Hw. subst.
    reflexivity.
Qed.

(** ** The file system *)

Lemma lookup_removed (p : path) (m : gmap path node) (k : path) :
  filter (fun kv : path * node => ~ p `prefix_of` kv.1) m !! k
  = if decide (p `prefix_of` k) then None else m !! k.
Proof.
  destruct (decide (p `prefix_of` k)) as [Hp|Hp].
  - apply map_lookup_filter_None. right. intros x _ Hn. apply Hn. exact Hp.
  - destruct (m !! k) as [x|] eqn:Hk.
    + apply map_lookup_filter_Some. split; [exact Hk|exact Hp].
    + apply map_lookup_filter_None. left. exact Hk.
Qed.

Lemma remove_run p w :
  remove p w =
  match remove_fault (failures w) p with
  | Some e => (Throw e, w)
  | None => (Ok tt, set_files (filter (fun kv : path * node => ~ p `prefix_of` kv.1) (files w)) w)
  end.
Proof. reflexivity. Qed.

Lemma units_eqb_true a b : units_eqb a b = true <-> a = b.
Proof. unfold units_eqb. apply bool_decide_eq_true. Qed.

Lemma strip_prefix_Some p : forall l r, strip_prefix p l = Some r <-> l = p ++ r.
Proof.
  induction p as [|a p IH]; intros l r; simpl.
  - split; congruence.
  - destruct l as [|b l]; [split; discriminate|].
    destruct (units_eqb a b) eqn:Hab.
    + apply units_eqb_true in Hab as ->. rewrite IH. split; congruence.
    + split; [discriminate|]. intros H. injection H as -> _.
      unfold units_eqb in Hab. apply bool_decide_eq_false in Hab. congruence.
Qed.

(** The names [readdir] lists are those of the paths one step below the
    directory. *)
Lemma entries_names (dir : path) (m : gmap path node) (n : jsstring) :
  In n (List.map Dirent.name (entries dir m)) <-> is_Some (m !! (dir ++ [n])).
Proof.
  unfold entries. rewrite in_map_iff. split.
  - intros (entry & <- & Hin). apply list_elem_of_In in Hin.
    apply list_elem_of_omap in Hin as ([k x] & Hkx & Hc).
    apply elem_of_map_to_list in Hkx. unfold child_entry in Hc. simpl in Hc.
    destruct (strip_prefix dir k) as [[|y [|? ?]]|] eqn:Hs; try discriminate.
    injection Hc as <-. apply strip_prefix_Some in Hs as ->. simpl. eauto.
  - intros [x Hx]. exists (Dirent.mk n (is_dir x)). split; [reflexivity|].
    apply list_elem_of_In. apply list_elem_of_omap. exists (dir ++ [n], x).
    split; [apply elem_of_map_to_list; exact Hx|].
    unfold child_entry. simpl.
    rewrite (proj2 (strip_prefix_Some dir (dir ++ [n]) [n]) eq_refl). reflexivity.
Qed.

(** ** Selective cleanup *)

Lemma removeEach_spec (dir : path) (names : list jsstring) : forall count w,
  exists count' w',
    removeEach dir names count w = (Ok count', w')
    /\ failures w' = failures w
    /\ (forall k,
          files w' !! k =
          if decide (Exists (fun n => remove_fault (failures w) (dir ++ [n]) = None
                                      /\ (dir ++ [n]) `prefix_of` k) names)
          then None else files w !! k)
    /\ (forall x, In x (console w) -> In x (console w'))
    /\ (forall n e, In n names -> remove_fault (failures w) (dir ++ [n]) = Some e ->
                    In (removeWarning n e) (console w')).
Proof.
  induction names as [|n rest IH]; intros count w.
  - exists count, w. split; [reflexivity|]. split; [reflexivity|]. split.
    + intros k. destruct (decide _) as [H|H]; [inversion H|reflexivity].
    + split; [auto|]. intros ? ? [].
  - cbn [removeEach]. unfold bind at 1. unfold try_catch, bind at 1.
    rewrite remove_run.
    destruct (remove_fault (failures w) (dir ++ [n])) as [e|] eqn:Hf.
    + cbv beta iota. unfold bind at 1. unfold log at 1. cbv beta iota. unfold ret at 1.
      match goal with |- context [removeEach dir rest count ?w1] =>
        destruct (IH count w1) as (count' & w' & Hrun & Hfail & Hfiles & Hcons & Hwarn)
      end.
      cbn [files failures console] in *.
      exists count', w'. split; [exact Hrun|]. split; [exact Hfail|]. split; [|split].
      * intros k. rewrite Hfiles.
        destruct (decide (Exists _ rest)) as [H|H];
          destruct (decide (Exists _ (n :: rest))) as [H'|H']; try reflexivity.
        -- exfalso. apply H'. apply Exists_cons_tl. exact H.
        -- exfalso. apply Exists_cons in H' as [[Hn _]|H']; [congruence|contradiction].
      * intros x Hx. apply Hcons. apply in_or_app. left. exact Hx.
      * intros n' e' [<-|Hin] Hn'.
        -- rewrite Hf in Hn'. injection Hn' as <-. apply Hcons.
           apply in_or_app. right. left. reflexivity.
        -- apply Hwarn; assumption.
    + cbv beta iota. unfold ret at 1.
      match goal with |- context [removeEach dir rest (S count) ?w1] =>
        destruct (IH (S count) w1) as (count' & w' & Hrun & Hfail & Hfiles & Hcons & Hwarn)
      end.
      cbn [files failures console set_files] in *.
      exists count', w'. split; [exact Hrun|]. split; [exact Hfail|]. split; [|split].
      * intros k. rewrite Hfiles, lookup_removed.
        destruct (decide (Exists _ rest)) as [H|H];
          destruct (decide (Exists _ (n :: rest))) as [H'|H']; try reflexivity.
        -- exfalso. apply H'. apply Exists_cons_tl. exact H.
        -- destruct (decide (dir ++ [n] `prefix_of` k)) as [Hp|Hp]; [reflexivity|].
           exfalso. apply Exists_cons in H' as [[_ Hn]|H']; contradiction.
        -- destruct (decide (dir ++ [n] `prefix_of` k)) as [Hp|Hp]; [|reflexivity].
           exfalso. apply H'. apply Exists_cons_hd. auto.
      * exact Hcons.
      * intros n' e' [<-|Hin] Hn'; [congruence|]. apply Hwarn; assumption.
Qed.

Lemma swept_listing (w : world) (dir k : path) :
  files w !! dir = Some Dir ->
  Exists (fun n => remove_fault (failures w) (dir ++ [n]) = None
                   /\ (dir ++ [n]) `prefix_of` k)
         (List.filter (startsWith (js "bmad"))
                      (List.map Dirent.name (entries dir (files w))))
  <-> swept w dir k.
Proof.
  intros Hdir. unfold swept. rewrite Exists_exists. split.
  - intros (n & Hin & Hf & Hp). apply list_elem_of_In, filter_In in Hin as [Hin Hb].
    apply entries_names in Hin. eauto 10.
  - intros (_ & n & Hb & Hin & Hf & Hp). exists n. split; [|auto].
    apply list_elem_of_In, filter_In. split; [apply entries_names; exact Hin|exact Hb].
Qed.

Lemma cleanPrefixed_spec (E : Env) (dir : path) (kind : string) (w : world) :
  listable w dir ->
  exists count w',
    cleanPrefixed E dir kind w = (Ok count, w')
    /\ failures w' = failures w
    /\ (forall k, swept w dir k -> files w' !! k = None)
    /\ (forall k, ~ swept w dir k -> files w' !! k = files w !! k)
    /\ (forall k, files w !! k = None -> files w' !! k = None)
    /\ (forall x, In x (console w) -> In x (console w'))
    /\ (forall n e, files w !! dir = Some Dir ->
                    startsWith (js "bmad") n = true ->
                    is_Some (files w !! (dir ++ [n])) ->
                    remove_fault (failures w) (dir ++ [n]) = Some e ->
                    In (removeWarning n e) (console w')).
Proof.
  intros [Hnone|[Hdir Hfault]]; unfold cleanPrefixed, bind at 1;
    rewrite pathExists_run; unfold exists_in.
  - rewrite Hnone. exists 0%nat, w. split; [reflexivity|]. split; [reflexivity|].
    split; [|split; [|split; [|split]]]; auto.
    + intros k [Hdir _]. congruence.
    + intros n e Hdir. congruence.
  - rewrite Hdir. unfold readdir_names. unfold bind at 1. unfold bind at 1.
    unfold readdir. rewrite Hfault, Hdir. unfold ret at 1.
    destruct (removeEach_spec dir
                (List.filter (startsWith (js "bmad"))
                             (List.map Dirent.name (entries dir (files w)))) 0%nat w)
      as (count & w' & Hrun & Hfail & Hfiles & Hcons & Hwarn).
    unfold bind at 1. rewrite Hrun. unfold bind, log, ret.
    eexists count, _. split; [reflexivity|]. cbn [files failures console].
    split; [exact Hfail|]. split; [|split; [|split; [|split]]].
    + intros k Hk. rewrite Hfiles. destruct (decide _) as [H|H]; [reflexivity|].
      exfalso. apply H. apply swept_listing; assumption.
    + intros k Hk. rewrite Hfiles. destruct (decide _) as [H|H]; [|reflexivity].
      exfalso. apply Hk. apply swept_listing; assumption.
    + intros k Hk. rewrite Hfiles. destruct (decide _); [reflexivity|exact Hk].
    + intros x Hx. apply in_or_app. left. apply Hcons, Hx.
    + intros n e _ Hb Hin Hf. apply in_or_app. left. apply Hwarn; [|exact Hf].
      apply filter_In. split; [apply entries_names; exact Hin|exact Hb].
Qed.

Lemma sibling_prefix (pd : path) (c a b : jsstring) (r k : path) :
  (pd ++ [c; a]) ++ r `prefix_of` (pd ++ [c; b]) ++ k -> a = b.
Proof.
  intros [t Ht]. rewrite <- !app_assoc in Ht. apply app_inv_head in Ht.
  simpl in Ht. congruence.
Qed.

Lemma swept_sibling (w : world) (pd : path) (c a b : jsstring) (k : path) :
  a <> b -> ~ swept w (pd ++ [c; a]) ((pd ++ [c; b]) ++ k).
Proof.
  intros Hab (_ & n & _ & _ & _ & Hp). apply Hab. eapply sibling_prefix, Hp.
Qed.

Lemma swept_transfer (w w1 : world) (dir k : path) :
  failures w1 = failures w ->
  files w1 !! dir = files w !! dir ->
  (forall n, files w1 !! (dir ++ [n]) = files w !! (dir ++ [n])) ->
  swept w1 dir k <-> swept w dir k.
Proof.
  intros Hf Hd Hn. unfold swept. rewrite Hf, Hd.
  split; intros (H & n & Hb & Hin & Hr & Hp); (split; [exact H|]);
    exists n; [rewrite <- Hn|rewrite Hn]; auto.
Qed.

Lemma agents_commands : agentsDir <> js "commands".
Proof. discriminate. Qed.

Lemma agents_steering : agentsDir <> js "steering".
Proof. discriminate. Qed.

Lemma commands_steering : js "commands" <> js "steering".
Proof. discriminate. Qed.

Lemma cleanup_spec (E : Env) (projectDir : path) (w : world) :
  listable w (kiro_agents projectDir) ->
  listable w (kiro_commands projectDir) ->
  exists w',
    cleanup E projectDir w = (Ok tt, w')
    /\ failures w' = failures w
    /\ (forall k, swept w (kiro_agents projectDir) k
                  \/ swept w (kiro_commands projectDir) k
                  \/ steering_swept w projectDir k ->
                  files w' !! k = None)
    /\ (forall k, ~ swept w (kiro_agents projectDir) k ->
                  ~ swept w (kiro_commands projectDir) k ->
                  ~ steering_swept w projectDir k ->
                  files w' !! k = files w !! k)
    /\ (forall dir n e,
          dir = kiro_agents projectDir \/ dir = kiro_commands projectDir ->
          files w !! dir = Some Dir ->
          startsWith (js "bmad") n = true ->
          is_Some (files w !! (dir ++ [n])) ->
          remove_fault (failures w) (dir ++ [n]) = Some e ->
          In (removeWarning n e) (console w'))
    /\ (forall e,
          is_Some (files w !! kiro_steering projectDir) ->
          remove_fault (failures w) (kiro_steering projectDir) = Some e ->
          In (LogWarn, js "  Warning: Failed to remove steering directory: " ++ e)
             (console w')).
Proof.
  intros HlA HlC. unfold steering_swept. unfold kiro_agents, kiro_commands, kiro_steering in *.
  set (dirA := projectDir ++ [configDir; agentsDir]) in *.
  set (dirC := projectDir ++ [configDir; js "commands"]) in *.
  set (dirS := projectDir ++ [configDir; js "steering"]) in *.
  destruct (cleanPrefixed_spec E dirA "agent" w HlA)
    as (nA & w1 & Hrun1 & Hf1 & Hs1 & Hk1 & Hm1 & Hc1 & Hw1).
  assert (HAC : forall k, ~ swept w dirA (dirC ++ k))
    by (intros k; apply swept_sibling, agents_commands).
  assert (HAS : forall k, ~ swept w dirA (dirS ++ k))
    by (intros k; apply swept_sibling, agents_steering).
  assert (HdC : files w1 !! dirC = files w !! dirC)
    by (rewrite <- (app_nil_r dirC); apply Hk1, HAC).
  assert (HlC1 : listable w1 dirC).
  { unfold listable. rewrite Hf1, HdC. exact HlC. }
  destruct (cleanPrefixed_spec E dirC "command" w1 HlC1)
    as (nC & w2 & Hrun2 & Hf2 & Hs2 & Hk2 & Hm2 & Hc2 & Hw2).
  assert (HsC : forall k, swept w1 dirC k <-> swept w dirC k).
  { intros k. apply swept_transfer; [exact Hf1|exact HdC|].
    intros n. apply Hk1, HAC. }
  assert (HCS : forall k, ~ swept w1 dirC (dirS ++ k))
    by (intros k; apply swept_sibling, commands_steering).
  assert (HdS : files w2 !! dirS = files w !! dirS).
  { rewrite <- (app_nil_r dirS). rewrite Hk2 by apply HCS. apply Hk1, HAS. }
  assert (Hmid : forall k, ~ swept w dirA k -> ~ swept w dirC k ->
                           files w2 !! k = files w !! k).
  { intros k HA HC. rewrite Hk2 by (rewrite HsC; exact HC). apply Hk1, HA. }
  assert (Hmid0 : forall k, swept w dirA k \/ swept w dirC k -> files w2 !! k = None).
  { intros k [HA|HC]; [apply Hm2, Hs1, HA|apply Hs2, HsC, HC]. }
  assert (Hwarn2 : forall dir n e, dir = dirA \/ dir = dirC ->
            files w !! dir = Some Dir -> startsWith (js "bmad") n = true ->
            is_Some (files w !! (dir ++ [n])) ->
            remove_fault (failures w) (dir ++ [n]) = Some e ->
            In (removeWarning n e) (console w2)).
  { intros dir n e [->| ->] Hd Hb Hin Hr.
    - apply Hc2. apply Hw1; assumption.
    - apply Hw2; [rewrite HdC; exact Hd|exact Hb| |rewrite Hf1; exact Hr].
      rewrite Hk1 by apply HAC. exact Hin. }
  unfold cleanup. fold dirA dirC dirS.
  unfold bind at 1. rewrite Hrun1. unfold bind at 1. rewrite Hrun2.
  unfold bind at 1. rewrite pathExists_run. unfold exists_in. rewrite HdS.
  destruct (files w !! dirS) as [x|] eqn:HS.
  - unfold bind at 1, try_catch, bind at 1. rewrite remove_run, Hf2, Hf1.
    destruct (remove_fault (failures w) dirS) as [e|] eqn:HrS.
    + unfold log. eexists. split; [reflexivity|]. cbn [files failures console].
      split; [congruence|]. split; [|split; [|split]].
      * intros k [HA|[HC|(_ & Hr & _)]]; [apply Hmid0; auto|apply Hmid0; auto|congruence].
      * intros k HA HC _. apply Hmid; assumption.
      * intros dir n e' Hdir Hd Hb Hin Hr. apply in_or_app. left. apply in_or_app. left.
        eapply Hwarn2; eassumption.
      * intros e' _ He'. injection He' as <-. apply in_or_app. left.
        apply in_or_app. right. left. reflexivity.
    + unfold log. eexists. split; [reflexivity|]. cbn [files failures console set_files].
      split; [congruence|]. split; [|split; [|split]].
      * intros k Hk. rewrite lookup_removed.
        destruct (decide (dirS `prefix_of` k)) as [Hp|Hp]; [reflexivity|].
        destruct Hk as [HA|[HC|(_ & _ & Hp')]]; [apply Hmid0; auto|apply Hmid0; auto|].
        contradiction.
      * intros k HA HC HSw. rewrite lookup_removed.
        destruct (decide (dirS `prefix_of` k)) as [Hp|Hp]; [|apply Hmid; assumption].
        exfalso. apply HSw. eauto.
      * intros dir n e' Hdir Hd Hb Hin Hr. apply in_or_app. left. apply in_or_app. left.
        eapply Hwarn2; eassumption.
      * intros e' _ He'. discriminate.
  - unfold bind, ret, log. eexists. split; [reflexivity|]. cbn [files failures console].
    split; [congruence|]. split; [|split; [|split]].
    + intros k [HA|[HC|([y Hy] & _)]]; [apply Hmid0; auto|apply Hmid0; auto|discriminate].
    + intros k HA HC _. apply Hmid; assumption.
    + intros dir n e' Hdir Hd Hb Hin Hr. apply in_or_app. left.
      eapply Hwarn2; eassumption.
    + intros e' [y Hy]. discriminate.
Qed.

Lemma two_prefixes_sibling (pd : path) (c a b : jsstring) (r1 r2 k : path) :
  (pd ++ [c; a]) ++ r1 `prefix_of` k ->
  (pd ++ [c; b]) ++ r2 `prefix_of` k -> a = b.
Proof.
  intros [t1 H1] [t2 H2]. rewrite H1 in H2. rewrite <- !app_assoc in H2.
  apply app_inv_head in H2. simpl in H2. congruence.
Qed.




(** ** File pair writer *)

Lemma readFile_world p w : (readFile p w).2 = w.
Proof. unfold readFile. destruct (files w !! p) as [[?|]|]; reflexivity. Qed.

Lemma writeFile_failures p data w : failures (writeFile p data w).2 = failures w.
Proof.
  unfold writeFile. destruct (write_fault (failures w) p) as [[e [r|]]|]; try reflexivity.
  destruct (files w !! removelast p) as [[?|]|]; try reflexivity.
  destruct (files w !! p) as [[?|]|]; reflexivity.
Qed.

Lemma writeFile_Ok p data w :
  (writeFile p data w).1 = Ok tt ->
  files (writeFile p data w).2 = <[p := File data]> (files w)
  /\ files w !! removelast p = Some Dir.
Proof.
  unfold writeFile. destruct (write_fault (failures w) p) as [[e [r|]]|]; try discriminate.
  destruct (files w !! removelast p) as [[?|]|]; try discriminate.
  destruct (files w !! p) as [[?|]|]; try discriminate; auto.
Qed.

Lemma swallow_remove_spec p w :
  exists w', swallow (remove p) w = (Ok tt, w')
             /\ failures w' = failures w
             /\ console w' = console w
             /\ (forall k, files w' !! k = None \/ files w' !! k = files w !! k)
             /\ (remove_fault (failures w) p = None ->
                 forall k, p `prefix_of` k -> files w' !! k = None).
Proof.
  unfold swallow, try_catch. rewrite remove_run.
  destruct (remove_fault (failures w) p) as [e|].
  - exists w. split; [reflexivity|]. split; [reflexivity|]. split; [reflexivity|].
    split; [auto|discriminate].
  - eexists. split; [reflexivity|]. cbn [files failures console set_files].
    split; [reflexivity|]. split; [reflexivity|]. split.
    + intros k. rewrite lookup_removed. destruct (decide _); auto.
    + intros _ k Hp. rewrite lookup_removed. destruct (decide _); [reflexivity|contradiction].
Qed.

(** The catch block rethrows the error it was given; it only ever removes,
    and each of the two paths whose removal does not fail is gone after it. *)
Lemma rollback_spec promptPath jsonPath e w :
  exists w', rollback promptPath jsonPath e w = (Throw e, w')
             /\ (forall k, files w' !! k = None \/ files w' !! k = files w !! k)
             /\ (remove_fault (failures w) promptPath = None ->
                 files w' !! promptPath = None)
             /\ (remove_fault (failures w) jsonPath = None ->
                 files w' !! jsonPath = None).
Proof.
  unfold rollback.
  destruct (swallow_remove_spec promptPath w) as (w1 & Hr1 & Hf1 & _ & Hk1 & Hg1).
  destruct (swallow_remove_spec jsonPath w1) as (w2 & Hr2 & Hf2 & _ & Hk2 & Hg2).
  exists w2. unfold bind at 1. rewrite Hr1. unfold bind at 1. rewrite Hr2.
  split; [reflexivity|]. split; [|split].
  - intros k. destruct (Hk2 k) as [H|H]; [auto|]. rewrite H. apply Hk1.
  - intros Hp. destruct (Hk2 promptPath) as [H|H]; [exact H|].
    rewrite H. apply Hg1; [exact Hp|reflexivity].
  - intros Hj. apply Hg2; [rewrite Hf1; exact Hj|reflexivity].
Qed.

Lemma pair_paths_differ E agentsDir artifact :
  jsonPath_of E agentsDir artifact <> promptPath_of E agentsDir artifact.
Proof.
  unfold jsonPath_of, promptPath_of. intros H. apply app_inv_head in H.
  injection H as H. apply (f_equal (@rev N)) in H.
  rewrite !rev_app_distr in H. simpl in H. discriminate.
Qed.

Lemma removelast_snoc (dir : path) (x : jsstring) : removelast (dir ++ [x]) = dir.
Proof. apply removelast_last. Qed.

Lemma processAgentArtifact_run E artifact agentsDir projectDir w content d :
  (readFile (Artifact.sourcePath artifact) w).1 = Ok content ->
  parseCompiledAgent content artifact = Some d ->
  processAgentArtifact E artifact agentsDir projectDir w
  = try_catch
      (agentConfig <- lift (createAgentConfig E (sanitizeAgentName E (agentName_of artifact)) d) ;;
       writeFile (promptPath_of E agentsDir artifact) (generatePrompt d) ;;;
       writeJson E (jsonPath_of E agentsDir artifact) agentConfig)
      (rollback (promptPath_of E agentsDir artifact) (jsonPath_of E agentsDir artifact))
      w.
Proof.
  intros Hread Hparse. unfold processAgentArtifact, bind at 1.
  pose proof (readFile_world (Artifact.sourcePath artifact) w) as Hw.
  destruct (readFile (Artifact.sourcePath artifact) w) as [r w0].
  simpl in Hread, Hw. subst. rewrite Hparse. reflexivity.
Qed.

Lemma processAgentArtifact_outcome E artifact agentsDir projectDir w content d :
  (readFile (Artifact.sourcePath artifact) w).1 = Ok content ->
  parseCompiledAgent content artifact = Some d ->
  let promptPath := promptPath_of E agentsDir artifact in
  let jsonPath := jsonPath_of E agentsDir artifact in
  (exists config w',
      processAgentArtifact E artifact agentsDir projectDir w = (Ok tt, w')
      /\ createAgentConfig E (sanitizeAgentName E (agentName_of artifact)) d = Ok config
      /\ files w' !! promptPath = Some (File (generatePrompt d))
      /\ files w' !! jsonPath = Some (File (stringify E config)))
  \/ (exists e w0 w',
        processAgentArtifact E artifact agentsDir projectDir w = (Throw e, w')
        /\ original_failure E artifact agentsDir d w e
        /\ failures w0 = failures w
        /\ rollback promptPath jsonPath e w0 = (Throw e, w')
        /\ (createAgentConfig E (sanitizeAgentName E (agentName_of artifact)) d = Throw e
            -> w0 = w)).
Proof.
  intros Hread Hparse promptPath jsonPath.
  rewrite (processAgentArtifact_run _ _ _ _ _ _ _ Hread Hparse).
  fold promptPath jsonPath. unfold original_failure. fold promptPath jsonPath.
  unfold try_catch, bind, lift, writeJson.
  destruct (createAgentConfig E (sanitizeAgentName E (agentName_of artifact)) d)
    as [config|e] eqn:Hc.
  - pose proof (writeFile_failures promptPath (generatePrompt d) w) as Hf1.
    pose proof (writeFile_Ok promptPath (generatePrompt d) w) as Hok1.
    destruct (writeFile promptPath (generatePrompt d) w) as [[[]|e1] w1] eqn:Hw1;
      cbn [fst snd] in *.
    + destruct (Hok1 eq_refl) as [Hfiles1 Hparent1].
      pose proof (writeFile_failures jsonPath (stringify E config) w1) as Hf2.
      pose proof (writeFile_Ok jsonPath (stringify E config) w1) as Hok2.
      destruct (writeFile jsonPath (stringify E config) w1) as [[[]|e2] w2] eqn:Hw2;
        cbn [fst snd] in *.
      * left. exists config, w2. split; [reflexivity|]. split; [reflexivity|].
        destruct (Hok2 eq_refl) as [Hfiles2 _]. rewrite Hfiles2, Hfiles1.
        split.
        -- rewrite lookup_insert_ne by apply pair_paths_differ.
           apply lookup_insert_eq.
        -- apply lookup_insert_eq.
      * right. destruct (rollback_spec promptPath jsonPath e2 w2) as (w' & Hr & _).
        exists e2, w2, w'. rewrite Hr. split; [reflexivity|]. split.
        -- right. exists config. split; [reflexivity|]. right.
           split; [reflexivity|rewrite Hw2; reflexivity].
        -- split; [congruence|]. split; [reflexivity|discriminate].
    + right. destruct (rollback_spec promptPath jsonPath e1 w1) as (w' & Hr & _).
      exists e1, w1, w'. rewrite Hr. split; [reflexivity|]. split.
      * right. exists config. split; [reflexivity|]. left. reflexivity.
      * split; [congruence|]. split; [reflexivity|discriminate].
  - right. destruct (rollback_spec promptPath jsonPath e w) as (w' & Hr & _).
    exists e, w, w'. rewrite Hr. split; [reflexivity|]. split; [left; reflexivity|].
    split; [reflexivity|]. split; [reflexivity|reflexivity].
Qed.

(** What the code guarantees for the pair.  For an artifact whose record was
    extracted,
    [processAgentArtifact] either returns normally with both files of the pair
    written, or throws the failure that interrupted it (from building and
    validating the configuration, or from one of the two writes) after trying
    to remove both target paths; a path whose removal does not fail is absent
    afterwards.  So whenever neither removal fails, the configuration file is
    there exactly when the prompt file is. *)
Theorem processAgentArtifact_pair
        (E : Env) (artifact : Artifact.t) (agentsDir projectDir : path)
        (w : world) (content : jsstring) (d : AgentData.t) :
  (readFile (Artifact.sourcePath artifact) w).1 = Ok content ->
  parseCompiledAgent content artifact = Some d ->
  let promptPath := promptPath_of E agentsDir artifact in
  let jsonPath := jsonPath_of E agentsDir artifact in
  let run := processAgentArtifact E artifact agentsDir projectDir w in
  (run.1 = Ok tt ->
   exists config,
     createAgentConfig E (sanitizeAgentName E (agentName_of artifact)) d = Ok config
     /\ files run.2 !! promptPath = Some (File (generatePrompt d))
     /\ files run.2 !! jsonPath = Some (File (stringify E config)))
  /\ (forall e, run.1 = Throw e ->
        original_failure E artifact agentsDir d w e
        /\ (remove_fault (failures w) promptPath = None -> files run.2 !! promptPath = None)
        /\ (remove_fault (failures w) jsonPath = None -> files run.2 !! jsonPath = None))
  /\ (remove_fault (failures w) promptPath = None ->
      remove_fault (failures w) jsonPath = None ->
      (is_Some (files run.2 !! jsonPath) <-> is_Some (files run.2 !! promptPath))).
Proof.
  intros Hread Hparse promptPath jsonPath run.
  destruct (processAgentArtifact_outcome E artifact agentsDir projectDir w content d
              Hread Hparse)
    as [(config & w' & Hrun & Hc & Hp & Hj)|(e & w0 & w' & Hrun & Horig & Hf & Hroll & _)];
    subst promptPath jsonPath run; rewrite Hrun; cbn [fst snd].
  - split; [intros _; eauto|]. split; [discriminate|].
    intros _ _. rewrite Hp, Hj. split; eauto.
  - destruct (rollback_spec (promptPath_of E agentsDir artifact)
                            (jsonPath_of E agentsDir artifact) e w0)
      as (w'' & Hr & _ & Hgp & Hgj).
    rewrite Hroll in Hr. injection Hr as <-. rewrite Hf in Hgp, Hgj.
    split; [discriminate|]. split.
    + intros e' He'. injection He' as <-. auto.
    + intros Hrp Hrj. rewrite (Hgp Hrp), (Hgj Hrj). split; intros [x Hx]; discriminate.
Qed.

(** [createAgentConfig] validates the object it has built before
    returning it: it returns that object when the validator accepts it, and
    otherwise throws an error whose message lists every entry of the
    validator's error list, each as [instancePath: message].  An object that
    fails validation is therefore never returned; and [processAgentArtifact]
    then throws the same error without having written anything: whatever is
    in the tree afterwards was there before. *)
Theorem createAgentConfig_validates
        (E : Env) (agentName : jsstring) (agentData : AgentData.t) :
  let config := agentConfig_of agentName agentData in
  (validate E config = true -> createAgentConfig E agentName agentData = Ok config)
  /\ (validate E config = false ->
      exists msg,
        createAgentConfig E agentName agentData = Throw msg
        /\ msg = js "Invalid agent schema: "
                 ++ join (js ", ")
                      (List.map (fun err => ValidationError.instancePath err ++ js ": "
                                            ++ ValidationError.message err)
                                (validate_errors E config))
        /\ forall err, In err (validate_errors E config) ->
             exists before after,
               msg = before ++ (ValidationError.instancePath err ++ js ": "
                                ++ ValidationError.message err) ++ after)
  /\ (forall c, createAgentConfig E agentName agentData = Ok c ->
                c = config /\ validate E c = true)
  /\ (forall artifact agentsDir projectDir w content,
        agentName = sanitizeAgentName E (agentName_of artifact) ->
        (readFile (Artifact.sourcePath artifact) w).1 = Ok content ->
        parseCompiledAgent content artifact = Some agentData ->
        validate E config = false ->
        exists msg w',
          processAgentArtifact E artifact agentsDir projectDir w = (Throw msg, w')
          /\ createAgentConfig E agentName agentData = Throw msg
          /\ forall k, files w' !! k = None \/ files w' !! k = files w !! k).
Proof.
  intros config. split; [|split; [|split]].
  - intros Hv. destruct (createAgentConfig_cases E agentName agentData) as [[_ H]|[H _]];
      [exact H|fold config in H; congruence].
  - intros Hv. destruct (createAgentConfig_cases E agentName agentData) as [[H _]|[_ H]];
      [fold config in H; congruence|].
    eexists. split; [exact H|]. split; [reflexivity|].
    intros err Hin.
    destruct (join_elem (js ", ")
                (List.map (fun err => ValidationError.instancePath err ++ js ": "
                                      ++ ValidationError.message err)
                          (validate_errors E config))
                (ValidationError.instancePath err ++ js ": "
                 ++ ValidationError.message err)) as (before & after & Hj).
    { apply in_map_iff. exists err. auto. }
    exists (js "Invalid agent schema: " ++ before), after.
    fold config. rewrite Hj, <- !app_assoc. reflexivity.
  - intros c Hc. destruct (createAgentConfig_cases E agentName agentData) as [[Hv H]|[_ H]];
      rewrite H in Hc; [|discriminate]. injection Hc as <-. auto.
  - intros artifact agentsDir projectDir w content -> Hread Hparse Hv.
    destruct (createAgentConfig_cases E (sanitizeAgentName E (agentName_of artifact))
                                      agentData) as [[H _]|[_ Hthrow]];
      [fold config in H; congruence|].
    destruct (processAgentArtifact_outcome E artifact agentsDir projectDir w content
                agentData Hread Hparse)
      as [(c & w' & _ & Hc & _)|(e & w0 & w' & Hrun & Horig & _ & Hroll & Hsame)];
      [congruence|].
    assert (He : createAgentConfig E (sanitizeAgentName E (agentName_of artifact))
                                   agentData = Throw e).
    { destruct Horig as [H|(c & Hc & _)]; [exact H|congruence]. }
    rewrite (Hsame He) in Hroll.
    destruct (rollback_spec (promptPath_of E agentsDir artifact)
                            (jsonPath_of E agentsDir artifact) e w)
      as (w'' & Hr & Hk & _).
    rewrite Hroll in Hr. injection Hr as <-.
    exists e, w'. auto.
Qed.

(** ** Orchestrator *)

Lemma only_removes_refl w : only_removes w w.
Proof. intros k. auto. Qed.

Lemma only_removes_trans w1 w2 w3 :
  only_removes w1 w2 -> only_removes w2 w3 -> only_removes w1 w3.
Proof.
  intros H12 H23 k. destruct (H23 k) as [H|H]; [auto|]. rewrite H. apply H12.
Qed.

Lemma only_removes_files w w' : files w' = files w -> only_removes w w'.
Proof. intros H k. rewrite H. auto. Qed.

Lemma removeEach_only_removes dir names count w :
  only_removes w (removeEach dir names count w).2.
Proof.
  destruct (removeEach_spec dir names count w) as (c & w' & Hrun & _ & Hk & _).
  rewrite Hrun. intros k. cbn [snd]. rewrite Hk. destruct (decide _); auto.
Qed.

Lemma cleanPrefixed_only_removes E dir kind w :
  only_removes w (cleanPrefixed E dir kind w).2.
Proof.
  unfold cleanPrefixed, bind at 1. rewrite pathExists_run.
  destruct (exists_in w dir); [|apply only_removes_refl].
  unfold readdir_names, bind at 1, bind at 1.
  pose proof (readdir_world dir w) as Hw.
  destruct (readdir dir w) as [[es|e] w0]; cbn [snd] in Hw; subst w0;
    [|apply only_removes_refl].
  unfold ret at 1. unfold bind at 1.
  pose proof (removeEach_only_removes dir
                (List.filter (startsWith (js "bmad")) (List.map Dirent.name es)) 0%nat w)
    as Hrem.
  destruct (removeEach dir _ 0%nat w) as [[c|e] w1]; cbn [snd] in *; [|exact Hrem].
  unfold bind, log, ret. cbn [snd]. exact Hrem.
Qed.

Lemma cleanup_only_removes E projectDir w :
  only_removes w (cleanup E projectDir w).2.
Proof.
  unfold cleanup. unfold bind at 1.
  pose proof (cleanPrefixed_only_removes E (projectDir ++ [configDir; agentsDir])
                                         "agent" w) as H1.
  destruct (cleanPrefixed E (projectDir ++ [configDir; agentsDir]) "agent" w)
    as [[nA|e] w1]; cbn [snd] in *; [|exact H1].
  unfold bind at 1.
  pose proof (cleanPrefixed_only_removes E (projectDir ++ [configDir; js "commands"])
                                         "command" w1) as H2.
  destruct (cleanPrefixed E (projectDir ++ [configDir; js "commands"]) "command" w1)
    as [[nC|e] w2]; cbn [snd] in *; [|eapply only_removes_trans; eassumption].
  assert (H12 : only_removes w w2) by (eapply only_removes_trans; eassumption).
  unfold bind at 1. rewrite pathExists_run.
  destruct (exists_in w2 (projectDir ++ [configDir; js "steering"])).
  - unfold bind at 1, try_catch, bind at 1. rewrite remove_run.
    destruct (remove_fault (failures w2) (projectDir ++ [configDir; js "steering"])).
    + unfold log. cbn [snd]. exact H12.
    + unfold log. cbn [snd]. eapply only_removes_trans; [exact H12|].
      intros k. cbn [files set_files]. rewrite lookup_removed. destruct (decide _); auto.
  - unfold bind, ret, log. cbn [snd]. exact H12.
Qed.

Lemma detectInstallation_no_bmad E projectDir w :
  files w !! (projectDir ++ [bmadFolderName E]) = None ->
  exists w', detectInstallation E projectDir w
             = (Ok (Detection.mk (js "no-bmad") false), w')
             /\ files w' = files w /\ failures w' = failures w.
Proof.
  intros Hnone. unfold detectInstallation.
  unfold bind, log, pathExists, ret. cbn [files failures console].
  rewrite Hnone. cbn [negb]. eexists. split; [reflexivity|]. split; reflexivity.
Qed.

Lemma processAgents_throw E a rest aD pD sk n w e w1 :
  processAgentArtifact E a aD pD w = (Throw e, w1) ->
  processAgents E (a :: rest) aD pD sk n w
  = processAgents E rest aD pD (sk ++ [skippedAgent a e]) n (warned (skipWarning a e) w1).
Proof.
  intros H. cbn [processAgents]. unfold bind at 1, try_catch, bind at 1.
  rewrite H. reflexivity.
Qed.

Lemma processAgents_ok E a rest aD pD sk n w w1 :
  processAgentArtifact E a aD pD w = (Ok tt, w1) ->
  processAgents E (a :: rest) aD pD sk n w = processAgents E rest aD pD sk (S n) w1.
Proof.
  intros H. cbn [processAgents]. unfold bind at 1, try_catch, bind at 1.
  rewrite H. reflexivity.
Qed.

Lemma processAgents_total E arts aD pD : forall sk n w,
  exists sk' n' w',
    processAgents E arts aD pD sk n w = (Ok (sk', n'), w')
    /\ (n' + length sk' = n + length sk + length arts)%nat.
Proof.
  induction arts as [|a rest IH]; intros sk n w.
  - exists sk, n, w. split; [reflexivity|]. simpl. lia.
  - destruct (processAgentArtifact E a aD pD w) as [[[]|e] w1] eqn:Hrun.
    + rewrite (processAgents_ok _ _ _ _ _ _ _ _ _ Hrun).
      destruct (IH sk (S n) w1) as (sk' & n' & w' & Hr & Hcount).
      exists sk', n', w'. split; [exact Hr|]. simpl. lia.
    + rewrite (processAgents_throw _ _ _ _ _ _ _ _ _ _ Hrun).
      destruct (IH (sk ++ [skippedAgent a e]) n (warned (skipWarning a e) w1))
        as (sk' & n' & w' & Hr & Hcount).
      exists sk', n', w'. split; [exact Hr|].
      rewrite length_app in Hcount. simpl in *. lia.
Qed.

Lemma listable_same w w' dir :
  files w' = files w -> failures w' = failures w ->
  listable w dir -> listable w' dir.
Proof. unfold listable. intros -> ->. auto. Qed.

(** Without the BMAD folder, [setup] throws, and nothing is created on the
    way: the run only goes through the cleanup of its catch block. *)
Lemma setup_no_bmad E projectDir bmadDir w :
  files w !! (projectDir ++ [bmadFolderName E]) = None ->
  exists e w',
    setup E projectDir bmadDir w = (Throw e, w')
    /\ only_removes w w'
    /\ (listable w (kiro_agents projectDir) -> listable w (kiro_commands projectDir) ->
        e = cannotProceed E).
Proof.
  intros Hnone. unfold setup. unfold bind at 1. unfold log at 1.
  set (w0 := World (files w) (failures w) _).
  destruct (detectInstallation_no_bmad E projectDir w0 Hnone) as (w1 & Hdet & Hf1 & Hfa1).
  unfold try_catch. unfold bind at 1. rewrite Hdet.
  cbn [Detection.canProceed negb]. unfold bind at 1, throw at 1.
  unfold bind at 1, log at 1. unfold bind at 1, log at 1.
  set (w2 := World (files w1) (failures w1) _).
  unfold bind at 1.
  set (w3 := World (files w2) (failures w2) _).
  assert (Hfiles3 : files w3 = files w) by (cbn; rewrite Hf1; reflexivity).
  assert (Hfail3 : failures w3 = failures w) by (cbn; rewrite Hfa1; reflexivity).
  pose proof (cleanup_only_removes E projectDir w3) as Hshrink.
  assert (Hshrink' : only_removes w (cleanup E projectDir w3).2).
  { eapply only_removes_trans; [|exact Hshrink]. apply only_removes_files, Hfiles3. }
  destruct (cleanup E projectDir w3) as [[[]|e'] w4] eqn:Hclean; cbn [snd] in *.
  - exists (cannotProceed E), w4. unfold throw. auto.
  - exists e', w4. split; [reflexivity|]. split; [exact Hshrink'|].
    intros HlA HlC.
    destruct (cleanup_spec E projectDir w3
                (listable_same _ _ _ Hfiles3 Hfail3 HlA)
                (listable_same _ _ _ Hfiles3 Hfail3 HlC)) as (w5 & Hrun & _).
    congruence.
Qed.

Lemma setup_stages (E : Env) (projectDir bmadDir : path) (w : world) :
  setup E projectDir bmadDir w
  = match setup_collect E projectDir bmadDir (setup_started E w) with
    | (Ok agentArtifacts, w1) =>
        match processAgents E agentArtifacts ((projectDir ++ [configDir]) ++ [agentsDir])
                            projectDir [] 0 w1 with
        | (Ok acc, w2) =>
            try_catch (setup_generate E projectDir bmadDir acc.1 acc.2)
                      (setup_failed E projectDir) w2
        | (Throw e, w2) => setup_failed E projectDir e w2
        end
    | (Throw e, w1) => setup_failed E projectDir e w1
    end.
Proof.
  unfold setup, setup_collect, setup_generate, setup_failed, setup_started.
  unfold try_catch, bind, log, throw, ret. cbn [snd].
  destruct (detectInstallation E projectDir _) as [[detection|e] w0]; [|reflexivity].
  destruct (negb (Detection.canProceed detection)); [reflexivity|].
  destruct (cleanup E projectDir w0) as [[[]|e] w1]; [|reflexivity].
  destruct (ensureDir E _ w1) as [[[]|e] w2]; [|reflexivity].
  destruct (ensureDir E _ w2) as [[[]|e] w3]; [|reflexivity].
  destruct (discoverAllModules bmadDir w3) as [[allModules|e] w4]; [|reflexivity].
  destruct (collectAgentArtifacts E bmadDir allModules _) as [[agentArtifacts|e] w5];
    [|reflexivity].
  destruct (processAgents E agentArtifacts _ projectDir [] 0%nat w5) as [[acc|e] w6];
    reflexivity.
Qed.

Lemma processAgents_app E pre rest aD pD : forall sk n w,
  exists sk1 n1 w1,
    processAgents E pre aD pD sk n w = (Ok (sk1, n1), w1)
    /\ processAgents E (pre ++ rest) aD pD sk n w
       = processAgents E rest aD pD sk1 n1 w1.
Proof.
  induction pre as [|a pre IH]; intros sk n w.
  - exists sk, n, w. split; reflexivity.
  - rewrite <- app_comm_cons.
    destruct (processAgentArtifact E a aD pD w) as [[[]|e] w1] eqn:Hrun.
    + rewrite !(processAgents_ok _ _ _ _ _ _ _ _ _ Hrun). apply IH.
    + rewrite !(processAgents_throw _ _ _ _ _ _ _ _ _ _ Hrun). apply IH.
Qed.

Lemma setup_failed_throws E projectDir e w :
  exists e' w', setup_failed E projectDir e w = (Throw e', w').
Proof.
  unfold setup_failed, bind, log, throw.
  destruct (cleanup E projectDir _) as [[[]|e'] w']; eauto.
Qed.

(** C6.  The per-artifact boundary of [setup] and what aborts the run.  The
    loop over the agent artifacts never throws and accounts for every
    artifact as generated or skipped; an artifact whose processing throws is
    logged as a warning and recorded as a skipped agent with the error as its
    reason, and the loop goes on with the remaining artifacts exactly as it
    does after a success; whatever happened to the artifacts before it, each
    artifact of the list gets its turn.  In [setup] itself: once the artifacts
    are collected, the loop ends normally and [setup] goes on to generate the
    command and steering files with the counts the loop leaves.  A missing
    BMAD folder of the project makes [setup] throw, and nothing is created in
    the tree by such a run; any other failure before the loop makes [setup]
    throw as well, through its catch block. *)
Theorem setup_isolates_unit_failures (E : Env) :
  (forall arts agentsDir projectDir sk n w,
     exists sk' n' w',
       processAgents E arts agentsDir projectDir sk n w = (Ok (sk', n'), w')
       /\ (n' + length sk' = n + length sk + length arts)%nat)
  /\ (forall a rest agentsDir projectDir sk n w e w1,
        processAgentArtifact E a agentsDir projectDir w = (Throw e, w1) ->
        processAgents E (a :: rest) agentsDir projectDir sk n w
        = processAgents E rest agentsDir projectDir
            (sk ++ [SkippedItem.mk (js "agent") (Artifact.name a) e]) n
            (World (files w1) (failures w1)
                   (console w1
                    ++ [(LogWarn, js "  Warning: Failed to process agent "
                                  ++ Artifact.name a ++ js ": " ++ e)])))
  /\ (forall a rest agentsDir projectDir sk n w w1,
        processAgentArtifact E a agentsDir projectDir w = (Ok tt, w1) ->
        processAgents E (a :: rest) agentsDir projectDir sk n w
        = processAgents E rest agentsDir projectDir sk (S n) w1)
  /\ (forall projectDir bmadDir w,
        files w !! (projectDir ++ [bmadFolderName E]) = None ->
        exists e w',
          setup E projectDir bmadDir w = (Throw e, w')
          /\ only_removes w w'
          /\ (listable w (kiro_agents projectDir) ->
              listable w (kiro_commands projectDir) ->
              e = cannotProceed E))
  /\ (forall pre rest agentsDir projectDir sk n w,
        exists sk1 n1 w1,
          processAgents E pre agentsDir projectDir sk n w = (Ok (sk1, n1), w1)
          /\ processAgents E (pre ++ rest) agentsDir projectDir sk n w
             = processAgents E rest agentsDir projectDir sk1 n1 w1)
  /\ (forall projectDir bmadDir w agentArtifacts,
        (setup_collect E projectDir bmadDir (setup_started E w)).1 = Ok agentArtifacts ->
        exists sk n w2,
          processAgents E agentArtifacts (kiro_agents projectDir) projectDir [] 0
                        (setup_collect E projectDir bmadDir (setup_started E w)).2
          = (Ok (sk, n), w2)
          /\ (n + length sk = length agentArtifacts)%nat
          /\ setup E projectDir bmadDir w
             = try_catch (setup_generate E projectDir bmadDir sk n)
                         (setup_failed E projectDir) w2)
  /\ (forall projectDir bmadDir w e,
        (setup_collect E projectDir bmadDir (setup_started E w)).1 = Throw e ->
        setup E projectDir bmadDir w
        = setup_failed E projectDir e
                       (setup_collect E projectDir bmadDir (setup_started E w)).2
        /\ exists e' w', setup E projectDir bmadDir w = (Throw e', w')).
Proof.
  split; [intros; apply processAgents_total|].
  split; [intros; apply processAgents_throw; assumption|].
  split; [intros; apply processAgents_ok; assumption|].
  split; [intros; apply setup_no_bmad; assumption|].
  split; [intros; apply processAgents_app|].
  split.
  - intros projectDir bmadDir w agentArtifacts Hcollect.
    rewrite setup_stages.
    destruct (setup_collect E projectDir bmadDir (setup_started E w)) as [r w1].
    cbn [fst snd] in *. subst r.
    unfold kiro_agents. change [configDir; agentsDir] with ([configDir] ++ [agentsDir]).
    rewrite app_assoc.
    destruct (processAgents_total E agentArtifacts
                ((projectDir ++ [configDir]) ++ [agentsDir]) projectDir [] 0%nat w1)
      as (sk & n & w2 & Hloop & Hcount).
    exists sk, n, w2. rewrite Hloop. split; [reflexivity|].
    split; [simpl in Hcount; lia|reflexivity].
  - intros projectDir bmadDir w e Hcollect.
    rewrite setup_stages.
    destruct (setup_collect E projectDir bmadDir (setup_started E w)) as [r w1].
    cbn [fst snd] in *. subst r. split; [reflexivity|].
    apply setup_failed_throws.
Qed.

(** * The model at work *)

(** The two checks of the repository's schema test suite on
    [sanitizeAgentName]. *)
Example sanitizeAgentName_test_1 :
  sanitizeAgentName (demo_env []) (js "Test Agent Name!@#") = js "test-agent-name".
Proof. vm_compute. reflexivity. Qed.

Example sanitizeAgentName_test_2 :
  sanitizeAgentName (demo_env []) (js "BMad-BMM Product Manager")
  = js "bmad-bmm-product-manager".
Proof. vm_compute. reflexivity. Qed.

Lemma demo_document_parsed :
  parseCompiledAgent demo_document demo_artifact = Some demo_record.
Proof. vm_compute. reflexivity. Qed.

(** The round-trip scenario of the specification: the content document has
    the role section and the numbered menu entry, and the configuration is
    named after the unit. *)
Example round_trip :
  generatePrompt demo_record
  = js "# pm " ++ robot ++ [u_nl; u_nl]
    ++ js "## Role" ++ [u_nl] ++ js "Leads planning" ++ [u_nl; u_nl]
    ++ js "## Available Workflows" ++ [u_nl]
    ++ js "1. **plan**: Create plan" ++ [u_nl; u_nl]
    ++ instructions (js "pm")
  /\ createAgentConfig (demo_env []) (sanitizeAgentName (demo_env []) (agentName_of demo_artifact))
                       demo_record
     = Ok (AgentConfig.mk (js "bmad-core-pm") (js "pm - Leads planning")
                          (js "file://bmad-core-pm-prompt.md") [js "*"] ∅ true []).
Proof. split; vm_compute; reflexivity. Qed.

Lemma sanitizeAgentName_witness :
  lowercase_fixes_safe (demo_env [])
  /\ sanitizeAgentName (demo_env []) (js "Test Agent Name!@#")
     = sanitize_spec (demo_env []) (js "Test Agent Name!@#")
  /\ sanitizeAgentName (demo_env []) (sanitizeAgentName (demo_env []) (js "Test Agent Name!@#"))
     = sanitizeAgentName (demo_env []) (js "Test Agent Name!@#").
Proof.
  assert (Hlower : lowercase_fixes_safe (demo_env []))
    by exact ascii_toLowerCase_fixes_safe.
  split; [exact Hlower|].
  pose proof (sanitizeAgentName_composition_idempotent
                (demo_env []) (js "Test Agent Name!@#") Hlower) as (H1 & _ & _ & H4).
  split; assumption.
Defined.

Lemma bare_document_tag : has_agent_tag bare_document.
Proof.
  exists [], [32], (js "name=" ++ [u_quote] ++ js "pm" ++ [u_quote]), [].
  split; [reflexivity|]. split; [discriminate|]. split; [repeat constructor|].
  split; [discriminate|]. repeat constructor; discriminate.
Qed.

Lemma bare_document_no_block tag :
  js_match (re_block tag) bare_document = None -> ~ has_block tag bare_document.
Proof. intros H Hb. apply occurs_re_block in Hb. apply js_match_None in H. contradiction. Qed.

Lemma parseCompiledAgent_absences_witness :
  exists d, parseCompiledAgent bare_document demo_artifact = Some d
            /\ AgentData.role d = []
            /\ AgentData.identity d = []
            /\ AgentData.communicationStyle d = []
            /\ AgentData.principles d = PrinciplesText [].
Proof.
  destruct (proj1 (proj2 (parseCompiledAgent_absences bare_document demo_artifact)))
    as (d & Hd & H1 & H2 & H3 & H4 & _).
  - exact bare_document_tag.
  - apply bare_document_no_block. vm_compute. reflexivity.
  - exists d. auto.
Defined.

Lemma parseCompiledAgent_icon_default_witness :
  exists d, parseCompiledAgent bare_document demo_artifact = Some d
            /\ AgentData.icon d = robot.
Proof.
  destruct (parseCompiledAgent_icon_default
              bare_document demo_artifact
              (js "name=" ++ [u_quote] ++ js "pm" ++ [u_quote]))
    as (d & Hd & Hicon & _).
  - vm_compute. reflexivity.
  - intros H. apply occurs_re_attr in H.
    assert (Hn : js_match (re_attr "icon") (js "name=" ++ [u_quote] ++ js "pm" ++ [u_quote])
                 = None) by (vm_compute; reflexivity).
    apply js_match_None in Hn. contradiction.
  - exists d. split; assumption.
Defined.


Lemma createAgentConfig_description_prompt_witness :
  AgentConfig.description
    (agentConfig_of (sanitizeAgentName (demo_env []) (agentName_of demo_artifact)) demo_record)
  = js "pm" ++ js " - " ++ js "Leads planning".
Proof.
  apply (proj1 (proj2 (createAgentConfig_description_prompt
                         (demo_env []) (agentName_of demo_artifact) demo_record))).
  discriminate.
Defined.

Lemma createAgentConfig_validates_witness :
  exists msg,
    createAgentConfig (demo_env []) [] nameless_record = Throw msg
    /\ forall err, In err (validate_errors (demo_env []) (agentConfig_of [] nameless_record)) ->
         exists before after,
           msg = before ++ (ValidationError.instancePath err ++ js ": "
                            ++ ValidationError.message err) ++ after.
Proof.
  destruct (proj1 (proj2 (createAgentConfig_validates (demo_env []) [] nameless_record)))
    as (msg & Hthrow & _ & Hall).
  - vm_compute. reflexivity.
  - exists msg. split; assumption.
Defined.

(** Whatever the schema, the validator the installer compiles leaves one
    error at most, so the message names the first failure and no other. *)
Lemma validateAgentJson_first_violation
      (E : Env) (schema : list Ajv.rule) (config : AgentConfig.t)
      (first : ValidationError.t) (others : list ValidationError.t) :
  Ajv.violations schema config = first :: others ->
  validateAgentJson (with_schema E schema) config
  = Throw (js "Invalid agent schema: " ++ ValidationError.instancePath first
           ++ js ": " ++ ValidationError.message first).
Proof.
  intros Hv. unfold validateAgentJson.
  cbn [validate validate_errors with_schema]. unfold Ajv.validate, Ajv.errors.
  rewrite Hv. reflexivity.
Qed.

(** C4.  The error [createAgentConfig] throws does not list every violation.
    The object built for an empty identifier breaks both rules of the schema,
    on the length of the name and on its pattern; the validator, compiled
    without [allErrors], stops at the first, and the message thrown names
    the length alone.  No object is returned. *)
Theorem createAgentConfig_reports_first_error_only :
  Ajv.violations demo_schema (agentConfig_of [] nameless_record)
  = [ValidationError.mk (js "/name") (js "must NOT have fewer than 1 characters");
     ValidationError.mk (js "/name") (js "must match pattern ^bmad")]
  /\ validate_errors (demo_env []) (agentConfig_of [] nameless_record)
     = [ValidationError.mk (js "/name") (js "must NOT have fewer than 1 characters")]
  /\ createAgentConfig (demo_env []) [] nameless_record
     = Throw (js "Invalid agent schema: /name: must NOT have fewer than 1 characters").
Proof. split; [|split]; vm_compute; reflexivity. Qed.

Lemma demo_source_read w :
  files w !! demo_source = Some (File demo_document) ->
  (readFile (Artifact.sourcePath demo_artifact) w).1 = Ok demo_document.
Proof. intros H. unfold readFile. simpl Artifact.sourcePath. rewrite H. reflexivity. Qed.

(** C1.  The pair is not all-or-nothing.  On a fresh agents directory, for an
    artifact whose compiled file is read and whose record is extracted, the
    prompt file is written, the write of the configuration file fails for
    want of space, and the removal of the prompt file in the catch block
    fails in its turn; that failure is swallowed, the call throws the error
    of the write, and the prompt file is left alone in the directory, without
    its configuration file. *)
Theorem processAgentArtifact_leaves_half_pair :
  let run := processAgentArtifact (demo_env []) demo_artifact demo_agents demo_project
                                  halfway_world in
  (readFile (Artifact.sourcePath demo_artifact) halfway_world).1 = Ok demo_document
  /\ parseCompiledAgent demo_document demo_artifact = Some demo_record
  /\ files halfway_world !! promptPath_of (demo_env []) demo_agents demo_artifact = None
  /\ files halfway_world !! jsonPath_of (demo_env []) demo_agents demo_artifact = None
  /\ run.1 = Throw (js "ENOSPC: no space left on device")
  /\ files run.2 !! promptPath_of (demo_env []) demo_agents demo_artifact
     = Some (File (generatePrompt demo_record))
  /\ files run.2 !! jsonPath_of (demo_env []) demo_agents demo_artifact = None.
Proof. vm_compute. repeat split; reflexivity. Qed.

(** Hence the all-or-nothing reading of the pair fails in general. *)
Lemma pair_half_written : ~ pair_all_or_nothing.
Proof.
  intros H.
  specialize (H (demo_env []) demo_artifact demo_agents demo_project halfway_world
                demo_document demo_record).
  cbv zeta in H. destruct H as [_ H].
  - apply demo_source_read. vm_compute. reflexivity.
  - exact demo_document_parsed.
  - destruct H as [x Hx].
    + vm_compute. eauto.
    + vm_compute in Hx. discriminate.
Qed.

(** The same happens in a read-only directory that still holds the
    configuration file of an earlier installation: the call throws and the
    stale configuration file stays, without a prompt file. *)
Example pair_stale_in_readonly_directory :
  let run := processAgentArtifact (demo_env []) demo_artifact demo_agents demo_project
                                  readonly_world in
  run.1 = Throw EACCES
  /\ files run.2 !! demo_json_path = Some (File (js "{}"))
  /\ files run.2 !! demo_prompt_path = None.
Proof. vm_compute. auto. Qed.

Lemma processAgentArtifact_pair_witness :
  let run := processAgentArtifact (demo_env []) demo_artifact demo_agents demo_project
                                  demo_world in
  is_Some (files run.2 !! jsonPath_of (demo_env []) demo_agents demo_artifact)
  <-> is_Some (files run.2 !! promptPath_of (demo_env []) demo_agents demo_artifact).
Proof.
  apply (proj2 (proj2 (processAgentArtifact_pair
                         (demo_env []) demo_artifact demo_agents demo_project demo_world
                         demo_document demo_record
                         (demo_source_read demo_world eq_refl)
                         demo_document_parsed))); reflexivity.
Defined.


Example cleanup_throws_at_unlistable_directory :
  (cleanup (demo_env []) demo_project blocked_world).1 = Throw ENOTDIR.
Proof. vm_compute. reflexivity. Qed.



Lemma lost_artifact_fails :
  processAgentArtifact (demo_env []) lost_artifact demo_agents demo_project bare_world
  = (Throw ENOENT, bare_world).
Proof. reflexivity. Qed.

Lemma setup_isolates_unit_failures_witness :
  processAgents (demo_env []) [lost_artifact; demo_artifact] demo_agents demo_project
                [] 0 bare_world
  = processAgents (demo_env []) [demo_artifact] demo_agents demo_project
      [SkippedItem.mk (js "agent") (js "ghost") ENOENT] 0
      (World (files bare_world) (failures bare_world)
             (console bare_world
              ++ [(LogWarn, js "  Warning: Failed to process agent "
                            ++ js "ghost" ++ js ": " ++ ENOENT)]))
  /\ (exists e w',
        setup (demo_env []) demo_project demo_bmad bare_world = (Throw e, w')
        /\ only_removes bare_world w')
  /\ (exists w2,
        processAgents (demo_env [lost_artifact; demo_artifact])
                      [lost_artifact; demo_artifact] (kiro_agents demo_project)
                      demo_project [] 0
                      (setup_collect (demo_env [lost_artifact; demo_artifact])
                                     demo_project demo_bmad
                                     (setup_started (demo_env [lost_artifact; demo_artifact])
                                                    demo_world)).2
        = (Ok ([SkippedItem.mk (js "agent") (js "ghost") ENOENT], 1%nat), w2)
        /\ setup (demo_env [lost_artifact; demo_artifact]) demo_project demo_bmad demo_world
           = try_catch (setup_generate (demo_env [lost_artifact; demo_artifact])
                                       demo_project demo_bmad
                                       [SkippedItem.mk (js "agent") (js "ghost") ENOENT] 1)
                       (setup_failed (demo_env [lost_artifact; demo_artifact]) demo_project)
                       w2).
Proof.
  destruct (setup_isolates_unit_failures (demo_env [])) as (_ & Hthrow & _ & Hroot & _).
  split; [|split].
  - exact (Hthrow lost_artifact [demo_artifact] demo_agents demo_project [] 0%nat
                  bare_world ENOENT bare_world lost_artifact_fails).
  - destruct (Hroot demo_project demo_bmad bare_world) as (e & w' & Hrun & Hshrink & _).
    + reflexivity.
    + exists e, w'. split; assumption.
  - destruct (setup_isolates_unit_failures (demo_env [lost_artifact; demo_artifact]))
      as (_ & _ & _ & _ & _ & Hsetup & _).
    destruct (Hsetup demo_project demo_bmad demo_world [lost_artifact; demo_artifact])
      as (sk & n & w2 & Hloop & _ & Hrun).
    + vm_compute. reflexivity.
    + assert (Hacc : (processAgents (demo_env [lost_artifact; demo_artifact])
                        [lost_artifact; demo_artifact] (kiro_agents demo_project)
                        demo_project [] 0
                        (setup_collect (demo_env [lost_artifact; demo_artifact])
                           demo_project demo_bmad
                           (setup_started (demo_env [lost_artifact; demo_artifact])
                                          demo_world)).2).1
                     = Ok ([SkippedItem.mk (js "agent") (js "ghost") ENOENT], 1%nat))
        by (vm_compute; reflexivity).
      rewrite Hloop in Hacc. cbn [fst] in Hacc. injection Hacc as -> ->.
      exists w2. split; [exact Hloop|exact Hrun].
Defined.

(** C6 as the claim words it does not hold: a missing input root is not the
    only thing that aborts the run.  With the BMAD folder in place and a
    regular file where the agents directory should be, listing it fails in
    [cleanup] and [setup] throws. *)
Lemma setup_aborts_with_root_present : ~ only_missing_root_aborts.
Proof.
  intros H.
  destruct (H (demo_env []) demo_project demo_bmad blocked_world ENOTDIR) as [Hroot|Hroot].
  - vm_compute. reflexivity.
  - vm_compute in Hroot. discriminate.
  - vm_compute in Hroot. discriminate.
Qed.

(** Nor does a missing [bmadDir] abort the run by itself: [setup] checks the
    BMAD folder of the project, and discovery in a [bmadDir] that is not
    there logs a warning and finds no module; with generators that find
    nothing either, the run completes. *)
Example setup_with_missing_bmadDir :
  let run := setup (demo_env []) demo_project (demo_project ++ [js "elsewhere"])
                   demo_world in
  files demo_world !! (demo_project ++ [js "elsewhere"]) = None
  /\ run.1 = Ok tt
  /\ In (LogWarn, js "  Warning: Failed to discover modules: " ++ ENOENT) (console run.2).
Proof.
  vm_compute. split; [reflexivity|]. split; [reflexivity|]. auto 20.
Qed.

Lemma discoverAllModules_listing_witness :
  discoverAllModules demo_bmad demo_world = (Ok [js "core"], demo_world)
  /\ discoverAllModules demo_bmad unlistable_world
     = (Ok [js "core"],
        warned (js "  Warning: Failed to discover modules: " ++ EACCES) unlistable_world).
Proof.
  destruct (discoverAllModules_listing demo_bmad demo_world) as [Hok _].
  destruct (discoverAllModules_listing demo_bmad unlistable_world) as [_ Hfail].
  split.
  - destruct (Hok [Dirent.mk (js "core") true]) as [Hrun _];
      [vm_compute; reflexivity|]. exact Hrun.
  - apply Hfail. vm_compute. reflexivity.
Defined.

(** C8.  [discoverAllModules] does not ask for [agents] to be a
    subdirectory: it tests that the path exists.  In an input root with the
    module [core] and a directory [bmm] in which [agents] is a regular file,
    it returns [core] and [bmm], although [bmm] contains no [agents]
    subdirectory. *)
Theorem discoverAllModules_takes_file_for_marker :
  files marker_file_world !! (demo_bmad ++ [js "bmm"]) = Some Dir
  /\ files marker_file_world !! (demo_bmad ++ [js "bmm"; js "agents"])
     = Some (File (js "pm, analyst"))
  /\ (readdir demo_bmad marker_file_world).1
     = Ok [Dirent.mk (js "bmm") true; Dirent.mk (js "core") true]
  /\ discoverAllModules demo_bmad marker_file_world
     = (Ok [js "core"; js "bmm"], marker_file_world).
Proof. vm_compute. repeat split; reflexivity. Qed.

(** C10 as the claim words it does not hold: the icon pattern is looked for
    anywhere in the attribute text, so the value of an attribute whose name
    ends in [icon] is taken for the icon.  The tag of [lexicon_document] has
    the one attribute [lexicon], and the record's icon is its value. *)
Lemma icon_taken_from_longer_name : ~ icon_default_without_attribute.
Proof.
  intros H.
  destruct (H lexicon_document demo_artifact lexicon_attrs) as (d & Hd & Hicon).
  - vm_compute. reflexivity.
  - intros (pre & value & post & Heq & _ & _ & Hstart).
    vm_compute in Heq.
    do 3 (destruct pre as [|? pre]; cbn [app] in Heq;
          [discriminate Heq|injection Heq as <- Heq]).
    destruct pre as [|? pre]; cbn [app] in Heq.
    + vm_compute in Hstart. discriminate Hstart.
    + injection Heq as <- Heq.
      do 9 (destruct pre as [|? pre]; cbn [app] in Heq;
             [discriminate Heq|injection Heq as <- Heq]).
      destruct pre; discriminate Heq.
  - vm_compute in Hd. injection Hd as <-. vm_compute in Hicon. discriminate Hicon.
Qed.

(** An attribute named [key] is in particular an occurrence of the attribute
    pattern, so a tag without any occurrence has no such attribute. *)
Lemma attribute_named_has_attr (key : string) (attrs : jsstring) :
  attribute_named key attrs -> has_attr key attrs.
Proof.
  intros (pre & value & post & Heq & Hne & Hq & _). exists pre, value, post. auto.
Qed.

(** Every match of the item pattern is non-empty, so the rounds given to the
    [exec] loop are enough. *)
Lemma re_item_progress t caps : matches re_item t caps -> t <> [].
Proof.
  unfold re_item. intros H. apply matches_lits_elim in H as (u & -> & _). discriminate.
Qed.

Lemma exec_all_item_fuel s fuel :
  (length s < fuel)%nat -> exec_go fuel re_item s = exec_all re_item s.
Proof.
  intros H. unfold exec_all. apply exec_go_fuel; [apply re_item_progress|lia|lia].
Qed.

(** One unit failing does not stop the run: with a missing compiled file
    first in the list, [setup] still returns normally, writes the pair of the
    second artifact, warns about the first and leaves the user's file alone. *)
Example setup_skips_and_continues :
  let run := setup (demo_env [lost_artifact; demo_artifact]) demo_project demo_bmad
                   demo_world in
  run.1 = Ok tt
  /\ files run.2 !! demo_prompt_path = Some (File (generatePrompt demo_record))
  /\ is_Some (files run.2 !! demo_json_path)
  /\ files run.2 !! (demo_agents ++ [js "user-agent.json"]) = Some (File (js "{}"))
  /\ files run.2 !! (demo_commands ++ [js "bmad-help.md"]) = None
  /\ In (LogWarn, js "  Warning: Failed to process agent ghost: " ++ ENOENT)
        (console run.2).
Proof.
  vm_compute. repeat split; eauto.
  do 11 right. left. reflexivity.
Qed.

(** With no module in the input tree, discovery finds nothing and the run
    completes without writing any agent file. *)
Example setup_on_empty_input :
  let w := World (list_to_map [(demo_project, Dir); (demo_bmad, Dir)]) no_faults [] in
  (discoverAllModules demo_bmad w).1 = Ok []
  /\ (setup (demo_env []) demo_project demo_bmad w).1 = Ok tt.
Proof. vm_compute. split; reflexivity. Qed.

(** * Further properties of the installer *)

(** ** Installation state detector *)

Lemma only_logs_refl w : only_logs w w.
Proof. split; [reflexivity|]. split; [reflexivity|]. exists []. symmetry. apply app_nil_r. Qed.

Lemma only_logs_trans w1 w2 w3 : only_logs w1 w2 -> only_logs w2 w3 -> only_logs w1 w3.
Proof.
  intros (Hf & Hx & m & Hc) (Hf' & Hx' & m' & Hc').
  split; [congruence|]. split; [congruence|].
  exists (m ++ m'). rewrite Hc', Hc, app_assoc. reflexivity.
Qed.

Lemma log_only_logs l msg w : only_logs w (log l msg w).2.
Proof. split; [reflexivity|]. split; [reflexivity|]. eexists. reflexivity. Qed.

Lemma detectInstallation_missing_folder (E : Env) (projectDir : path) (w : world) :
  files w !! (projectDir ++ [bmadFolderName E]) = None ->
  exists w',
    detectInstallation E projectDir w = (Ok (Detection.mk (js "no-bmad") false), w')
    /\ only_logs w w'.
Proof.
  intros Hnone. unfold detectInstallation.
  unfold bind, log, pathExists, ret. cbn [files failures console].
  rewrite Hnone. cbn [negb]. eexists. split; [reflexivity|].
  split; [reflexivity|]. split; [reflexivity|].
  cbn [console]. rewrite <- ?app_assoc. eexists. reflexivity.
Qed.

(** X1.  [detectInstallation] never throws and leaves the tree alone; it
    reports [no-bmad] (cannot proceed) exactly when the BMAD folder of the
    project is missing, [upgrade] when that folder and [.kiro] both exist and
    [new] when only the BMAD folder exists.  Whether [.kiro/agents] and
    [.kiro/commands] exist changes the log lines and nothing else. *)
Theorem detectInstallation_states (E : Env) (projectDir : path) (w : world) :
  exists w',
    detectInstallation E projectDir w = (Ok (detection_of E projectDir w), w')
    /\ only_logs w w'
    /\ (Detection.canProceed (detection_of E projectDir w)
        = exists_in w (projectDir ++ [bmadFolderName E])).
Proof.
  unfold detectInstallation, detection_of.
  unfold bind at 1. unfold log at 1. cbv beta iota.
  repeat (unfold bind at 1; rewrite pathExists_run; unfold exists_in at 1;
          cbn [files]).
  unfold exists_in.
  destruct (files w !! (projectDir ++ [bmadFolderName E])); cbn [negb].
  - destruct (files w !! (projectDir ++ [configDir])).
    + destruct (files w !! ((projectDir ++ [configDir]) ++ [agentsDir]));
        destruct (files w !! ((projectDir ++ [configDir]) ++ [js "commands"]));
        unfold bind, log, ret; cbn [files failures console];
        (eexists; split; [reflexivity|]; split; [|reflexivity];
         split; [reflexivity|]; split; [reflexivity|];
         cbn [console]; rewrite <- ?app_assoc; eexists; reflexivity).
    + unfold bind, log, ret. eexists. split; [reflexivity|]. split; [|reflexivity].
      split; [reflexivity|]. split; [reflexivity|].
      cbn [console]. rewrite <- ?app_assoc. eexists. reflexivity.
  - unfold bind, log, ret. eexists. split; [reflexivity|]. split; [|reflexivity].
    split; [reflexivity|]. split; [reflexivity|].
    cbn [console]. rewrite <- ?app_assoc. eexists. reflexivity.
Qed.

(** ** Cleanup, whatever fails *)

Lemma removeEach_outside dir names count w r w' :
  removeEach dir names count w = (r, w') ->
  failures w' = failures w
  /\ forall k, (forall n, ~ dir ++ [n] `prefix_of` k) -> files w' !! k = files w !! k.
Proof.
  intros Hrun.
  destruct (removeEach_spec dir names count w) as (c & w1 & Hrun1 & Hf & Hk & _).
  rewrite Hrun1 in Hrun. injection Hrun as <- <-. split; [exact Hf|].
  intros k Hout. rewrite Hk. destruct (decide _) as [H|H]; [|reflexivity].
  apply Exists_exists in H as (n & _ & _ & Hp). exfalso. exact (Hout n Hp).
Qed.

Lemma cleanPrefixed_outside E dir kind w r w' :
  cleanPrefixed E dir kind w = (r, w') ->
  failures w' = failures w
  /\ forall k, (forall n, ~ dir ++ [n] `prefix_of` k) -> files w' !! k = files w !! k.
Proof.
  unfold cleanPrefixed, bind at 1. rewrite pathExists_run.
  destruct (exists_in w dir).
  2:{ unfold ret. intros [= <- <-]. split; reflexivity. }
  unfold readdir_names, bind at 1, bind at 1.
  pose proof (readdir_world dir w) as Hw.
  destruct (readdir dir w) as [[es|e] w0]; cbn [snd] in Hw; subst w0.
  2:{ intros [= <- <-]. split; reflexivity. }
  unfold ret at 1. unfold bind at 1.
  pose proof (removeEach_outside dir
                (List.filter (startsWith (js "bmad")) (List.map Dirent.name es)) 0%nat w)
    as Hrem.
  destruct (removeEach dir _ 0%nat w) as [[c|e] w1].
  - specialize (Hrem _ _ eq_refl). unfold bind, log, ret. intros [= <- <-].
    cbn [files failures]. exact Hrem.
  - specialize (Hrem _ _ eq_refl). intros [= <- <-]. exact Hrem.
Qed.

(** Whether it returns or throws, [cleanup] keeps the failure behaviour of
    the world and every path that is neither below an entry of the agents or
    commands directory nor at or below the steering directory. *)
Lemma cleanup_outside E projectDir w r w' :
  cleanup E projectDir w = (r, w') ->
  failures w' = failures w
  /\ forall k,
       (forall n, ~ kiro_agents projectDir ++ [n] `prefix_of` k) ->
       (forall n, ~ kiro_commands projectDir ++ [n] `prefix_of` k) ->
       ~ kiro_steering projectDir `prefix_of` k ->
       files w' !! k = files w !! k.
Proof.
  unfold kiro_agents, kiro_commands, kiro_steering, cleanup. unfold bind at 1.
  pose proof (cleanPrefixed_outside E (projectDir ++ [configDir; agentsDir]) "agent" w)
    as H1.
  destruct (cleanPrefixed E (projectDir ++ [configDir; agentsDir]) "agent" w)
    as [[nA|e] w1]; destruct (H1 _ _ eq_refl) as [Hf1 Hk1]; clear H1.
  2:{ intros [= <- <-]. split; [exact Hf1|]. intros; apply Hk1; assumption. }
  unfold bind at 1.
  pose proof (cleanPrefixed_outside E (projectDir ++ [configDir; js "commands"])
                                    "command" w1) as H2.
  destruct (cleanPrefixed E (projectDir ++ [configDir; js "commands"]) "command" w1)
    as [[nC|e] w2]; destruct (H2 _ _ eq_refl) as [Hf2 Hk2]; clear H2.
  2:{ intros [= <- <-]. split; [congruence|]. intros k HA HC HS.
      rewrite Hk2 by assumption. apply Hk1; assumption. }
  unfold bind at 1. rewrite pathExists_run.
  destruct (exists_in w2 (projectDir ++ [configDir; js "steering"])).
  - unfold bind at 1, try_catch, bind at 1. rewrite remove_run.
    destruct (remove_fault (failures w2) (projectDir ++ [configDir; js "steering"])).
    + unfold log. intros [= <- <-]. cbn [files failures]. split; [congruence|].
      intros k HA HC HS. rewrite Hk2 by assumption. apply Hk1; assumption.
    + unfold log. intros [= <- <-]. cbn [files failures set_files]. split; [congruence|].
      intros k HA HC HS. rewrite lookup_removed.
      destruct (decide _); [contradiction|]. rewrite Hk2 by assumption.
      apply Hk1; assumption.
  - unfold bind, ret, log. intros [= <- <-]. cbn [files failures]. split; [congruence|].
    intros k HA HC HS. rewrite Hk2 by assumption. apply Hk1; assumption.
Qed.

Lemma shorter_not_prefixed (p k : path) :
  (length k < length p)%nat -> ~ p `prefix_of` k.
Proof. intros Hl Hp. apply prefix_length in Hp. lia. Qed.

Lemma cleanup_keeps_directories E projectDir w r w' (x : jsstring) :
  cleanup E projectDir w = (r, w') ->
  files w' !! (projectDir ++ [configDir; x]) = files w !! (projectDir ++ [configDir; x])
  \/ x = js "steering".
Proof.
  intros Hrun. destruct (cleanup_outside _ _ _ _ _ Hrun) as [_ Hk].
  destruct (decide (x = js "steering")) as [->|Hx]; [right; reflexivity|left].
  unfold kiro_agents, kiro_commands, kiro_steering in Hk.
  apply Hk.
  - intros n. apply shorter_not_prefixed. rewrite !length_app. simpl. lia.
  - intros n. apply shorter_not_prefixed. rewrite !length_app. simpl. lia.
  - intros [t Ht]. apply (f_equal (drop (length projectDir))) in Ht.
    rewrite <- app_assoc, !drop_app_length in Ht. injection Ht as Ht _. congruence.
Qed.

(** X2.  [cleanup] never reaches outside the [.kiro] folder of the project:
    whatever is in the tree, whatever fails, and whether [cleanup] returns or
    throws, the failure behaviour of the world is what it was, every path
    that is not below [.kiro] holds what it held, and so do [.kiro] itself
    and its agents and commands directories. *)
Theorem cleanup_confined (E : Env) (projectDir : path) (w : world) :
  failures (cleanup E projectDir w).2 = failures w
  /\ (forall k, ~ projectDir ++ [configDir] `prefix_of` k ->
                files (cleanup E projectDir w).2 !! k = files w !! k)
  /\ files (cleanup E projectDir w).2 !! (projectDir ++ [configDir])
     = files w !! (projectDir ++ [configDir])
  /\ files (cleanup E projectDir w).2 !! kiro_agents projectDir
     = files w !! kiro_agents projectDir
  /\ files (cleanup E projectDir w).2 !! kiro_commands projectDir
     = files w !! kiro_commands projectDir.
Proof.
  destruct (cleanup E projectDir w) as [r w'] eqn:Hrun. cbn [snd].
  destruct (cleanup_outside _ _ _ _ _ Hrun) as [Hf Hk].
  split; [exact Hf|]. split; [|split; [|split]].
  - intros k Hout. unfold kiro_agents, kiro_commands, kiro_steering in Hk.
    assert (Hsub : forall x r, ~ (projectDir ++ [configDir; x]) ++ r `prefix_of` k).
    { intros x t [u Hu]. apply Hout. exists ([x] ++ t ++ u).
      rewrite Hu, <- !app_assoc. reflexivity. }
    apply Hk; [intros n; apply Hsub|intros n; apply Hsub|].
    rewrite <- (app_nil_r (projectDir ++ _)). apply Hsub.
  - unfold kiro_agents, kiro_commands, kiro_steering in Hk.
    apply Hk; [intros n|intros n|]; apply shorter_not_prefixed;
      rewrite !length_app; simpl; lia.
  - destruct (cleanup_keeps_directories _ _ _ _ _ agentsDir Hrun) as [H|H];
      [exact H|discriminate H].
  - destruct (cleanup_keeps_directories _ _ _ _ _ (js "commands") Hrun) as [H|H];
      [exact H|discriminate H].
Qed.

Lemma nothing_left_to_sweep E projectDir w w1 :
  cleanup E projectDir w = (Ok tt, w1) ->
  listable w (kiro_agents projectDir) ->
  listable w (kiro_commands projectDir) ->
  (forall p, remove_fault (failures w) p = None) ->
  forall k, ~ swept w1 (kiro_agents projectDir) k
            /\ ~ swept w1 (kiro_commands projectDir) k
            /\ ~ steering_swept w1 projectDir k.
Proof.
  intros Hrun HA HC Hnf.
  destruct (cleanup_spec E projectDir w HA HC) as (w1' & Hrun' & Hf & Hsw & _).
  rewrite Hrun in Hrun'. injection Hrun' as <-.
  pose proof (cleanup_only_removes E projectDir w) as Hshrink.
  rewrite Hrun in Hshrink. cbn [snd] in Hshrink.
  assert (Hsome : forall p, is_Some (files w1 !! p) -> is_Some (files w !! p)).
  { intros p Hp. destruct (Hshrink p) as [H|H]; rewrite H in Hp; [|exact Hp].
    destruct Hp as [? Hp]. discriminate Hp. }
  assert (Hgone : forall p, is_Some (files w1 !! p) -> files w1 !! p = None -> False).
  { intros p [? Hp] Hn. rewrite Hn in Hp. discriminate Hp. }
  assert (Hdir : forall x k, x = agentsDir \/ x = js "commands" ->
                             ~ swept w1 (projectDir ++ [configDir; x]) k).
  { intros x k Hx (Hd & n & Hn & Hin & _ & _).
    apply (Hgone _ Hin). apply Hsw.
    assert (swept w (projectDir ++ [configDir; x])
                  ((projectDir ++ [configDir; x]) ++ [n])) as Hs.
    { split.
      - destruct (cleanup_keeps_directories _ _ _ _ _ x Hrun) as [H|H].
        + rewrite <- H. exact Hd.
        + destruct Hx as [->| ->]; discriminate H.
      - exists n. split; [exact Hn|]. split; [apply Hsome; exact Hin|].
        split; [apply Hnf|reflexivity]. }
    destruct Hx as [->| ->]; [left|right; left]; exact Hs. }
  intros k. split; [apply Hdir; left; reflexivity|].
  split; [apply Hdir; right; reflexivity|].
  intros (Hin & _ & _). apply (Hgone _ Hin). apply Hsw. right. right.
  split; [apply Hsome; exact Hin|]. split; [apply Hnf|reflexivity].
Qed.

(** X3.  [cleanup] is idempotent: where the agents and commands directories
    can be listed and no removal fails, a second [cleanup] right after the
    first returns as well and finds nothing more to remove. *)
Theorem cleanup_idempotent (E : Env) (projectDir : path) (w : world) :
  listable w (kiro_agents projectDir) ->
  listable w (kiro_commands projectDir) ->
  (forall p, remove_fault (failures w) p = None) ->
  exists w1 w2,
    cleanup E projectDir w = (Ok tt, w1)
    /\ cleanup E projectDir w1 = (Ok tt, w2)
    /\ files w2 = files w1
    /\ failures w2 = failures w.
Proof.
  intros HA HC Hnf.
  destruct (cleanup_spec E projectDir w HA HC) as (w1 & Hrun1 & Hf1 & _).
  pose proof (nothing_left_to_sweep _ _ _ _ Hrun1 HA HC Hnf) as Hnone.
  assert (Hl : forall x, x = agentsDir \/ x = js "commands" ->
                         listable w (projectDir ++ [configDir; x]) ->
                         listable w1 (projectDir ++ [configDir; x])).
  { intros x Hx Hl. unfold listable in *. rewrite Hf1.
    destruct (cleanup_keeps_directories _ _ _ _ _ x Hrun1) as [H|H].
    - rewrite H. exact Hl.
    - destruct Hx as [->| ->]; discriminate H. }
  destruct (cleanup_spec E projectDir w1) as (w2 & Hrun2 & Hf2 & _ & Hkeep & _).
  { apply Hl; [left; reflexivity|exact HA]. }
  { apply Hl; [right; reflexivity|exact HC]. }
  exists w1, w2. split; [exact Hrun1|]. split; [exact Hrun2|].
  split; [|congruence].
  apply map_eq. intros k. destruct (Hnone k) as (H1 & H2 & H3).
  apply Hkeep; assumption.
Qed.

Lemma cleanup_idempotent_witness :
  exists w1 w2,
    cleanup (demo_env []) demo_project stale_world = (Ok tt, w1)
    /\ cleanup (demo_env []) demo_project w1 = (Ok tt, w2)
    /\ files w2 = files w1
    /\ failures w2 = failures stale_world.
Proof.
  apply (cleanup_idempotent (demo_env []) demo_project stale_world).
  - right. split; reflexivity.
  - left. reflexivity.
  - intros p. reflexivity.
Defined.

(** ** A failed installation *)

Lemma try_catch_throw {A} (body : M A) (handler : error -> M A) w e :
  (try_catch body handler w).1 = Throw e ->
  exists e0 wb, body w = (Throw e0, wb) /\ try_catch body handler w = handler e0 wb.
Proof.
  unfold try_catch. destruct (body w) as [[a|e0] wb]; [discriminate|].
  intros _. exists e0, wb. split; reflexivity.
Qed.

(** The last thing a throwing [setup] does is a [cleanup]. *)
Lemma setup_throw_ends_in_cleanup E projectDir bmadDir w e :
  (setup E projectDir bmadDir w).1 = Throw e ->
  exists w0, (setup E projectDir bmadDir w).2 = (cleanup E projectDir w0).2.
Proof.
  remember (setup E projectDir bmadDir w) as r eqn:Hr.
  unfold setup, bind at 1, log at 1 in Hr. intros H. rewrite Hr in H.
  apply try_catch_throw in H as (e0 & wb & _ & Heq). rewrite Heq in Hr. subst r.
  unfold bind at 1, log at 1. unfold bind at 1, log at 1. unfold bind at 1.
  match goal with
  | |- context [cleanup E projectDir ?x] =>
      exists x; destruct (cleanup E projectDir x) as [[[]|e1] w1]; reflexivity
  end.
Qed.

(** X4.  A failed installation leaves no output behind.  Whenever [setup]
    throws, it has just run [cleanup]; so if, in the state it leaves, the
    agents and commands directories can be listed and no removal fails, then
    no entry with the reserved prefix is left in either directory and the
    steering directory is gone. *)
Theorem setup_failure_leaves_no_output
        (E : Env) (projectDir bmadDir : path) (w : world) (e : error) :
  (setup E projectDir bmadDir w).1 = Throw e ->
  let w' := (setup E projectDir bmadDir w).2 in
  listable w' (kiro_agents projectDir) ->
  listable w' (kiro_commands projectDir) ->
  (forall p, remove_fault (failures w') p = None) ->
  (forall dir n,
     dir = kiro_agents projectDir \/ dir = kiro_commands projectDir ->
     files w' !! dir = Some Dir ->
     startsWith (js "bmad") n = true ->
     files w' !! (dir ++ [n]) = None)
  /\ files w' !! kiro_steering projectDir = None.
Proof.
  intros Hthrow w'. subst w'.
  destruct (setup_throw_ends_in_cleanup _ _ _ _ _ Hthrow) as [w0 ->].
  destruct (cleanup E projectDir w0) as [r w'] eqn:Hrun. cbn [snd].
  intros HA HC Hnf.
  destruct (cleanup_outside _ _ _ _ _ Hrun) as [Hf _].
  assert (Hd : forall x, x = agentsDir \/ x = js "commands" ->
                         files w' !! (projectDir ++ [configDir; x])
                         = files w0 !! (projectDir ++ [configDir; x])).
  { intros x Hx. destruct (cleanup_keeps_directories _ _ _ _ _ x Hrun) as [H|H];
      [exact H|]. destruct Hx as [->| ->]; discriminate H. }
  assert (HA0 : listable w0 (kiro_agents projectDir)).
  { unfold listable, kiro_agents in *. rewrite <- Hf, <- Hd by (left; reflexivity).
    exact HA. }
  assert (HC0 : listable w0 (kiro_commands projectDir)).
  { unfold listable, kiro_commands in *. rewrite <- Hf, <- Hd by (right; reflexivity).
    exact HC. }
  destruct (cleanup_spec E projectDir w0 HA0 HC0) as (w1 & Hrun1 & _ & Hsw & Hkeep & _).
  rewrite Hrun in Hrun1. injection Hrun1 as -> <-.
  pose proof (cleanup_only_removes E projectDir w0) as Hshrink.
  rewrite Hrun in Hshrink. cbn [snd] in Hshrink.
  split.
  - intros dir n Hdir Hdir' Hn.
    destruct (files w0 !! (dir ++ [n])) as [x|] eqn:Hx.
    + apply Hsw.
      assert (swept w0 dir (dir ++ [n])) as Hs.
      { split.
        - destruct Hdir as [->| ->]; unfold kiro_agents, kiro_commands in *;
            [rewrite <- Hd by (left; reflexivity)|rewrite <- Hd by (right; reflexivity)];
            exact Hdir'.
        - exists n. split; [exact Hn|]. split; [rewrite Hx; eauto|].
          split; [rewrite <- Hf; apply Hnf|reflexivity]. }
      destruct Hdir as [->| ->]; [left|right; left]; exact Hs.
    + destruct (Hshrink (dir ++ [n])) as [H|H]; [exact H|congruence].
  - destruct (files w0 !! kiro_steering projectDir) as [x|] eqn:Hx.
    + apply Hsw. right. right. split; [rewrite Hx; eauto|].
      split; [rewrite <- Hf; apply Hnf|reflexivity].
    + destruct (Hshrink (kiro_steering projectDir)) as [H|H]; [exact H|congruence].
Qed.

Lemma stale_world_fails :
  (setup (demo_env []) demo_project demo_bmad stale_world).1
  = Throw (cannotProceed (demo_env [])).
Proof. vm_compute. reflexivity. Qed.

Lemma setup_failure_leaves_no_output_witness :
  files (setup (demo_env []) demo_project demo_bmad stale_world).2
        !! (demo_agents ++ [js "bmad-core-pm.json"]) = None
  /\ files (setup (demo_env []) demo_project demo_bmad stale_world).2
            !! kiro_steering demo_project = None.
Proof.
  destruct (setup_failure_leaves_no_output (demo_env []) demo_project demo_bmad
              stale_world _ stale_world_fails) as [Hentries Hsteering].
  - right. split; vm_compute; reflexivity.
  - left. vm_compute. reflexivity.
  - intros p. vm_compute. reflexivity.
  - split; [|exact Hsteering].
    apply (Hentries demo_agents (js "bmad-core-pm.json"));
      [left; reflexivity|vm_compute; reflexivity|reflexivity].
Defined.

(** ** Artifacts that write nothing *)

(** X5.  A compiled file that can be read but has no agent tag is passed
    over in silence: [processAgentArtifact] returns normally and leaves the
    world exactly as it was, and the loop of [setup] nevertheless counts the
    artifact as a generated agent. *)
Theorem processAgentArtifact_without_tag
        (E : Env) (artifact : Artifact.t) (rest : list Artifact.t)
        (agentsDir projectDir : path) (skippedItems : list SkippedItem.t)
        (agentCount : nat) (w : world) (content : jsstring) :
  files w !! Artifact.sourcePath artifact = Some (File content) ->
  ~ has_agent_tag content ->
  processAgentArtifact E artifact agentsDir projectDir w = (Ok tt, w)
  /\ processAgents E (artifact :: rest) agentsDir projectDir skippedItems agentCount w
     = processAgents E rest agentsDir projectDir skippedItems (S agentCount) w.
Proof.
  intros Hfile Htag.
  assert (Hrun : processAgentArtifact E artifact agentsDir projectDir w = (Ok tt, w)).
  { unfold processAgentArtifact, bind, readFile. rewrite Hfile.
    apply agent_attrs_None in Htag.
    apply (parseCompiledAgent_None content artifact) in Htag. rewrite Htag. reflexivity. }
  split; [exact Hrun|]. apply processAgents_ok. exact Hrun.
Qed.

Lemma processAgentArtifact_without_tag_witness :
  processAgentArtifact (demo_env []) demo_artifact demo_agents demo_project
    (World (<[demo_source := File (js "# Product Manager")]> fresh_tree) no_faults [])
  = (Ok tt, World (<[demo_source := File (js "# Product Manager")]> fresh_tree) no_faults [])
  /\ processAgents (demo_env []) [demo_artifact] demo_agents demo_project [] 0
       (World (<[demo_source := File (js "# Product Manager")]> fresh_tree) no_faults [])
     = processAgents (demo_env []) [] demo_agents demo_project [] 1
         (World (<[demo_source := File (js "# Product Manager")]> fresh_tree) no_faults []).
Proof.
  apply (processAgentArtifact_without_tag (demo_env []) demo_artifact [] demo_agents
           demo_project [] 0%nat _ (js "# Product Manager")).
  - vm_compute. reflexivity.
  - apply agent_attrs_None. vm_compute. reflexivity.
Defined.

(** X6.  A source that cannot be read stops [processAgentArtifact] before
    its own [try]: the read error is thrown as it is, nothing is written and
    nothing is removed, so a pair left at the same paths by an earlier
    installation stays; the loop of [setup] records the artifact as skipped
    with that error as the reason. *)
Theorem processAgentArtifact_unreadable
        (E : Env) (artifact : Artifact.t) (rest : list Artifact.t)
        (agentsDir projectDir : path) (skippedItems : list SkippedItem.t)
        (agentCount : nat) (w : world) (e : error) :
  (readFile (Artifact.sourcePath artifact) w).1 = Throw e ->
  processAgentArtifact E artifact agentsDir projectDir w = (Throw e, w)
  /\ processAgents E (artifact :: rest) agentsDir projectDir skippedItems agentCount w
     = processAgents E rest agentsDir projectDir
         (skippedItems ++ [SkippedItem.mk (js "agent") (Artifact.name artifact) e])
         agentCount (warned (skipWarning artifact e) w).
Proof.
  intros Hread.
  assert (Hrun : processAgentArtifact E artifact agentsDir projectDir w = (Throw e, w)).
  { unfold processAgentArtifact, bind.
    pose proof (readFile_world (Artifact.sourcePath artifact) w) as Hw.
    destruct (readFile (Artifact.sourcePath artifact) w) as [[c|e'] w0].
    - discriminate Hread.
    - cbn [fst snd] in *. congruence. }
  split; [exact Hrun|].
  apply (processAgents_throw E artifact rest agentsDir projectDir skippedItems
           agentCount w e w Hrun).
Qed.

Lemma processAgentArtifact_unreadable_witness :
  processAgentArtifact (demo_env []) lost_artifact demo_agents demo_project demo_world
  = (Throw ENOENT, demo_world).
Proof.
  apply (processAgentArtifact_unreadable (demo_env []) lost_artifact [] demo_agents
           demo_project [] 0%nat demo_world ENOENT).
  vm_compute. reflexivity.
Defined.

(** ** The reserved prefix *)

(** For a name without [/] the command file is an entry of the commands
    directory. *)
Lemma commandPath_of_plain (commandsDir : path) (name : jsstring) :
  plain_name name ->
  commandPath_of commandsDir name = commandsDir ++ [js "bmad-" ++ name ++ js ".md"].
Proof.
  intros Hplain. unfold commandPath_of, join_path.
  rewrite (split_on_no_sep u_slash (js "bmad-" ++ name ++ js ".md") []).
  - cbn [app fold_left]. unfold normalize_step.
    rewrite !units_eqb_false by discriminate. reflexivity.
  - apply Forall_app. split; [repeat constructor; discriminate|].
    apply Forall_app. split; [|repeat constructor; discriminate].
    apply Forall_forall. intros c Hc ->. apply Hplain, list_elem_of_In, Hc.
Qed.

Lemma sanitizeAgentName_prefixed E artifact :
  lowercase_keeps_prefix E ->
  exists t, sanitizeAgentName E (agentName_of artifact) = js "bmad-" ++ t.
Proof.
  intros Hlow. rewrite sanitizeAgentName_unfold. unfold sanitize_spec, agentName_of.
  destruct (Hlow (Artifact.module artifact ++ js "-" ++ Artifact.name artifact))
    as [s' ->].
  rewrite <- (proj1 (collapse_scan_runs _)).
  exists (List.filter is_safe (collapse_scan false s')). reflexivity.
Qed.

(** A command name with slashes in it takes the command file elsewhere:
    [path.join] resolves the [..] segments, and the file lands in the agents
    directory under a name without the reserved prefix. *)
Example commandPath_of_escapes :
  commandPath_of (kiro_commands demo_project) (js "x/../../agents/user")
  = kiro_agents demo_project ++ [js "user.md"].
Proof. vm_compute. reflexivity. Qed.

(** X7.  Everything the installer names is within reach of [cleanup].
    Provided lower-casing keeps the reserved prefix, the names of the pair of
    an artifact start with the reserved prefix, and so does the file of a
    command whose name is a plain file name, one without a slash; so where
    the directories can be listed and no removal fails, no pair and no such
    command file is left after [cleanup]. *)
Theorem cleanup_removes_generated_names (E : Env) (projectDir : path) (w : world) :
  lowercase_keeps_prefix E ->
  listable w (kiro_agents projectDir) ->
  listable w (kiro_commands projectDir) ->
  (forall p, remove_fault (failures w) p = None) ->
  exists w',
    cleanup E projectDir w = (Ok tt, w')
    /\ (forall artifact,
          startsWith (js "bmad")
            (sanitizeAgentName E (agentName_of artifact) ++ js ".json") = true
          /\ startsWith (js "bmad")
               (sanitizeAgentName E (agentName_of artifact) ++ js "-prompt.md") = true
          /\ (files w !! kiro_agents projectDir = Some Dir ->
              files w' !! jsonPath_of E (kiro_agents projectDir) artifact = None
              /\ files w' !! promptPath_of E (kiro_agents projectDir) artifact = None))
    /\ (forall name,
          plain_name name ->
          files w !! kiro_commands projectDir = Some Dir ->
          files w' !! commandPath_of (kiro_commands projectDir) name = None).
Proof.
  intros Hlow HA HC Hnf.
  destruct (cleanup_spec E projectDir w HA HC) as (w' & Hrun & _ & Hsw & _).
  pose proof (cleanup_only_removes E projectDir w) as Hshrink.
  rewrite Hrun in Hshrink. cbn [snd] in Hshrink.
  assert (Hgone : forall dir n,
             dir = kiro_agents projectDir \/ dir = kiro_commands projectDir ->
             files w !! dir = Some Dir ->
             startsWith (js "bmad") n = true ->
             files w' !! (dir ++ [n]) = None).
  { intros dir n Hdir Hd Hn.
    destruct (files w !! (dir ++ [n])) as [x|] eqn:Hx.
    - apply Hsw.
      assert (swept w dir (dir ++ [n])) as Hs.
      { split; [exact Hd|]. exists n. split; [exact Hn|]. split; [rewrite Hx; eauto|].
        split; [apply Hnf|reflexivity]. }
      destruct Hdir as [->| ->]; [left|right; left]; exact Hs.
    - destruct (Hshrink (dir ++ [n])) as [H|H]; [exact H|congruence]. }
  exists w'. split; [exact Hrun|]. split.
  - intros artifact. destruct (sanitizeAgentName_prefixed E artifact Hlow) as [t Ht].
    assert (Hp : forall suffix,
               startsWith (js "bmad")
                 (sanitizeAgentName E (agentName_of artifact) ++ suffix) = true).
    { intros suffix. rewrite Ht. reflexivity. }
    split; [apply Hp|]. split; [apply Hp|].
    intros Hd. unfold jsonPath_of, promptPath_of.
    split; apply Hgone; try (left; reflexivity); try exact Hd; apply Hp.
  - intros name Hplain Hd. rewrite (commandPath_of_plain _ _ Hplain).
    apply Hgone; [right; reflexivity|exact Hd|]. reflexivity.
Qed.

Lemma cleanup_removes_generated_names_witness :
  exists w',
    cleanup (demo_env []) demo_project stale_world = (Ok tt, w')
    /\ files w' !! jsonPath_of (demo_env []) demo_agents demo_artifact = None.
Proof.
  destruct (cleanup_removes_generated_names (demo_env []) demo_project stale_world)
    as (w' & Hrun & Hpair & _).
  - intros s. exists (ascii_toLowerCase s). reflexivity.
  - right. split; reflexivity.
  - left. reflexivity.
  - intros p. reflexivity.
  - exists w'. split; [exact Hrun|].
    destruct (Hpair demo_artifact) as (_ & _ & Hnone).
    apply Hnone. reflexivity.
Defined.

(** ** Command files *)

Lemma writeWorkflowCommands_writeAll commandsDir artifacts : forall count w,
  writeWorkflowCommands commandsDir artifacts count w
  = writeAll (List.map (workflow_write commandsDir)
                       (List.filter is_workflow_command artifacts)) count w.
Proof.
  induction artifacts as [|a rest IH]; intros count w; [reflexivity|].
  cbn [writeWorkflowCommands List.filter]. unfold is_workflow_command at 1.
  destruct (units_eqb (WorkflowArtifact.type a) (js "workflow-command")).
  - cbn [List.map writeAll workflow_write]. unfold bind.
    destruct (writeFile _ _ w) as [[[]|e] w1]; [apply IH|reflexivity].
  - apply IH.
Qed.

Lemma writeTaskCommands_writeAll commandsDir tasks : forall count w,
  writeTaskCommands commandsDir tasks count w
  = writeAll (List.map (task_write commandsDir) tasks) count w.
Proof.
  induction tasks as [|a rest IH]; intros count w; [reflexivity|].
  cbn [writeTaskCommands List.map writeAll task_write]. unfold bind.
  destruct (writeFile _ _ w) as [[[]|e] w1]; [apply IH|reflexivity].
Qed.

Lemma writeToolCommands_writeAll commandsDir tools : forall count w,
  writeToolCommands commandsDir tools count w
  = writeAll (List.map (tool_write commandsDir) tools) count w.
Proof.
  induction tools as [|a rest IH]; intros count w; [reflexivity|].
  cbn [writeToolCommands List.map writeAll tool_write]. unfold bind.
  destruct (writeFile _ _ w) as [[[]|e] w1]; [apply IH|reflexivity].
Qed.

Lemma snoc_not_self (dir : path) (n : jsstring) : dir ++ [n] <> dir.
Proof.
  intros H. apply (f_equal length) in H. rewrite length_app in H. simpl in H. lia.
Qed.

Lemma writeFile_run (dir : path) (n data : jsstring) w :
  files w !! dir = Some Dir ->
  writable w (dir ++ [n]) ->
  writeFile (dir ++ [n]) data w
  = (Ok tt, set_files (<[dir ++ [n] := File data]> (files w)) w).
Proof.
  intros Hd [Hf Hn]. unfold writeFile. rewrite Hf, removelast_snoc, Hd.
  destruct (files w !! (dir ++ [n])) as [[d|]|]; [reflexivity|contradiction|reflexivity].
Qed.

(** Where every file can be written, the loop writes them all: the count
    grows by their number, a path that is none of theirs keeps what it held,
    and a path written more than once holds what was written last. *)
Lemma writeAll_spec (dir : path) (writes : list (path * jsstring)) : forall count w,
  files w !! dir = Some Dir ->
  Forall (fun pd => (exists n, pd.1 = dir ++ [n]) /\ writable w pd.1) writes ->
  exists w',
    writeAll writes count w = (Ok (count + length writes)%nat, w')
    /\ failures w' = failures w
    /\ console w' = console w
    /\ (forall k, ~ In k (List.map fst writes) -> files w' !! k = files w !! k)
    /\ (forall i p data,
          writes !! i = Some (p, data) ->
          ~ In p (List.map fst (drop (S i) writes)) ->
          files w' !! p = Some (File data))
    /\ (forall k, files w' !! k = Some Dir -> files w !! k = Some Dir).
Proof.
  induction writes as [|[p data] rest IH]; intros count w Hd Hall.
  - exists w. cbn [writeAll length]. unfold ret. rewrite Nat.add_0_r.
    repeat split; try reflexivity; [|intros k Hk; exact Hk].
    intros i p data Hi. rewrite lookup_nil in Hi. discriminate Hi.
  - apply Forall_cons in Hall as [[[n Hn] Hw] Hall]. cbn [fst] in Hn, Hw. subst p.
    cbn [writeAll]. unfold bind. rewrite (writeFile_run dir n data w Hd Hw).
    destruct (IH (S count) (set_files (<[dir ++ [n] := File data]> (files w)) w))
      as (w' & Hrun & Hf & Hc & Hframe & Hlast & Hdirs).
    { cbn [files set_files]. rewrite lookup_insert_ne by apply snoc_not_self.
      exact Hd. }
    { eapply Forall_impl; [exact Hall|]. intros [p' d'] [Hn' [Hf' Hp']].
      split; [exact Hn'|]. split; [exact Hf'|]. cbn [fst files set_files] in *.
      destruct (decide (dir ++ [n] = p')) as [<-|Hne].
      - rewrite lookup_insert_eq. discriminate.
      - rewrite lookup_insert_ne by exact Hne. exact Hp'. }
    exists w'. split; [rewrite Hrun; cbn [length]; f_equal; f_equal; lia|].
    split; [exact Hf|]. split; [exact Hc|]. split; [|split].
    + intros k Hk. cbn [List.map fst In] in Hk. rewrite Hframe by tauto.
      cbn [files set_files]. apply lookup_insert_ne. tauto.
    + intros [|i] p d Hi Hlater.
      * cbn in Hi. injection Hi as <- <-. cbn [drop] in Hlater.
        rewrite Hframe by exact Hlater. cbn [files set_files].
        apply lookup_insert_eq.
      * apply (Hlast i p d); [exact Hi|exact Hlater].
    + intros k Hk. apply Hdirs in Hk. cbn [files set_files] in Hk.
      destruct (decide (dir ++ [n] = k)) as [<-|Hne].
      * rewrite lookup_insert_eq in Hk. discriminate Hk.
      * rewrite lookup_insert_ne in Hk by exact Hne. exact Hk.
Qed.

Lemma commandPath_of_inj commandsDir name name' :
  plain_name name -> plain_name name' ->
  commandPath_of commandsDir name = commandPath_of commandsDir name' -> name = name'.
Proof.
  intros Hp Hp' H. rewrite !commandPath_of_plain in H by assumption.
  apply app_inv_head in H. injection H as H. apply app_inv_tail in H. exact H.
Qed.

Section NamedCommands.
Context {T : Type} (name content : T -> jsstring) (commandsDir : path).

(** The loop over items that are written under [bmad-<name>.md]: all are
    counted, also those that share a name, and of the items that share a name
    the last one decides what the file holds. *)
Lemma writeAll_named (items : list T) (count : nat) (w : world) :
  Forall (fun item => plain_name (name item)) items ->
  files w !! commandsDir = Some Dir ->
  Forall (fun item => writable w (commandPath_of commandsDir (name item))) items ->
  exists w',
    writeAll (List.map (fun item => (commandPath_of commandsDir (name item),
                                     content item)) items) count w
    = (Ok (count + length items)%nat, w')
    /\ failures w' = failures w
    /\ console w' = console w
    /\ (forall k, (forall item, In item items ->
                                k <> commandPath_of commandsDir (name item)) ->
                  files w' !! k = files w !! k)
    /\ (forall i item,
          items !! i = Some item ->
          (forall later, In later (drop (S i) items) -> name later <> name item) ->
          files w' !! commandPath_of commandsDir (name item)
          = Some (File (content item)))
    /\ (forall k, files w' !! k = Some Dir -> files w !! k = Some Dir).
Proof.
  intros Hplain Hd Hall.
  destruct (writeAll_spec commandsDir
              (List.map (fun item => (commandPath_of commandsDir (name item),
                                      content item)) items) count w Hd)
    as (w' & Hrun & Hf & Hc & Hframe & Hlast & Hdirs).
  { apply Forall_map. rewrite Forall_forall in Hplain, Hall. apply Forall_forall.
    intros item Hin. split; [|exact (Hall item Hin)].
    eexists. cbn [fst]. apply commandPath_of_plain, Hplain, Hin. }
  exists w'. rewrite length_map in Hrun. split; [exact Hrun|].
  split; [exact Hf|]. split; [exact Hc|]. split; [|split; [|exact Hdirs]].
  - intros k Hk. apply Hframe. rewrite map_map. intros Hin.
    apply in_map_iff in Hin as (item & <- & Hin). exact (Hk item Hin eq_refl).
  - intros i item Hi Hlater. apply (Hlast i).
    + rewrite list_lookup_fmap, Hi. reflexivity.
    + rewrite <- fmap_drop, map_map. intros Hin.
      apply in_map_iff in Hin as (later & Heq & Hin).
      rewrite Forall_forall in Hplain.
      apply commandPath_of_inj in Heq.
      * exact (Hlater later Hin Heq).
      * apply Hplain. apply list_elem_of_In in Hin.
        exact (subseteq_drop _ _ _ Hin).
      * apply Hplain. exact (list_elem_of_lookup_2 _ _ _ Hi).
Qed.

End NamedCommands.

(** X8.  [generateWorkflowCommands] writes one command file for each
    collected artifact of type [workflow-command], and none for the others.
    Where their names are plain file names, the commands directory exists
    and each of these files can be written, it returns their number, changes
    no other path, and a file whose name several artifacts share holds the
    content of the last of them. *)
Theorem generateWorkflowCommands_writes
        (E : Env) (bmadDir commandsDir : path) (w w0 : world)
        (artifacts : list WorkflowArtifact.t) :
  collectWorkflowArtifacts E bmadDir w = (Ok artifacts, w0) ->
  Forall (fun a => plain_name (WorkflowArtifact.name a))
         (List.filter is_workflow_command artifacts) ->
  files w0 !! commandsDir = Some Dir ->
  Forall (fun a => writable w0 (commandPath_of commandsDir (WorkflowArtifact.name a)))
         (List.filter is_workflow_command artifacts) ->
  exists w',
    generateWorkflowCommands E bmadDir commandsDir w
    = (Ok (length (List.filter is_workflow_command artifacts)), w')
    /\ failures w' = failures w0
    /\ console w' = console w0
    /\ (forall k,
          (forall a, In a artifacts -> is_workflow_command a = true ->
                     k <> commandPath_of commandsDir (WorkflowArtifact.name a)) ->
          files w' !! k = files w0 !! k)
    /\ (forall i a,
          List.filter is_workflow_command artifacts !! i = Some a ->
          (forall later,
             In later (drop (S i) (List.filter is_workflow_command artifacts)) ->
             WorkflowArtifact.name later <> WorkflowArtifact.name a) ->
          files w' !! commandPath_of commandsDir (WorkflowArtifact.name a)
          = Some (File (generateWorkflowCommandContent a))).
Proof.
  intros Hcollect Hplain Hd Hall.
  destruct (writeAll_named WorkflowArtifact.name generateWorkflowCommandContent
              commandsDir (List.filter is_workflow_command artifacts) 0%nat w0
              Hplain Hd Hall)
    as (w' & Hrun & Hf & Hc & Hframe & Hlast & _).
  exists w'. split.
  - unfold generateWorkflowCommands, bind. rewrite Hcollect.
    rewrite writeWorkflowCommands_writeAll. exact Hrun.
  - split; [exact Hf|]. split; [exact Hc|]. split; [|exact Hlast].
    intros k Hk. apply Hframe. intros a Ha. apply filter_In in Ha as [Ha Hty].
    exact (Hk a Ha Hty).
Qed.

Lemma generateWorkflowCommands_writes_witness :
  exists w',
    generateWorkflowCommands commands_env demo_bmad demo_commands commands_world
    = (Ok 1%nat, w')
    /\ files w' !! (demo_commands ++ [js "bmad-launch.md"]) = None
    /\ files w' !! (demo_commands ++ [js "bmad-plan.md"])
       = Some (File (js "# plan" ++ [u_nl; u_nl] ++ js "Plan the work" ++ [u_nl; u_nl]
                     ++ js "LOAD @_bmad/bmm/workflows/plan/workflow.md" ++ [u_nl])).
Proof.
  destruct (generateWorkflowCommands_writes commands_env demo_bmad demo_commands
              commands_world commands_world demo_workflows)
    as (w' & Hrun & _ & _ & Hframe & Hlast).
  - reflexivity.
  - repeat constructor. vm_compute. intuition discriminate.
  - vm_compute. reflexivity.
  - repeat constructor; vm_compute; discriminate.
  - exists w'. split; [exact Hrun|]. split.
    + rewrite Hframe; [vm_compute; reflexivity|].
      intros a [<-|[<-|[]]] Hty; [|discriminate Hty].
      vm_compute. discriminate.
    + apply (Hlast 0%nat (WorkflowArtifact.mk (js "workflow-command") (js "plan")
                            (js "Plan the work")
                            (js "_bmad/bmm/workflows/plan/workflow.md")));
        [reflexivity|]. intros later [].
Defined.

(** X9.  [generateTaskCommands] counts tasks, not files.  Where the task
    names are plain file names, the commands directory exists and each
    command file can be written, it returns the number of collected tasks,
    also when tasks share a name; it changes no path besides the command
    files of the tasks; and a file whose name several tasks share holds the
    content of the last of them. *)
Theorem generateTaskCommands_writes
        (E : Env) (bmadDir commandsDir : path) (w w0 : world) (tasks : list Task.t) :
  collectTasks E bmadDir w = (Ok tasks, w0) ->
  Forall (fun t => plain_name (Task.name t)) tasks ->
  files w0 !! commandsDir = Some Dir ->
  Forall (fun t => writable w0 (commandPath_of commandsDir (Task.name t))) tasks ->
  exists w',
    generateTaskCommands E bmadDir commandsDir w = (Ok (length tasks), w')
    /\ failures w' = failures w0
    /\ console w' = console w0
    /\ (forall k,
          (forall t, In t tasks -> k <> commandPath_of commandsDir (Task.name t)) ->
          files w' !! k = files w0 !! k)
    /\ (forall i t,
          tasks !! i = Some t ->
          (forall later, In later (drop (S i) tasks) -> Task.name later <> Task.name t) ->
          files w' !! commandPath_of commandsDir (Task.name t)
          = Some (File (generateTaskCommandContent t))).
Proof.
  intros Hcollect Hplain Hd Hall.
  destruct (writeAll_named Task.name generateTaskCommandContent
              commandsDir tasks 0%nat w0 Hplain Hd Hall)
    as (w' & Hrun & Hf & Hc & Hframe & Hlast & _).
  exists w'. split.
  - unfold generateTaskCommands, bind. rewrite Hcollect.
    rewrite writeTaskCommands_writeAll. exact Hrun.
  - split; [exact Hf|]. split; [exact Hc|]. split; [exact Hframe|exact Hlast].
Qed.

Lemma generateTaskCommands_writes_witness :
  exists w',
    generateTaskCommands (tasks_env twin_tasks []) demo_bmad demo_commands commands_world
    = (Ok 2%nat, w')
    /\ files w' !! (demo_commands ++ [js "bmad-review.md"])
       = Some (File (js "# Review code" ++ [u_nl; u_nl] ++ js "Review a change"
                     ++ [u_nl; u_nl] ++ js "LOAD @_bmad/bmm/tasks/review.md" ++ [u_nl]))
    /\ files w' !! (demo_commands ++ [js "bmad-index.md"]) = None
    /\ files w' !! demo_commands = Some Dir.
Proof.
  destruct (generateTaskCommands_writes (tasks_env twin_tasks []) demo_bmad demo_commands
              commands_world commands_world twin_tasks)
    as (w' & Hrun & _ & _ & Hframe & Hlast).
  - reflexivity.
  - repeat constructor; vm_compute; intuition discriminate.
  - vm_compute. reflexivity.
  - repeat constructor; vm_compute; discriminate.
  - exists w'. split; [exact Hrun|]. split; [|split].
    + apply (Hlast 1%nat (Task.mk (js "review") (js "Review code") (js "Review a change")
                                  (js "_bmad/bmm/tasks/review.md")));
        [reflexivity|intros later []].
    + rewrite Hframe; [vm_compute; reflexivity|].
      intros t [<-|[<-|[]]]; vm_compute; discriminate.
    + rewrite Hframe; [vm_compute; reflexivity|].
      intros t [<-|[<-|[]]]; vm_compute; discriminate.
Defined.

(** X10.  Tasks and tools share one name space of command files.  Let the
    collectors deliver [tasks] and [tools] and leave the world alone, let the
    names be plain file names, and let every command file be writable in an
    existing commands directory.  Then the task generator followed by the
    tool generator, as [setup] runs them, return the two list lengths; every
    tool that no later tool shadows has its content in its file, also where
    a task has the same name; a task whose name no later task and no tool
    has keeps its content in its file; and no other path changes. *)
Theorem task_and_tool_commands_share_names
        (E : Env) (bmadDir commandsDir : path) (w : world)
        (tasks : list Task.t) (tools : list Tool.t) :
  (forall w0, collectTasks E bmadDir w0 = (Ok tasks, w0)) ->
  (forall w0, collectTools E bmadDir w0 = (Ok tools, w0)) ->
  Forall (fun t => plain_name (Task.name t)) tasks ->
  Forall (fun t => plain_name (Tool.name t)) tools ->
  files w !! commandsDir = Some Dir ->
  Forall (fun t => writable w (commandPath_of commandsDir (Task.name t))) tasks ->
  Forall (fun t => writable w (commandPath_of commandsDir (Tool.name t))) tools ->
  exists w1 w2,
    generateTaskCommands E bmadDir commandsDir w = (Ok (length tasks), w1)
    /\ generateToolCommands E bmadDir commandsDir w1 = (Ok (length tools), w2)
    /\ (forall i tool,
          tools !! i = Some tool ->
          (forall later, In later (drop (S i) tools) -> Tool.name later <> Tool.name tool) ->
          files w2 !! commandPath_of commandsDir (Tool.name tool)
          = Some (File (generateToolCommandContent tool)))
    /\ (forall i task,
          tasks !! i = Some task ->
          (forall later, In later (drop (S i) tasks) -> Task.name later <> Task.name task) ->
          (forall tool, In tool tools -> Tool.name tool <> Task.name task) ->
          files w2 !! commandPath_of commandsDir (Task.name task)
          = Some (File (generateTaskCommandContent task)))
    /\ (forall k,
          (forall t, In t tasks -> k <> commandPath_of commandsDir (Task.name t)) ->
          (forall t, In t tools -> k <> commandPath_of commandsDir (Tool.name t)) ->
          files w2 !! k = files w !! k).
Proof.
  intros Htasks Htools Hpt Hpl Hd Hwt Hwl.
  destruct (writeAll_named Task.name generateTaskCommandContent
              commandsDir tasks 0%nat w Hpt Hd Hwt)
    as (w1 & Hrun1 & Hf1 & _ & Hframe1 & Hlast1 & Hdirs1).
  destruct (writeAll_named Tool.name generateToolCommandContent
              commandsDir tools 0%nat w1 Hpl)
    as (w2 & Hrun2 & _ & _ & Hframe2 & Hlast2 & _).
  { rewrite Hframe1; [exact Hd|]. intros t Ht.
    rewrite Forall_forall in Hpt.
    rewrite (commandPath_of_plain _ _ (Hpt t (proj2 (list_elem_of_In _ _) Ht))).
    apply not_eq_sym, snoc_not_self. }
  { eapply Forall_impl; [exact Hwl|]. intros t [Hf Hn]. split.
    - rewrite Hf1. exact Hf.
    - intros Hdir. apply Hn. apply Hdirs1. exact Hdir. }
  exists w1, w2. split; [|split; [|split; [|split]]].
  - unfold generateTaskCommands, bind. rewrite Htasks.
    rewrite writeTaskCommands_writeAll. exact Hrun1.
  - unfold generateToolCommands, bind. rewrite Htools.
    rewrite writeToolCommands_writeAll. exact Hrun2.
  - exact Hlast2.
  - intros i task Hi Hlater Hnone. rewrite Hframe2.
    + apply (Hlast1 i); assumption.
    + intros tool Hin Heq. rewrite Forall_forall in Hpt. rewrite Forall_forall in Hpl.
      apply commandPath_of_inj in Heq.
      * exact (Hnone tool Hin (eq_sym Heq)).
      * apply Hpt. exact (list_elem_of_lookup_2 _ _ _ Hi).
      * apply Hpl, list_elem_of_In, Hin.
  - intros k Hk1 Hk2. rewrite Hframe2 by exact Hk2. apply Hframe1. exact Hk1.
Qed.

Lemma task_and_tool_commands_share_names_witness :
  exists w1 w2,
    generateTaskCommands commands_env demo_bmad demo_commands commands_world
    = (Ok 2%nat, w1)
    /\ generateToolCommands commands_env demo_bmad demo_commands w1 = (Ok 1%nat, w2)
    /\ files w2 !! (demo_commands ++ [js "bmad-review.md"])
       = Some (File (js "# review" ++ [u_nl; u_nl] ++ js "Review tool" ++ [u_nl; u_nl]
                     ++ js "LOAD @_bmad/core/tools/review.md" ++ [u_nl])).
Proof.
  destruct (task_and_tool_commands_share_names commands_env demo_bmad demo_commands
              commands_world demo_tasks demo_tools)
    as (w1 & w2 & Hrun1 & Hrun2 & Htool & _).
  - intros w0. reflexivity.
  - intros w0. reflexivity.
  - repeat constructor; vm_compute; intuition discriminate.
  - repeat constructor; vm_compute; intuition discriminate.
  - vm_compute. reflexivity.
  - repeat constructor; vm_compute; discriminate.
  - repeat constructor; vm_compute; discriminate.
  - exists w1, w2. split; [exact Hrun1|]. split; [exact Hrun2|].
    apply (Htool 0%nat (Tool.mk (js "review") (js "Review tool")
                          (js "_bmad/core/tools/review.md"))); [reflexivity|].
    intros later [].
Defined.

Lemma writeAll_app (ws1 ws2 : list (path * jsstring)) : forall count w,
  writeAll (ws1 ++ ws2) count w
  = match writeAll ws1 count w with
    | (Ok n, w1) => writeAll ws2 n w1
    | (Throw e, w1) => (Throw e, w1)
    end.
Proof.
  induction ws1 as [|[p d] rest IH]; intros count w; [reflexivity|].
  cbn [app writeAll]. unfold bind.
  destruct (writeFile p d w) as [[[]|e] w1]; [apply IH|reflexivity].
Qed.

(** X11.  A command generator stops at the first write that fails and takes
    nothing back.  If the write for one tool is due to fail, while the files
    of the tools before it can be written, [generateToolCommands] throws that
    very error, the tools after it are never written, and the files of the
    tools before it stay as written. *)
Theorem generateToolCommands_stops_at_failure
        (E : Env) (bmadDir commandsDir : path) (w w0 : world)
        (before after : list Tool.t) (tool : Tool.t)
        (e : error) (residue : option jsstring) :
  collectTools E bmadDir w = (Ok (before ++ tool :: after), w0) ->
  Forall (fun t => plain_name (Tool.name t)) (before ++ [tool]) ->
  files w0 !! commandsDir = Some Dir ->
  Forall (fun t => writable w0 (commandPath_of commandsDir (Tool.name t))) before ->
  write_fault (failures w0) (commandPath_of commandsDir (Tool.name tool))
  = Some (e, residue) ->
  exists w',
    generateToolCommands E bmadDir commandsDir w = (Throw e, w')
    /\ (forall i t,
          before !! i = Some t ->
          (forall later, In later (drop (S i) before) -> Tool.name later <> Tool.name t) ->
          Tool.name t <> Tool.name tool ->
          files w' !! commandPath_of commandsDir (Tool.name t)
          = Some (File (generateToolCommandContent t)))
    /\ (forall k,
          (forall t, In t before -> k <> commandPath_of commandsDir (Tool.name t)) ->
          k <> commandPath_of commandsDir (Tool.name tool) ->
          files w' !! k = files w0 !! k).
Proof.
  intros Hcollect Hplain Hd Hall Hfault.
  apply Forall_app in Hplain as [Hpb Hpt]. apply Forall_inv in Hpt.
  destruct (writeAll_named Tool.name generateToolCommandContent
              commandsDir before 0%nat w0 Hpb Hd Hall)
    as (w1 & Hrun & Hf & _ & Hframe & Hlast & _).
  assert (Hstep : exists w',
             writeFile (commandPath_of commandsDir (Tool.name tool))
                       (generateToolCommandContent tool) w1 = (Throw e, w')
             /\ forall k, k <> commandPath_of commandsDir (Tool.name tool) ->
                          files w' !! k = files w1 !! k).
  { unfold writeFile. rewrite Hf, Hfault. destruct residue as [partial|].
    - eexists. split; [reflexivity|]. intros k Hk. cbn [files set_files].
      apply lookup_insert_ne. congruence.
    - eexists. split; [reflexivity|]. reflexivity. }
  destruct Hstep as (w' & Hwrite & Hrest).
  exists w'. split; [|split].
  - unfold generateToolCommands, bind. rewrite Hcollect.
    change (writeAll (List.map (tool_write commandsDir) before) 0%nat w0
            = (Ok (0 + length before)%nat, w1)) in Hrun.
    rewrite writeToolCommands_writeAll, map_app, writeAll_app, Hrun.
    cbn [List.map writeAll tool_write]. unfold bind. rewrite Hwrite. reflexivity.
  - intros i t Hi Hlater Hne. rewrite Hrest.
    + apply (Hlast i); assumption.
    + intros Heq. rewrite Forall_forall in Hpb. apply commandPath_of_inj in Heq.
      * exact (Hne Heq).
      * apply Hpb. exact (list_elem_of_lookup_2 _ _ _ Hi).
      * exact Hpt.
  - intros k Hk Hne. rewrite Hrest by exact Hne. apply Hframe. exact Hk.
Qed.

Lemma generateToolCommands_stops_at_failure_witness :
  exists w',
    generateToolCommands (tasks_env [] three_tools) demo_bmad demo_commands full_disk_world
    = (Throw (js "ENOSPC: no space left on device"), w')
    /\ files w' !! (demo_commands ++ [js "bmad-lint.md"])
       = Some (File (js "# lint" ++ [u_nl; u_nl] ++ js "Lint the sources"
                     ++ [u_nl; u_nl] ++ js "LOAD @_bmad/core/tools/lint.md" ++ [u_nl]))
    /\ files w' !! (demo_commands ++ [js "bmad-review.md"]) = None
    /\ files w' !! (demo_commands ++ [js "bmad-format.md"]) = None.
Proof.
  destruct (generateToolCommands_stops_at_failure (tasks_env [] three_tools) demo_bmad
              demo_commands full_disk_world full_disk_world
              [Tool.mk (js "lint") (js "Lint the sources") (js "_bmad/core/tools/lint.md")]
              [Tool.mk (js "format") (js "Format the sources")
                       (js "_bmad/core/tools/format.md")]
              (Tool.mk (js "review") (js "Review tool") (js "_bmad/core/tools/review.md"))
              (js "ENOSPC: no space left on device") None)
    as (w' & Hrun & Hbefore & Hframe).
  - reflexivity.
  - repeat constructor; vm_compute; intuition discriminate.
  - vm_compute. reflexivity.
  - repeat constructor; vm_compute; discriminate.
  - vm_compute. reflexivity.
  - exists w'. split; [exact Hrun|]. split; [|split].
    + apply (Hbefore 0%nat (Tool.mk (js "lint") (js "Lint the sources")
                                    (js "_bmad/core/tools/lint.md")));
        [reflexivity|intros later []|vm_compute; discriminate].
    + assert (Hrest : (generateToolCommands (tasks_env [] three_tools) demo_bmad
                         demo_commands full_disk_world).2 = w')
        by (rewrite Hrun; reflexivity).
      rewrite <- Hrest. vm_compute. reflexivity.
    + rewrite Hframe; [vm_compute; reflexivity| |vm_compute; discriminate].
      intros t [<-|[]]; vm_compute; discriminate.
Defined.

(** ** Steering files *)

Lemma logEach_only_logs (lines : list jsstring) : forall w,
  exists w', logEach lines w = (Ok tt, w') /\ only_logs w w'.
Proof.
  induction lines as [|l rest IH]; intros w.
  - exists w. split; [reflexivity|apply only_logs_refl].
  - cbn [logEach]. unfold bind at 1, log at 1.
    destruct (IH (World (files w) (failures w) (console w ++ [(LogInfo, js "  " ++ l)])))
      as (w' & Hrun & Hlogs).
    exists w'. split; [exact Hrun|].
    eapply only_logs_trans; [|exact Hlogs]. apply (log_only_logs LogInfo (js "  " ++ l) w).
Qed.

(** X12.  [generateSteeringFiles] never throws.  What the steering generator
    returns is passed on, with at most some lines logged; what it throws
    becomes a result with no file generated and the message as the only
    error, after one warning. *)
Theorem generateSteeringFiles_never_throws (E : Env) (projectDir : path) (w : world) :
  exists results w',
    generateSteeringFiles E projectDir w = (Ok results, w')
    /\ (forall r w0, generateAll E projectDir w = (Ok r, w0) ->
          results = r /\ only_logs w0 w'
          /\ (SteeringResults.errors r = [] -> w' = w0))
    /\ (forall e w0, generateAll E projectDir w = (Throw e, w0) ->
          results = SteeringResults.mk 0 [e]
          /\ w' = warned (js "  Warning: Failed to generate steering files: " ++ e) w0).
Proof.
  unfold generateSteeringFiles, try_catch, bind at 1.
  destruct (generateAll E projectDir w) as [[r|e] w0].
  - unfold bind at 1.
    destruct (SteeringResults.errors r) as [|err errs] eqn:Herrs; cbn [length Nat.ltb Nat.leb].
    + unfold ret. exists r, w0. split; [reflexivity|]. split.
      * intros r' w0' [= <- <-]. split; [reflexivity|].
        split; [apply only_logs_refl|reflexivity].
      * intros e' w0' H. discriminate H.
    + unfold bind at 1, log at 1.
      match goal with
      | |- context [logEach ?ls ?x] =>
          destruct (logEach_only_logs ls x) as (w' & Hrun & Hlogs); rewrite Hrun
      end.
      unfold ret. exists r, w'. split; [reflexivity|]. split.
      * intros r' w0' [= <- <-]. split; [reflexivity|]. split.
        -- eapply only_logs_trans; [|exact Hlogs]. apply log_only_logs.
        -- rewrite Herrs. discriminate.
      * intros e' w0' H. discriminate H.
  - unfold bind, log, ret. eexists _, _. split; [reflexivity|]. split.
    + intros r' w0' H. discriminate H.
    + intros e' w0' [= <- <-]. split; reflexivity.
Qed.

(** ** Modules *)

Lemma child_entry_key dir kv d :
  child_entry dir kv = Some d -> kv.1 = dir ++ [Dirent.name d].
Proof.
  unfold child_entry. destruct (strip_prefix dir kv.1) as [[|x [|y r]]|] eqn:Hs;
    try discriminate.
  intros [= <-]. apply strip_prefix_Some in Hs. exact Hs.
Qed.

Lemma entries_NoDup (dir : path) (m : gmap path node) :
  NoDup (List.map Dirent.name (entries dir m)).
Proof.
  unfold entries. pose proof (NoDup_fst_map_to_list m) as Hnd.
  induction (map_to_list m) as [|kv l IH]; [constructor|].
  cbn [fmap list_fmap] in Hnd. apply NoDup_cons in Hnd as [Hk Hnd].
  cbn [omap list_omap]. destruct (child_entry dir kv) as [d|] eqn:Hd; [|apply IH, Hnd].
  cbn [List.map]. apply NoDup_cons. split; [|apply IH, Hnd].
  intros Hin. apply Hk. apply list_elem_of_In, in_map_iff in Hin as (d' & Hname & Hin).
  apply list_elem_of_In, list_elem_of_omap in Hin as (kv' & Hin & Hd').
  apply list_elem_of_fmap. exists kv'. split; [|exact Hin].
  rewrite (child_entry_key _ _ _ Hd), (child_entry_key _ _ _ Hd'), Hname. reflexivity.
Qed.

Lemma filter_map_NoDup {A} (name : A -> jsstring) (keep : A -> bool) (l : list A) :
  NoDup (List.map name l) -> NoDup (List.map name (List.filter keep l)).
Proof.
  induction l as [|d l IH]; [constructor|].
  cbn [List.map]. intros Hall. apply NoDup_cons in Hall as [Hd Hall].
  cbn [List.filter]. destruct (keep d); [|apply IH, Hall].
  cbn [List.map]. apply NoDup_cons. split; [|apply IH, Hall].
  intros Hin. apply Hd. apply list_elem_of_In, in_map_iff in Hin as (d' & Hname & Hin).
  apply filter_In in Hin as [Hin _]. apply list_elem_of_In, in_map_iff.
  exists d'. split; assumption.
Qed.

(** X13.  [discoverAllModules] never throws and changes nothing but the
    console; the list it returns has no duplicates, and every module in it
    has an [agents] entry under the root and a name that does not start with
    an underscore. *)
Theorem discoverAllModules_sound (bmadDir : path) (w : world) :
  exists modules w',
    discoverAllModules bmadDir w = (Ok modules, w')
    /\ only_logs w w'
    /\ NoDup modules
    /\ (forall m, In m modules ->
          exists_in w (bmadDir ++ [m; js "agents"]) = true
          /\ startsWith (js "_") m = false).
Proof.
  assert (Hcore : forall m, In m (core_first bmadDir w) ->
                            exists_in w (bmadDir ++ [m; js "agents"]) = true
                            /\ startsWith (js "_") m = false).
  { unfold core_first. intros m.
    destruct (exists_in w (bmadDir ++ [js "core"; js "agents"])) eqn:Hc; [|intros []].
    intros [<-|[]]. split; [exact Hc|reflexivity]. }
  assert (Hnd : NoDup (core_first bmadDir w)).
  { unfold core_first. destruct (exists_in w _); [|constructor].
    apply NoDup_singleton. }
  unfold discoverAllModules, bind at 1. rewrite pathExists_run.
  fold (core_first bmadDir w). unfold try_catch, bind at 1.
  pose proof (readdir_world bmadDir w) as Hw.
  destruct (readdir bmadDir w) as [[es|e] w0] eqn:Hread; cbn [snd] in Hw; subst w0.
  - rewrite scanEntries_run. eexists _, _. split; [reflexivity|].
    split; [apply only_logs_refl|].
    assert (Hes : es = entries bmadDir (files w)).
    { unfold readdir in Hread. destruct (readdir_fault (failures w) bmadDir);
        [discriminate|]. destruct (files w !! bmadDir) as [[d|]|]; congruence. }
    split.
    + apply NoDup_app. split; [exact Hnd|]. split.
      * intros m Hm1 Hm2. apply list_elem_of_In in Hm1, Hm2.
        apply in_filter_module in Hm2. unfold core_first in Hm1.
        destruct (exists_in w _); [|destruct Hm1].
        destruct Hm1 as [<-|[]]. apply Hm2. reflexivity.
      * subst es. apply filter_map_NoDup, entries_NoDup.
    + intros m Hm. apply in_app_or in Hm as [Hm|Hm]; [apply Hcore, Hm|].
      apply in_map_iff in Hm as (d & <- & Hin). apply filter_In in Hin as [_ Hmod].
      unfold is_module in Hmod. rewrite !andb_true_iff in Hmod.
      destruct Hmod as [[[_ _] Hu] Hag]. apply negb_true_iff in Hu. split; assumption.
  - unfold bind, log, ret. eexists _, _. split; [reflexivity|]. split.
    + split; [reflexivity|]. split; [reflexivity|]. eexists. reflexivity.
    + split; [exact Hnd|exact Hcore].
Qed.

(** ** What the tag extractor puts in a record *)

Lemma trimStart_head s c : head (trimStart s) = Some c -> is_space c = false.
Proof.
  induction s as [|a s IH]; cbn [trimStart]; [discriminate|].
  destruct (is_space a) eqn:Ha; [exact IH|]. cbn. intros [= <-]. exact Ha.
Qed.

Lemma trimStart_suffix s : exists pre, s = pre ++ trimStart s.
Proof.
  induction s as [|a s [pre IH]]; cbn [trimStart]; [exists []; reflexivity|].
  destruct (is_space a); [|exists []; reflexivity].
  exists (a :: pre). cbn [app]. f_equal. exact IH.
Qed.

Lemma trimStart_last s c : last (trimStart s) = Some c -> last s = Some c.
Proof.
  destruct (trimStart_suffix s) as [pre Hs]. intros H.
  rewrite Hs, last_app, H. reflexivity.
Qed.

Lemma head_rev (l : jsstring) : head (rev l) = last l.
Proof.
  induction l as [|x l _] using rev_ind; [reflexivity|].
  rewrite rev_unit, last_snoc. reflexivity.
Qed.

Lemma last_rev (l : jsstring) : last (rev l) = head l.
Proof. destruct l as [|a l]; [reflexivity|]. cbn [rev]. apply last_snoc. Qed.

Lemma trim_trimmed s : trimmed (trim s).
Proof.
  unfold trimmed, trim. intros c [H|H].
  - rewrite head_rev in H. apply trimStart_last in H. rewrite last_rev in H.
    exact (trimStart_head _ _ H).
  - rewrite last_rev in H. exact (trimStart_head _ _ H).
Qed.

Lemma trimStart_Forall (P : N -> Prop) s : Forall P s -> Forall P (trimStart s).
Proof.
  intros H. destruct (trimStart_suffix s) as [pre Hs]. rewrite Hs in H.
  apply Forall_app in H as [_ H]. exact H.
Qed.

Lemma trim_Forall (P : N -> Prop) s : Forall P s -> Forall P (trim s).
Proof.
  intros H. unfold trim. apply List.Forall_rev, trimStart_Forall, List.Forall_rev,
    trimStart_Forall, H.
Qed.

Lemma matches_re_field tag t caps :
  matches (re_field tag) t caps ->
  exists value, caps = [value] /\ value <> [] /\ Forall (fun c => c <> u_lt) value.
Proof.
  unfold re_field. intros H.
  apply matches_lits_elim in H as (u & -> & H).
  apply matches_lits_elim in H as (u1 & -> & H).
  apply matches_lits_elim in H as (u2 & -> & H).
  apply matches_cons_inv in H as (value & u3 & caps3 & -> & [Hv Hne] & H & ->).
  apply matches_lits_elim in H as (u4 & -> & H).
  apply matches_lits_elim in H as (u5 & -> & H).
  apply matches_lits_only in H as [-> ->]. cbn in *.
  exists value. rewrite Forall_not_unit in Hv. auto.
Qed.

Lemma matches_re_item t caps :
  matches re_item t caps ->
  exists trigger description,
    caps = [trigger; description]
    /\ trigger <> [] /\ Forall (fun c => c <> u_quote) trigger
    /\ description <> [] /\ Forall (fun c => c <> u_lt) description.
Proof.
  unfold re_item. intros H.
  apply matches_lits_elim in H as (u & -> & H).
  apply matches_cons_inv in H as (ws & u1 & caps1 & -> & _ & H & ->).
  apply matches_lits_elim in H as (u2 & -> & H).
  apply matches_cons_inv in H as (q1 & u3 & caps3 & -> & _ & H & ->).
  apply matches_cons_inv in H as (trigger & u4 & caps4 & -> & [Ht Htne] & H & ->).
  apply matches_cons_inv in H as (q2 & u5 & caps5 & -> & _ & H & ->).
  apply matches_cons_inv in H as (other & u6 & caps6 & -> & _ & H & ->).
  apply matches_lits_elim in H as (u7 & -> & H).
  apply matches_cons_inv in H as (description & u8 & caps8 & -> & [Hd Hdne] & H & ->).
  apply matches_lits_only in H as [-> ->]. cbn in *.
  exists trigger, description. rewrite Forall_not_unit in Ht, Hd. auto.
Qed.

Lemma exec_go_sound r : forall fuel s caps,
  In caps (exec_go fuel r s) -> exists t, matches r t caps.
Proof.
  induction fuel as [|fuel IH]; intros s caps; cbn [exec_go]; [intros []|].
  destruct (search r [] s) as [[[pre caps0] rest]|] eqn:Hs; [|intros []].
  intros [<-|Hin]; [|exact (IH _ _ Hin)].
  apply search_sound in Hs as (skipped & t & _ & _ & Hm). exists t. exact Hm.
Qed.

Lemma field_of_plain tag personaContent : plain_text (field_of tag personaContent).
Proof.
  unfold field_of.
  destruct (js_match (re_field tag) personaContent) as [m|] eqn:Hm.
  - apply js_match_Some in Hm as (pre & t & post & _ & Hm).
    apply matches_re_field in Hm as (value & -> & _ & Hv).
    split; [apply trim_Forall; exact Hv|apply trim_trimmed].
  - split; [constructor|]. intros c [H|H]; discriminate H.
Qed.

Lemma persona_field_plain tag personaMatch : plain_text (persona_field tag personaMatch).
Proof.
  unfold persona_field. destruct personaMatch as [m|]; [apply field_of_plain|].
  split; [constructor|]. intros c [H|H]; discriminate H.
Qed.

(** X14.  What [parseCompiledAgent] puts in a record.  The four persona
    texts hold no [<] and no white space at either end; the icon is never
    empty; and every menu entry has a non-empty trigger without a double
    quote and a description without [<] and without white space at either
    end. *)
Theorem parseCompiledAgent_record_shape
        (content : jsstring) (artifact : Artifact.t) (d : AgentData.t) :
  parseCompiledAgent content artifact = Some d ->
  plain_text (AgentData.role d)
  /\ plain_text (AgentData.identity d)
  /\ plain_text (AgentData.communicationStyle d)
  /\ (exists text, AgentData.principles d = PrinciplesText text /\ plain_text text)
  /\ AgentData.icon d <> []
  /\ (forall item, In item (AgentData.menuItems d) ->
        MenuItem.trigger item <> []
        /\ Forall (fun c => c <> u_quote) (MenuItem.trigger item)
        /\ plain_text (MenuItem.description item)).
Proof.
  intros Hparse.
  destruct (agent_attrs content) as [attrs|] eqn:Hattrs.
  2:{ apply (parseCompiledAgent_None content artifact) in Hattrs. congruence. }
  rewrite (parseCompiledAgent_Some content artifact attrs Hattrs) in Hparse.
  injection Hparse as <-. cbn [AgentData.role AgentData.identity
    AgentData.communicationStyle AgentData.principles AgentData.icon AgentData.menuItems].
  split; [apply persona_field_plain|]. split; [apply persona_field_plain|].
  split; [apply persona_field_plain|].
  split; [eexists; split; [reflexivity|apply persona_field_plain]|].
  split.
  - destruct (js_match (re_attr "icon") attrs) as [m|] eqn:Hm; [|discriminate].
    apply attribute_value in Hm as (_ & _ & _ & Hne). exact Hne.
  - intros item Hin. unfold menu_of in Hin.
    destruct (js_match (re_block "menu") content) as [menuMatch|]; [|destruct Hin].
    apply in_map_iff in Hin as (caps & <- & Hin).
    apply exec_go_sound in Hin as [t Hm].
    apply matches_re_item in Hm as (trigger & description & -> & Htne & Ht & _ & Hd).
    cbn [MenuItem.trigger MenuItem.description group Nat.sub nth].
    split; [exact Htne|]. split; [exact Ht|].
    split; [apply trim_Forall; exact Hd|apply trim_trimmed].
Qed.

Lemma parseCompiledAgent_record_shape_witness :
  AgentData.icon demo_record <> []
  /\ plain_text (AgentData.role demo_record).
Proof.
  destruct (parseCompiledAgent_record_shape demo_document demo_artifact demo_record)
    as (Hrole & _ & _ & _ & Hicon & _).
  - vm_compute. reflexivity.
  - split; assumption.
Defined.

(** ** The earlier revision *)

Lemma legacy_removePrefixed_outside dir names : forall w r w',
  Legacy.removePrefixed dir names w = (r, w') ->
  failures w' = failures w
  /\ console w' = console w
  /\ (forall k, files w' !! k = None \/ files w' !! k = files w !! k)
  /\ (forall k, (forall n, ~ dir ++ [n] `prefix_of` k) -> files w' !! k = files w !! k).
Proof.
  induction names as [|n rest IH]; intros w r w'; cbn [Legacy.removePrefixed].
  - unfold ret. intros [= <- <-]. repeat split; auto.
  - unfold bind at 1. destruct (startsWith (js "bmad") n).
    + rewrite remove_run. destruct (remove_fault (failures w) (dir ++ [n])) as [e|].
      * intros [= <- <-]. repeat split; auto.
      * intros Hrest. apply IH in Hrest as (Hf & Hc & Hshrink & Hout).
        cbn [files failures console set_files] in *.
        split; [exact Hf|]. split; [exact Hc|]. split.
        -- intros k. destruct (Hshrink k) as [H|H]; [left; exact H|].
           rewrite H, lookup_removed. destruct (decide _); auto.
        -- intros k Hk. rewrite (Hout k Hk), lookup_removed.
           destruct (decide _) as [Hp|]; [destruct (Hk n Hp)|reflexivity].
    + unfold ret. apply IH.
Qed.

Lemma legacy_removePrefixed_spec dir names : forall w,
  (forall n, In n names -> startsWith (js "bmad") n = true ->
             remove_fault (failures w) (dir ++ [n]) = None) ->
  exists w',
    Legacy.removePrefixed dir names w = (Ok tt, w')
    /\ (forall n k, In n names -> startsWith (js "bmad") n = true ->
                    dir ++ [n] `prefix_of` k -> files w' !! k = None)
    /\ (forall k, (forall n, startsWith (js "bmad") n = true ->
                             ~ dir ++ [n] `prefix_of` k) ->
                  files w' !! k = files w !! k).
Proof.
  induction names as [|n rest IH]; intros w Hnf; cbn [Legacy.removePrefixed].
  - exists w. split; [reflexivity|]. split; [intros n k []|reflexivity].
  - unfold bind at 1. destruct (startsWith (js "bmad") n) eqn:Hn.
    + rewrite remove_run, (Hnf n (or_introl eq_refl) Hn).
      destruct (IH (set_files (filter (fun kv : path * node => ~ dir ++ [n] `prefix_of` kv.1)
                                      (files w)) w))
        as (w' & Hrun & Hgone & Hkeep).
      { intros n' Hin' Hn'. cbn [failures set_files]. apply Hnf; [right; exact Hin'|exact Hn']. }
      exists w'. split; [exact Hrun|]. split.
      * intros n' k [<-|Hin'] Hn' Hp; [|exact (Hgone n' k Hin' Hn' Hp)].
        pose proof (legacy_removePrefixed_outside _ _ _ _ _ Hrun) as (_ & _ & Hshrink & _).
        destruct (Hshrink k) as [H|H]; [exact H|]. rewrite H.
        cbn [files set_files]. rewrite lookup_removed.
        destruct (decide _); [reflexivity|contradiction].
      * intros k Hk. rewrite (Hkeep k Hk). cbn [files set_files].
        rewrite lookup_removed. destruct (decide _) as [Hp|]; [|reflexivity].
        destruct (Hk n Hn Hp).
    + unfold ret. destruct (IH w) as (w' & Hrun & Hgone & Hkeep).
      { intros n' Hin' Hn'. apply Hnf; [right; exact Hin'|exact Hn']. }
      exists w'. split; [exact Hrun|]. split; [|exact Hkeep].
      intros n' k [<-|Hin'] Hn' Hp; [congruence|exact (Hgone n' k Hin' Hn' Hp)].
Qed.

Lemma legacy_removePrefixed_throws dir names : forall w,
  Exists (fun n => startsWith (js "bmad") n = true
                   /\ is_Some (remove_fault (failures w) (dir ++ [n]))) names ->
  exists e w', Legacy.removePrefixed dir names w = (Throw e, w')
               /\ exists n, In n names /\ startsWith (js "bmad") n = true
                            /\ remove_fault (failures w) (dir ++ [n]) = Some e.
Proof.
  induction names as [|n rest IH]; intros w Hex; [inversion Hex|].
  cbn [Legacy.removePrefixed]. unfold bind at 1.
  destruct (startsWith (js "bmad") n) eqn:Hn.
  - rewrite remove_run. destruct (remove_fault (failures w) (dir ++ [n])) as [e|] eqn:Hf.
    + exists e, w. split; [reflexivity|]. exists n. split; [left; reflexivity|]. auto.
    + apply Exists_cons in Hex as [[_ [e He]]|Hex]; [congruence|].
      destruct (IH (set_files (filter (fun kv : path * node => ~ dir ++ [n] `prefix_of` kv.1)
                                      (files w)) w) Hex)
        as (e & w' & Hrun & n' & Hin & Hn' & He).
      exists e, w'. split; [exact Hrun|]. exists n'. split; [right; exact Hin|]. auto.
  - unfold ret. apply Exists_cons in Hex as [[Hn' _]|Hex]; [congruence|].
    destruct (IH w Hex) as (e & w' & Hrun & n' & Hin & Hn' & He).
    exists e, w'. split; [exact Hrun|]. exists n'. split; [right; exact Hin|]. auto.
Qed.

(** X15.  The earlier [cleanup] sweeps the agents directory only.  Where the
    directory can be listed and no removal of an entry with the reserved
    prefix fails, it returns, every such entry is gone with all below it, and
    every path that is not at or below such an entry holds what it held; the
    commands and steering directories are among those. *)
Theorem legacy_cleanup_sweeps_agents_only (E : Env) (projectDir : path) (w : world) :
  listable w (kiro_agents projectDir) ->
  (forall n, startsWith (js "bmad") n = true ->
             remove_fault (failures w) (kiro_agents projectDir ++ [n]) = None) ->
  exists w',
    Legacy.cleanup E projectDir w = (Ok tt, w')
    /\ (forall n k,
          files w !! kiro_agents projectDir = Some Dir ->
          is_Some (files w !! (kiro_agents projectDir ++ [n])) ->
          startsWith (js "bmad") n = true ->
          kiro_agents projectDir ++ [n] `prefix_of` k ->
          files w' !! k = None)
    /\ (forall k,
          (forall n, startsWith (js "bmad") n = true ->
                     ~ kiro_agents projectDir ++ [n] `prefix_of` k) ->
          files w' !! k = files w !! k)
    /\ (forall k,
          kiro_commands projectDir `prefix_of` k \/ kiro_steering projectDir `prefix_of` k ->
          files w' !! k = files w !! k).
Proof.
  intros HA Hnf.
  assert (Hother : forall w', 
             (forall k, (forall n, startsWith (js "bmad") n = true ->
                                   ~ kiro_agents projectDir ++ [n] `prefix_of` k) ->
                        files w' !! k = files w !! k) ->
             forall k, kiro_commands projectDir `prefix_of` k
                       \/ kiro_steering projectDir `prefix_of` k ->
                       files w' !! k = files w !! k).
  { intros w' Hkeep k Hk. apply Hkeep. intros n _ Hp.
    unfold kiro_agents, kiro_commands, kiro_steering in *.
    destruct Hk as [Hk|Hk].
    - rewrite <- (app_nil_r (projectDir ++ [configDir; js "commands"])) in Hk.
      pose proof (two_prefixes_sibling _ _ _ _ _ _ _ Hp Hk) as H. discriminate H.
    - rewrite <- (app_nil_r (projectDir ++ [configDir; js "steering"])) in Hk.
      pose proof (two_prefixes_sibling _ _ _ _ _ _ _ Hp Hk) as H. discriminate H. }
  unfold Legacy.cleanup. fold (kiro_agents projectDir). unfold bind at 1.
  rewrite pathExists_run. unfold exists_in.
  destruct HA as [Hnone|[Hdir Hlist]].
  - rewrite Hnone. exists w. split; [reflexivity|]. split; [|split].
    + intros n k Hd. congruence.
    + reflexivity.
    + reflexivity.
  - rewrite Hdir. unfold readdir_names, bind at 1, bind at 1, readdir.
    rewrite Hlist, Hdir. unfold ret at 1. unfold bind at 1.
    destruct (legacy_removePrefixed_spec (kiro_agents projectDir)
                (List.map Dirent.name (entries (kiro_agents projectDir) (files w))) w)
      as (w1 & Hrun & Hgone & Hkeep).
    { intros n _ Hn. apply Hnf, Hn. }
    rewrite Hrun. unfold log. eexists. split; [reflexivity|]. cbn [files].
    split; [|split; [exact Hkeep|exact (Hother _ Hkeep)]].
    intros n k _ Hin Hn Hp. apply (Hgone n k); [|exact Hn|exact Hp].
    apply entries_names. exact Hin.
Qed.

Lemma legacy_cleanup_sweeps_agents_only_witness :
  exists w',
    Legacy.cleanup (demo_env []) demo_project stale_world = (Ok tt, w')
    /\ files w' !! (demo_agents ++ [js "bmad-core-pm.json"]) = None
    /\ files w' !! kiro_steering demo_project = Some Dir.
Proof.
  destruct (legacy_cleanup_sweeps_agents_only (demo_env []) demo_project stale_world)
    as (w' & Hrun & Hgone & _ & Hkeep).
  - right. split; reflexivity.
  - intros n _. reflexivity.
  - exists w'. split; [exact Hrun|]. split.
    + apply (Hgone (js "bmad-core-pm.json")); [reflexivity|vm_compute; eauto
                                               |reflexivity|reflexivity].
    + rewrite Hkeep; [reflexivity|right; reflexivity].
Defined.

(** X16.  The earlier [cleanup] does not guard its removals: if the agents
    directory can be listed and the removal of one of its entries with the
    reserved prefix is due to fail, [cleanup] throws the error of such a
    removal; nothing outside the agents directory has changed by then. *)
Theorem legacy_cleanup_aborts_on_failed_removal
        (E : Env) (projectDir : path) (w : world) (n : jsstring) :
  files w !! kiro_agents projectDir = Some Dir ->
  readdir_fault (failures w) (kiro_agents projectDir) = None ->
  is_Some (files w !! (kiro_agents projectDir ++ [n])) ->
  startsWith (js "bmad") n = true ->
  is_Some (remove_fault (failures w) (kiro_agents projectDir ++ [n])) ->
  exists e w' n',
    Legacy.cleanup E projectDir w = (Throw e, w')
    /\ startsWith (js "bmad") n' = true
    /\ remove_fault (failures w) (kiro_agents projectDir ++ [n']) = Some e
    /\ (forall k, (forall x, ~ kiro_agents projectDir ++ [x] `prefix_of` k) ->
                  files w' !! k = files w !! k).
Proof.
  intros Hdir Hlist Hin Hn Hfault.
  unfold Legacy.cleanup. fold (kiro_agents projectDir). unfold bind at 1.
  rewrite pathExists_run. unfold exists_in. rewrite Hdir.
  unfold readdir_names, bind at 1, bind at 1, readdir.
  rewrite Hlist, Hdir. unfold ret at 1. unfold bind at 1.
  destruct (legacy_removePrefixed_throws (kiro_agents projectDir)
              (List.map Dirent.name (entries (kiro_agents projectDir) (files w))) w)
    as (e & w' & Hrun & n' & _ & Hn' & He).
  { apply Exists_exists. exists n. split; [|split; assumption].
    apply list_elem_of_In, entries_names. exact Hin. }
  rewrite Hrun. exists e, w', n'. split; [reflexivity|]. split; [exact Hn'|].
  split; [exact He|].
  apply (legacy_removePrefixed_outside _ _ _ _ _ Hrun).
Qed.

Lemma legacy_cleanup_aborts_on_failed_removal_witness :
  exists w',
    Legacy.cleanup (demo_env []) demo_project locked_world
    = (Throw (js "EBUSY: resource busy or locked"), w').
Proof.
  destruct (legacy_cleanup_aborts_on_failed_removal (demo_env []) demo_project
              locked_world (js "bmad-core-pm.json"))
    as (e & w' & n' & Hrun & _ & He & _).
  - reflexivity.
  - reflexivity.
  - vm_compute. eauto.
  - reflexivity.
  - vm_compute. eauto.
  - exists w'. rewrite Hrun. f_equal. f_equal.
    cbn [locked_world failures remove_fault] in He.
    destruct (bool_decide _) in He; [|discriminate He]. congruence.
Defined.

(** X17.  The earlier [setup] does not fail on a project without the BMAD
    folder: it logs that it cannot proceed and returns normally, and the tree
    is as it was; no cleanup is run. *)
Theorem legacy_setup_without_bmad
        (E : Env) (stringifyErrors : list ValidationError.t -> jsstring)
        (projectDir bmadDir : path) (w : world) :
  files w !! (projectDir ++ [bmadFolderName E]) = None ->
  exists w',
    Legacy.setup E stringifyErrors projectDir bmadDir w = (Ok tt, w')
    /\ only_logs w w'
    /\ In (LogInfo, js "Cannot proceed: " ++ bmadFolderName E
                    ++ js "/ folder is required.") (console w').
Proof.
  intros Hnone. unfold Legacy.setup. unfold bind at 1, log at 1. unfold bind at 1.
  destruct (detectInstallation_missing_folder E projectDir
              (World (files w) (failures w)
                     (console w ++ [(LogInfo, js "Setting up " ++ this_name E ++ js "...")]))
              Hnone)
    as (w1 & Hrun & Hf1 & Hfl1 & more & Hc1).
  rewrite Hrun. cbn [Detection.canProceed negb]. unfold bind, log.
  eexists. split; [reflexivity|]. cbn [files failures console] in *. split.
  - split; [exact Hf1|]. split; [exact Hfl1|].
    rewrite Hc1, <- !app_assoc. eexists. reflexivity.
  - apply in_or_app. left. apply in_or_app. right. left. reflexivity.
Qed.

Lemma legacy_setup_without_bmad_witness :
  exists w',
    Legacy.setup (demo_env []) (fun _ => []) demo_project demo_bmad stale_world
    = (Ok tt, w')
    /\ files w' = files stale_world.
Proof.
  destruct (legacy_setup_without_bmad (demo_env []) (fun _ => []) demo_project demo_bmad
              stale_world) as (w' & Hrun & (Hfiles & _) & _).
  - reflexivity.
  - exists w'. split; [exact Hrun|exact Hfiles].
Defined.

(** ** The steering generator *)

Section SteeringGenerator.
Context (ensureDir : path -> M unit)
        (generateProductSteering generateTechSteering generateStructureSteering
         generateBmadIndex generateWorkflowIndex : Steering.t -> M unit).



(** X19.  [_findSourceFile] returns the first candidate, in the order given,
    that exists under the source directory, as a path relative to the
    project, and nothing when none exists; it never throws and changes
    nothing. *)
Theorem findSourceFile_first_existing
        (g : Steering.t) (candidates : list jsstring) (w : world) :
  exists found,
    Steering._findSourceFile g candidates w = (Ok found, w)
    /\ match found with
       | Some p =>
           exists before candidate after,
             candidates = before ++ candidate :: after
             /\ p = Steering.sourceDir g ++ [candidate]
             /\ exists_in w (Steering.projectDir g ++ p) = true
             /\ Forall (fun c => exists_in w (Steering.projectDir g
                                              ++ Steering.sourceDir g ++ [c]) = false)
                       before
       | None =>
           Forall (fun c => exists_in w (Steering.projectDir g
                                         ++ Steering.sourceDir g ++ [c]) = false)
                  candidates
       end.
Proof.
  induction candidates as [|c rest [found [Hrun Hfound]]]; cbn [Steering._findSourceFile].
  - exists None. split; [reflexivity|constructor].
  - unfold bind. rewrite pathExists_run.
    destruct (exists_in w (Steering.projectDir g ++ Steering.sourceDir g ++ [c])) eqn:Hc.
    + exists (Some (Steering.sourceDir g ++ [c])). split; [reflexivity|].
      exists [], c, rest. split; [reflexivity|]. split; [reflexivity|].
      split; [exact Hc|constructor].
    + exists found. split; [exact Hrun|]. destruct found as [p|].
      * destruct Hfound as (before & candidate & after & -> & -> & Hp & Hbefore).
        exists (c :: before), candidate, after. split; [reflexivity|].
        split; [reflexivity|]. split; [exact Hp|]. constructor; assumption.
      * constructor; assumption.
Qed.

End SteeringGenerator.

Lemma greedy_longest (p : N -> bool) s : forall taken,
  exists rest,
    greedy p (fun _ rest => Some (@nil jsstring, rest)) taken s = Some ([], rest)
    /\ forall c, head rest = Some c -> p c = false.
Proof.
  induction s as [|c s IH]; intros taken; cbn [greedy].
  - exists []. split; [reflexivity|]. intros c H. discriminate H.
  - destruct (p c) eqn:Hc.
    + destruct (IH (taken ++ [c])) as (rest & -> & Hrest). exists rest. auto.
    + exists (c :: s). split; [reflexivity|]. intros c' [= <-]. exact Hc.
Qed.

Lemma strip_lead_head line c :
  head (Steering.strip_at_start Steering.re_lead line) = Some c ->
  Steering.is_lead c = false.
Proof.
  unfold Steering.strip_at_start, Steering.re_lead.
  destruct line as [|a line]; [discriminate|]. cbn [match_here quantifier cls captured].
  destruct (Steering.is_lead a) eqn:Ha.
  - destruct (greedy_longest Steering.is_lead line [a]) as (rest & Hrun & Hrest).
    match goal with
    | |- context [greedy Steering.is_lead ?k [a] line] =>
        change (greedy Steering.is_lead k [a] line)
          with (greedy Steering.is_lead (fun _ rest => Some (@nil jsstring, rest)) [a] line)
    end.
    rewrite Hrun. exact (Hrest c).
  - intros [= <-]. exact Ha.
Qed.

Lemma trim_head s c :
  (forall x, head s = Some x -> is_space x = false) ->
  head (trim s) = Some c -> head s = Some c.
Proof.
  intros Hs. unfold trim. rewrite head_rev. intros H.
  apply trimStart_last in H. rewrite last_rev in H.
  destruct s as [|a s]; [discriminate H|]. cbn [trimStart] in H.
  rewrite (Hs a eq_refl) in H. exact H.
Qed.

Lemma is_lead_space c : Steering.is_lead c = false -> is_space c = false.
Proof.
  unfold Steering.is_lead. intros H. destruct (is_space c); [discriminate H|reflexivity].
Qed.

Section ExtractGoals.
Context (toLowerCase : jsstring -> jsstring).

Lemma goals_loop_bounds (lines : list jsstring) : forall inGoalsSection goals,
  (length goals <= 5)%nat ->
  Forall (fun goal => goal <> [] /\ trimmed goal
                      /\ forall c, head goal = Some c -> Steering.is_lead c = false)
         goals ->
  (length (Steering.goals_loop toLowerCase lines inGoalsSection goals) <= 5)%nat
  /\ Forall (fun goal => goal <> [] /\ trimmed goal
                         /\ forall c, head goal = Some c -> Steering.is_lead c = false)
            (Steering.goals_loop toLowerCase lines inGoalsSection goals).
Proof.
  induction lines as [|line rest IH]; intros b goals Hlen Hall;
    cbn [Steering.goals_loop]; [split; assumption|].
  destruct (_ && Steering.is_heading line); [apply IH; assumption|].
  destruct (b && _); [split; assumption|].
  destruct (b && _); [|apply IH; assumption].
  destruct (truthy _) eqn:Htruthy; cbn [andb]; [|apply IH; assumption].
  destruct (Nat.ltb_spec (length goals) 5); [|apply IH; assumption].
  apply IH.
  - rewrite length_app. cbn [length]. lia.
  - apply Forall_app. split; [exact Hall|]. constructor; [|constructor].
    split; [|split].
    + intros Hnil. rewrite Hnil in Htruthy. discriminate Htruthy.
    + apply trim_trimmed.
    + intros c Hc. apply trim_head in Hc.
      * exact (strip_lead_head _ _ Hc).
      * intros x Hx. apply is_lead_space. exact (strip_lead_head _ _ Hx).
Qed.

(** X20.  [_extractGoals] always returns between one and five goals.  Each
    goal is non-empty, has no white space at either end, and does not begin
    with a hyphen, an asterisk, a digit or a dot: the bullet or the number of
    its line is gone. *)
Theorem extractGoals_bounds (lines : list jsstring) :
  (1 <= length (Steering._extractGoals toLowerCase lines) <= 5)%nat
  /\ Forall (fun goal =>
               goal <> [] /\ trimmed goal
               /\ forall c, head goal = Some c -> Steering.is_lead c = false)
            (Steering._extractGoals toLowerCase lines).
Proof.
  unfold Steering._extractGoals.
  destruct (goals_loop_bounds lines false []) as [Hlen Hall];
    [cbn; lia|constructor|].
  destruct (Nat.eqb_spec (length (Steering.goals_loop toLowerCase lines false [])) 0)
    as [H0|H0].
  - split; [cbn; lia|].
    repeat constructor; try discriminate;
      try (intros c Hc; cbn in Hc; injection Hc as <-; reflexivity).
    + intros c [Hc|Hc]; vm_compute in Hc; injection Hc as <-; reflexivity.
    + intros c [Hc|Hc]; vm_compute in Hc; injection Hc as <-; reflexivity.
    + intros c [Hc|Hc]; vm_compute in Hc; injection Hc as <-; reflexivity.
  - split; [lia|exact Hall].
Qed.

End ExtractGoals.

Lemma generateSteeringFiles_congr (E E' : Env) (projectDir projectDir' : path) w :
  generateAll E projectDir w = generateAll E' projectDir' w ->
  generateSteeringFiles E projectDir w = generateSteeringFiles E' projectDir' w.
Proof.
  intros H. unfold generateSteeringFiles, try_catch, bind. rewrite H. reflexivity.
Qed.

(** X21.  The project directory that [generateSteeringFiles] assigns to the
    [config] of the steering generator does not reach the generator.  The
    generator was built without a [config], so its directory is the working
    directory of the process; given that no generator reads [config], the
    outcome of [generateSteeringFiles] is the same whatever project directory
    is passed, and it is the outcome of [generateAll] on the generator as
    built. *)
Theorem generateSteeringFiles_ignores_projectDir
        (E : Env) (fsEnsureDir : path -> M unit)
        (generateProductSteering generateTechSteering generateStructureSteering
         generateBmadIndex generateWorkflowIndex : Steering.t -> M unit)
        (cwd projectDir projectDir' : path) (w : world) :
  Steering.ignores_config generateProductSteering ->
  Steering.ignores_config generateTechSteering ->
  Steering.ignores_config generateStructureSteering ->
  Steering.ignores_config generateBmadIndex ->
  Steering.ignores_config generateWorkflowIndex ->
  let run := kiro_generateAll fsEnsureDir generateProductSteering generateTechSteering
               generateStructureSteering generateBmadIndex generateWorkflowIndex cwd in
  generateSteeringFiles (with_steering E run) projectDir w
  = generateSteeringFiles (with_steering E run) projectDir' w
  /\ run projectDir w
     = Steering.generateAll fsEnsureDir generateProductSteering generateTechSteering
         generateStructureSteering generateBmadIndex generateWorkflowIndex
         (Steering.new Steering.empty_config cwd) w
  /\ Steering.projectDir
       (Steering.assign_projectDir (Steering.new Steering.empty_config cwd) projectDir)
       ++ Steering.targetDir
            (Steering.assign_projectDir (Steering.new Steering.empty_config cwd) projectDir)
     = cwd ++ [js ".kiro"; js "steering"].
Proof.
  intros H1 H2 H3 H4 H5 run.
  assert (Hrun : forall pd, run pd w
                 = Steering.generateAll fsEnsureDir generateProductSteering
                     generateTechSteering generateStructureSteering generateBmadIndex
                     generateWorkflowIndex (Steering.new Steering.empty_config cwd) w).
  { intros pd. unfold run, kiro_generateAll, Steering.generateAll,
      Steering.assign_projectDir.
    cbn [Steering.projectDir Steering.targetDir Steering.sourceDir Steering.config].
    rewrite (H1 (Steering.new Steering.empty_config cwd)),
            (H2 (Steering.new Steering.empty_config cwd)),
            (H3 (Steering.new Steering.empty_config cwd)),
            (H4 (Steering.new Steering.empty_config cwd)),
            (H5 (Steering.new Steering.empty_config cwd)).
    reflexivity. }
  split; [|split; [apply Hrun|]].
  - apply generateSteeringFiles_congr. cbn [generateAll with_steering].
    rewrite (Hrun projectDir), (Hrun projectDir'). reflexivity.
  - reflexivity.
Qed.

Lemma generateSteeringFiles_ignores_projectDir_witness :
  generateSteeringFiles
    (with_steering (demo_env [])
       (kiro_generateAll demo_ensureDir
          (nth 0 demo_generators (fun _ => ret tt)) (nth 1 demo_generators (fun _ => ret tt))
          (nth 2 demo_generators (fun _ => ret tt)) (nth 3 demo_generators (fun _ => ret tt))
          (nth 4 demo_generators (fun _ => ret tt)) demo_project))
    [js "elsewhere"] steering_world
  = generateSteeringFiles
      (with_steering (demo_env [])
         (kiro_generateAll demo_ensureDir
            (nth 0 demo_generators (fun _ => ret tt)) (nth 1 demo_generators (fun _ => ret tt))
            (nth 2 demo_generators (fun _ => ret tt)) (nth 3 demo_generators (fun _ => ret tt))
            (nth 4 demo_generators (fun _ => ret tt)) demo_project))
      demo_project steering_world.
Proof.
  apply (generateSteeringFiles_ignores_projectDir (demo_env []) demo_ensureDir
           (nth 0 demo_generators (fun _ => ret tt))
           (nth 1 demo_generators (fun _ => ret tt))
           (nth 2 demo_generators (fun _ => ret tt))
           (nth 3 demo_generators (fun _ => ret tt))
           (nth 4 demo_generators (fun _ => ret tt))
           demo_project [js "elsewhere"] demo_project steering_world);
    intros g config; reflexivity.
Defined.

(** The example generators at work: the target directory is created, the
    first generator writes its file, the second fails, and the three others
    are run and counted all the same. *)
Example generateAll_counts_and_collects :
  (demo_generateAll (Steering.new Steering.empty_config demo_project) steering_world).1
  = Ok (SteeringResults.mk 4 [js "architecture.md is not readable"])
  /\ files (demo_generateAll (Steering.new Steering.empty_config demo_project)
                             steering_world).2
           !! (demo_project ++ [js ".kiro"; js "steering"; js "product.md"])
     = Some (File (js "# Product")).
Proof. split; vm_compute; reflexivity. Qed.

(** ** What the agent loop touches *)

Lemma same_outside_refl inside w : same_outside inside w w.
Proof. repeat split. Qed.

Lemma same_outside_trans inside w1 w2 w3 :
  same_outside inside w1 w2 -> same_outside inside w2 w3 -> same_outside inside w1 w3.
Proof.
  intros (Hf & Hc & Hk) (Hf' & Hc' & Hk'). split; [congruence|]. split; [congruence|].
  intros k Hout. rewrite Hk' by exact Hout. apply Hk. exact Hout.
Qed.

Lemma same_outside_weaken (inside inside' : path -> Prop) w w' :
  (forall k, inside k -> inside' k) ->
  same_outside inside w w' -> same_outside inside' w w'.
Proof.
  intros Himp (Hf & Hc & Hk). split; [exact Hf|]. split; [exact Hc|].
  intros k Hout. apply Hk. intros Hin. exact (Hout (Himp k Hin)).
Qed.

Lemma writeFile_frame p data w :
  same_outside (fun k => p `prefix_of` k) w (writeFile p data w).2.
Proof.
  assert (Hne : forall k, ~ p `prefix_of` k -> p <> k).
  { intros k H ->. apply H. reflexivity. }
  unfold writeFile. destruct (write_fault (failures w) p) as [[e [partial|]]|].
  - split; [reflexivity|]. split; [reflexivity|].
    intros k Hk. cbn [snd files set_files]. apply lookup_insert_ne, Hne, Hk.
  - apply same_outside_refl.
  - destruct (files w !! removelast p) as [[d|]|]; try apply same_outside_refl.
    destruct (files w !! p) as [[d|]|]; try apply same_outside_refl;
      (split; [reflexivity|]; split; [reflexivity|];
       intros k Hk; cbn [snd files set_files]; apply lookup_insert_ne, Hne, Hk).
Qed.

Lemma swallow_remove_frame p w :
  same_outside (fun k => p `prefix_of` k) w (swallow (remove p) w).2.
Proof.
  unfold swallow, try_catch. rewrite remove_run.
  destruct (remove_fault (failures w) p); unfold ret; [apply same_outside_refl|].
  split; [reflexivity|]. split; [reflexivity|].
  intros k Hk. cbn [snd files set_files]. rewrite lookup_removed.
  destruct (decide _); [contradiction|reflexivity].
Qed.

Lemma rollback_frame promptPath jsonPath e w :
  same_outside (fun k => promptPath `prefix_of` k \/ jsonPath `prefix_of` k)
               w (rollback promptPath jsonPath e w).2.
Proof.
  unfold rollback. unfold bind at 1.
  pose proof (swallow_remove_frame promptPath w) as H1.
  apply (same_outside_weaken _ (fun k => promptPath `prefix_of` k
                                        \/ jsonPath `prefix_of` k)) in H1; [|tauto].
  destruct (swallow (remove promptPath) w) as [[[]|e1] w1]; cbn [snd] in *; [|exact H1].
  unfold bind at 1.
  pose proof (swallow_remove_frame jsonPath w1) as H2.
  apply (same_outside_weaken _ (fun k => promptPath `prefix_of` k
                                        \/ jsonPath `prefix_of` k)) in H2; [|tauto].
  destruct (swallow (remove jsonPath) w1) as [[[]|e2] w2]; cbn [snd] in *;
    unfold throw; cbn [snd]; eapply same_outside_trans; eassumption.
Qed.

(** Whatever happens, [processAgentArtifact] logs nothing and changes no
    path other than its two files and what lies below them. *)
Lemma processAgentArtifact_frame E artifact agentsDir projectDir w :
  same_outside (fun k => promptPath_of E agentsDir artifact `prefix_of` k
                         \/ jsonPath_of E agentsDir artifact `prefix_of` k)
               w (processAgentArtifact E artifact agentsDir projectDir w).2.
Proof.
  destruct (readFile (Artifact.sourcePath artifact) w) as [[content|e] w0] eqn:Hread.
  2:{ unfold processAgentArtifact, bind. rewrite Hread.
      pose proof (readFile_world (Artifact.sourcePath artifact) w) as Hw.
      rewrite Hread in Hw. cbn [snd] in *. subst w0. apply same_outside_refl. }
  pose proof (readFile_world (Artifact.sourcePath artifact) w) as Hw.
  rewrite Hread in Hw. cbn [snd] in Hw. subst w0.
  destruct (parseCompiledAgent content artifact) as [d|] eqn:Hparse.
  2:{ unfold processAgentArtifact, bind. rewrite Hread, Hparse. apply same_outside_refl. }
  rewrite (processAgentArtifact_run E artifact agentsDir projectDir w content d);
    [|rewrite Hread; reflexivity|exact Hparse].
  set (promptPath := promptPath_of E agentsDir artifact).
  set (jsonPath := jsonPath_of E agentsDir artifact).
  set (inside := fun k => promptPath `prefix_of` k \/ jsonPath `prefix_of` k).
  unfold try_catch, bind at 1, lift.
  destruct (createAgentConfig E _ d) as [config|e]; [|apply rollback_frame].
  unfold bind at 1.
  pose proof (writeFile_frame promptPath (generatePrompt d) w) as H1.
  apply (same_outside_weaken _ inside) in H1; [|unfold inside; tauto].
  destruct (writeFile promptPath (generatePrompt d) w) as [[[]|e1] w1]; cbn [snd] in *.
  - unfold writeJson.
    pose proof (writeFile_frame jsonPath (stringify E config) w1) as H2.
    apply (same_outside_weaken _ inside) in H2; [|unfold inside; tauto].
    destruct (writeFile jsonPath (stringify E config) w1) as [[[]|e2] w2];
      cbn [snd] in *.
    + eapply same_outside_trans; eassumption.
    + eapply same_outside_trans; [|apply rollback_frame].
      eapply same_outside_trans; eassumption.
  - eapply same_outside_trans; [exact H1|apply rollback_frame].
Qed.

(** X22.  The agent loop of [setup] touches nothing but the pairs.  Whatever
    fails, [processAgents] returns, keeps the failure behaviour of the world,
    only adds to the console, and leaves every path as it was that is not at
    or below the configuration or prompt file of one of the artifacts; so
    nothing outside the agents directory changes, the compiled sources
    included. *)
Theorem processAgents_touches_only_pairs
        (E : Env) (agentArtifacts : list Artifact.t) (agentsDir projectDir : path)
        (skippedItems : list SkippedItem.t) (agentCount : nat) (w : world) :
  exists skippedItems' agentCount' w',
    processAgents E agentArtifacts agentsDir projectDir skippedItems agentCount w
    = (Ok (skippedItems', agentCount'), w')
    /\ failures w' = failures w
    /\ (exists more, console w' = console w ++ more)
    /\ (forall k,
          (forall a, In a agentArtifacts ->
                     ~ promptPath_of E agentsDir a `prefix_of` k
                     /\ ~ jsonPath_of E agentsDir a `prefix_of` k) ->
          files w' !! k = files w !! k)
    /\ (forall k, ~ agentsDir `prefix_of` k -> files w' !! k = files w !! k).
Proof.
  assert (Hmain : exists skippedItems' agentCount' w',
    processAgents E agentArtifacts agentsDir projectDir skippedItems agentCount w
    = (Ok (skippedItems', agentCount'), w')
    /\ failures w' = failures w
    /\ (exists more, console w' = console w ++ more)
    /\ (forall k,
          (forall a, In a agentArtifacts ->
                     ~ promptPath_of E agentsDir a `prefix_of` k
                     /\ ~ jsonPath_of E agentsDir a `prefix_of` k) ->
          files w' !! k = files w !! k)).
  { revert skippedItems agentCount w.
    induction agentArtifacts as [|a rest IH]; intros sk n w.
    - exists sk, n, w. split; [reflexivity|]. split; [reflexivity|].
      split; [exists []; rewrite app_nil_r; reflexivity|reflexivity].
    - destruct (processAgentArtifact_frame E a agentsDir projectDir w) as (Hf & Hc & Hk).
      destruct (processAgentArtifact E a agentsDir projectDir w) as [[[]|e] w1] eqn:Hrun;
        cbn [snd] in *.
      + rewrite (processAgents_ok _ _ _ _ _ _ _ _ _ Hrun).
        destruct (IH sk (S n) w1) as (sk' & n' & w' & Hrest & Hf' & [more Hc'] & Hk').
        exists sk', n', w'. split; [exact Hrest|]. split; [congruence|].
        split; [exists more; congruence|].
        intros k Hout. rewrite Hk' by (intros b Hb; apply Hout; right; exact Hb).
        apply Hk. destruct (Hout a (or_introl eq_refl)). tauto.
      + rewrite (processAgents_throw _ _ _ _ _ _ _ _ _ _ Hrun).
        destruct (IH (sk ++ [skippedAgent a e]) n (warned (skipWarning a e) w1))
          as (sk' & n' & w' & Hrest & Hf' & [more Hc'] & Hk').
        cbn [warned files failures console] in *.
        exists sk', n', w'. split; [exact Hrest|]. split; [congruence|].
        split; [exists ((LogWarn, skipWarning a e) :: more);
                rewrite Hc', Hc, <- app_assoc; reflexivity|].
        intros k Hout. rewrite Hk' by (intros b Hb; apply Hout; right; exact Hb).
        apply Hk. destruct (Hout a (or_introl eq_refl)). tauto. }
  destruct Hmain as (sk' & n' & w' & Hrun & Hf & Hc & Hk).
  exists sk', n', w'. split; [exact Hrun|]. split; [exact Hf|]. split; [exact Hc|].
  split; [exact Hk|].
  intros k Hout. apply Hk. intros a _. unfold promptPath_of, jsonPath_of.
  split; intros [t Ht]; apply Hout; eexists; rewrite Ht, <- app_assoc; reflexivity.
Qed.

(** ** The failure handler of [setup] *)

(** X23.  The cleanup in the failure handler of [setup] can replace the
    error that [setup] reports.  On a project without the BMAD folder whose
    [.kiro/agents] is a regular file, [setup] does not throw the error that
    asks for the BMAD folder: that message is only logged, and what the
    caller gets is the failure of listing [.kiro/agents]; the tree is as it
    was. *)
Theorem setup_handler_replaces_error
        (E : Env) (projectDir bmadDir : path) (w : world) (data : jsstring) :
  files w !! (projectDir ++ [bmadFolderName E]) = None ->
  files w !! kiro_agents projectDir = Some (File data) ->
  readdir_fault (failures w) (kiro_agents projectDir) = None ->
  exists w',
    setup E projectDir bmadDir w = (Throw ENOTDIR, w')
    /\ only_logs w w'
    /\ In (LogError, js "Installation failed: " ++ cannotProceed E) (console w').
Proof.
  intros Hbmad Hagents Hlist.
  unfold setup. unfold bind at 1, log at 1. unfold try_catch, bind at 1.
  destruct (detectInstallation_missing_folder E projectDir
              (World (files w) (failures w)
                     (console w ++ [(LogInfo, js "Setting up " ++ this_name E ++ js "...")]))
              Hbmad)
    as (w1 & Hrun & Hf1 & Hfl1 & more & Hc1).
  rewrite Hrun. cbn [files failures console] in *.
  cbn [Detection.canProceed negb]. unfold bind at 1, throw at 1.
  unfold bind at 1, log at 1. unfold bind at 1, log at 1. unfold bind at 1.
  unfold cleanup. fold (kiro_agents projectDir). unfold bind at 1.
  unfold cleanPrefixed at 1. unfold bind at 1. rewrite pathExists_run.
  unfold exists_in. cbn [files]. rewrite Hf1, Hagents.
  unfold readdir_names, bind at 1, bind at 1, readdir. cbn [files failures].
  rewrite Hfl1, Hlist, ?Hf1, Hagents.
  eexists. split; [reflexivity|]. split.
  - split; [reflexivity|]. split; [reflexivity|]. cbn [console].
    rewrite Hc1, <- !app_assoc. eexists. reflexivity.
  - cbn [console]. apply in_or_app. left. apply in_or_app. right. left. reflexivity.
Qed.

Lemma setup_handler_replaces_error_witness :
  exists w',
    setup (demo_env []) demo_project demo_bmad
          (World (<[demo_agents := File []]> (files bare_world)) no_faults [])
    = (Throw ENOTDIR, w').
Proof.
  destruct (setup_handler_replaces_error (demo_env []) demo_project demo_bmad
              (World (<[demo_agents := File []]> (files bare_world)) no_faults []) [])
    as (w' & Hrun & _).
  - reflexivity.
  - reflexivity.
  - reflexivity.
  - exists w'. exact Hrun.
Defined.

(** ** Principles given as a list *)

Lemma bullet_lines_list ps : forall prompt,
  bullet_lines ps prompt = prompt ++ bullet_list ps.
Proof.
  induction ps as [|p ps IH]; intros prompt; cbn [bullet_lines].
  - unfold bullet_list. cbn. rewrite app_nil_r. reflexivity.
  - rewrite IH. unfold bullet_list. cbn [List.map concat].
    rewrite <- !app_assoc. reflexivity.
Qed.

(** X24.  [generatePrompt] on a record whose principles are a list, which
    [parseCompiledAgent] never builds but a caller may: the Principles
    section is emitted for every list, the empty one included, with one
    bullet line for each principle in the order of the list; the other
    sections are as for a text.  So an empty list gives a heading with
    nothing under it, where an empty text gives no section. *)
Theorem generatePrompt_list_principles (d : AgentData.t) (ps : list jsstring) :
  AgentData.principles d = PrinciplesList ps ->
  generatePrompt d = prompt_with_list d ps
  /\ (ps = [] ->
      exists before after,
        generatePrompt d
        = before ++ (js "## Principles" ++ [u_nl] ++ [u_nl]) ++ after
        /\ after = menu_section (AgentData.menuItems d)
                   ++ instructions (AgentData.name d)).
Proof.
  intros Hp.
  assert (Hgen : generatePrompt d = prompt_with_list d ps).
  { unfold generatePrompt, prompt_with_list. rewrite Hp. cbv zeta.
    cbn [principles_truthy].
    rewrite (optional_step (js "## Role") "Role") by reflexivity.
    rewrite (optional_step (js "## Identity") "Identity") by reflexivity.
    rewrite (optional_step (js "## Communication Style") "Communication Style")
      by reflexivity.
    rewrite bullet_lines_list.
    rewrite (menu_step (js "## Available Workflows")) by reflexivity.
    unfold titled_section. rewrite <- !app_assoc. reflexivity. }
  split; [exact Hgen|].
  intros ->. rewrite Hgen. unfold prompt_with_list.
  exists ((js "# " ++ AgentData.name d ++ js " " ++ AgentData.icon d ++ [u_nl; u_nl])
          ++ optional_section "Role" (AgentData.role d)
          ++ optional_section "Identity" (AgentData.identity d)
          ++ optional_section "Communication Style" (AgentData.communicationStyle d)),
         (menu_section (AgentData.menuItems d) ++ instructions (AgentData.name d)).
  split; [|reflexivity].
  unfold titled_section, bullet_list. cbn [List.map concat].
  rewrite <- !app_assoc. reflexivity.
Qed.

Lemma generatePrompt_list_principles_witness :
  generatePrompt (AgentData.mk (js "pm") (js "Product Manager") robot [] [] []
                               (PrinciplesList [js "Ship small"; js "Ask why"]) [])
  = js "# pm " ++ robot ++ [u_nl; u_nl]
    ++ js "## Principles" ++ [u_nl]
    ++ js "- Ship small" ++ [u_nl] ++ js "- Ask why" ++ [u_nl] ++ [u_nl]
    ++ instructions (js "pm").
Proof.
  rewrite (proj1 (generatePrompt_list_principles
                    (AgentData.mk (js "pm") (js "Product Manager") robot [] [] []
                                  (PrinciplesList [js "Ship small"; js "Ask why"]) [])
                    [js "Ship small"; js "Ask why"] eq_refl)).
  vm_compute. reflexivity.
Defined.

(** ** The total that [cleanup] reports *)

Lemma removeEach_count dir names : forall count w,
  (removeEach dir names count w).1
  = Ok (count + length (List.filter
                          (fun n => match remove_fault (failures w) (dir ++ [n]) with
                                    | None => true
                                    | Some _ => false
                                    end) names))%nat.
Proof.
  induction names as [|n rest IH]; intros count w; cbn [removeEach List.filter].
  - unfold ret. cbn. f_equal. lia.
  - unfold bind at 1, try_catch, bind at 1. rewrite remove_run.
    destruct (remove_fault (failures w) (dir ++ [n])) as [e|].
    + unfold bind at 1, log at 1, ret at 1. rewrite IH. reflexivity.
    + unfold ret at 1. rewrite IH. cbn [failures set_files length]. f_equal. lia.
Qed.

Lemma filter_filter_andb {A} (f g : A -> bool) (l : list A) :
  List.filter g (List.filter f l) = List.filter (fun x => f x && g x) l.
Proof.
  induction l as [|x l IH]; [reflexivity|]. cbn [List.filter].
  destruct (f x); cbn [List.filter andb]; [destruct (g x)|]; rewrite IH; reflexivity.
Qed.

Lemma cleanPrefixed_count E dir kind w :
  listable w dir ->
  (cleanPrefixed E dir kind w).1 = Ok (removable w dir).
Proof.
  intros Hl. unfold cleanPrefixed, removable, bind at 1. rewrite pathExists_run.
  unfold exists_in. destruct Hl as [Hnone|[Hdir Hlist]].
  - rewrite Hnone. reflexivity.
  - rewrite Hdir. unfold readdir_names, bind at 1, bind at 1, readdir.
    rewrite Hlist, Hdir. unfold ret at 1. unfold bind at 1.
    pose proof (removeEach_count dir
                  (List.filter (startsWith (js "bmad"))
                               (List.map Dirent.name (entries dir (files w)))) 0%nat w)
      as Hcount.
    destruct (removeEach dir _ 0%nat w) as [[c|e] w1]; cbn [fst] in Hcount;
      [|discriminate Hcount].
    injection Hcount as ->. unfold bind, log, ret. cbn [fst].
    rewrite filter_filter_andb. reflexivity.
Qed.

Lemma filter_Permutation {A} (f : A -> bool) (l1 l2 : list A) :
  l1 ≡ₚ l2 -> List.filter f l1 ≡ₚ List.filter f l2.
Proof.
  induction 1 as [|x l1 l2 _ IH|x y l|l1 l2 l3 _ IH1 _ IH2]; cbn [List.filter].
  - constructor.
  - destruct (f x); [constructor|]; exact IH.
  - destruct (f x), (f y); try reflexivity. constructor.
  - etransitivity; eassumption.
Qed.

Lemma removable_same w w1 dir :
  failures w1 = failures w ->
  files w1 !! dir = files w !! dir ->
  (forall n, files w1 !! (dir ++ [n]) = files w !! (dir ++ [n])) ->
  removable w1 dir = removable w dir.
Proof.
  intros Hf Hd Hn. unfold removable. rewrite Hd.
  destruct (files w !! dir) as [[d|]|]; try reflexivity.
  assert (Hperm : List.map Dirent.name (entries dir (files w1))
                  ≡ₚ List.map Dirent.name (entries dir (files w))).
  { apply NoDup_Permutation; try apply entries_NoDup.
    intros n. rewrite !list_elem_of_In, !entries_names, Hn. reflexivity. }
  assert (Hsame : forall n, removable_name w1 dir n = removable_name w dir n).
  { intros n. unfold removable_name. rewrite Hf. reflexivity. }
  rewrite (List.filter_ext _ _ Hsame).
  apply Permutation_length, filter_Permutation, Hperm.
Qed.

(** X25.  The total that [cleanup] reports.  Where the agents and commands
    directories can be listed, the last line [cleanup] logs gives the number
    of entries with the reserved prefix that it removed from the two
    directories: an entry whose removal failed is not counted, a removed
    directory counts once whatever it held, and the steering directory is
    not counted. *)
Theorem cleanup_reports_total (E : Env) (projectDir : path) (w : world) :
  listable w (kiro_agents projectDir) ->
  listable w (kiro_commands projectDir) ->
  exists w',
    cleanup E projectDir w = (Ok tt, w')
    /\ last (console w')
       = Some (LogInfo,
               js "  Total files removed: "
               ++ decimal (removable w (kiro_agents projectDir)
                           + removable w (kiro_commands projectDir))).
Proof.
  intros HA HC.
  pose proof (cleanPrefixed_count E (kiro_agents projectDir) "agent" w HA) as HnA.
  destruct (cleanPrefixed E (kiro_agents projectDir) "agent" w) as [[nA|eA] w1] eqn:Hrun1;
    cbn [fst] in HnA; [|discriminate HnA].
  injection HnA as ->.
  destruct (cleanPrefixed_outside _ _ _ _ _ _ Hrun1) as [Hf1 Hk1].
  assert (Hsib : forall r n, ~ kiro_agents projectDir ++ [n]
                               `prefix_of` kiro_commands projectDir ++ r).
  { intros r n Hp. unfold kiro_agents, kiro_commands in Hp.
    pose proof (two_prefixes_sibling projectDir configDir agentsDir (js "commands")
                  [n] r _ Hp (reflexivity _)) as H. discriminate H. }
  assert (Hd : files w1 !! kiro_commands projectDir = files w !! kiro_commands projectDir).
  { apply Hk1. intros n. rewrite <- (app_nil_r (kiro_commands projectDir)). apply Hsib. }
  assert (Hn : forall n, files w1 !! (kiro_commands projectDir ++ [n])
                         = files w !! (kiro_commands projectDir ++ [n])).
  { intros n. apply Hk1. intros x. apply Hsib. }
  assert (HC1 : listable w1 (kiro_commands projectDir)).
  { unfold listable. rewrite Hd, Hf1. exact HC. }
  pose proof (cleanPrefixed_count E (kiro_commands projectDir) "command" w1 HC1) as HnC.
  rewrite (removable_same w w1 _ Hf1 Hd Hn) in HnC.
  destruct (cleanPrefixed E (kiro_commands projectDir) "command" w1) as [[nC|eC] w2]
    eqn:Hrun2; cbn [fst] in HnC; [|discriminate HnC].
  injection HnC as ->.
  unfold cleanup. fold (kiro_agents projectDir) (kiro_commands projectDir).
  unfold bind at 1. rewrite Hrun1. unfold bind at 1. rewrite Hrun2.
  unfold bind at 1. rewrite pathExists_run.
  destruct (exists_in w2 _).
  - unfold bind at 1, try_catch, bind at 1. rewrite remove_run.
    destruct (remove_fault (failures w2) _); unfold log; cbn [console];
      (eexists; split; [reflexivity|]; cbn [console]; apply last_snoc).
  - unfold bind, ret, log. eexists. split; [reflexivity|]. cbn [console]. apply last_snoc.
Qed.

Lemma cleanup_reports_total_witness :
  exists w',
    cleanup (demo_env []) demo_project stale_world = (Ok tt, w')
    /\ last (console w') = Some (LogInfo, js "  Total files removed: 1").
Proof.
  destruct (cleanup_reports_total (demo_env []) demo_project stale_world)
    as (w' & Hrun & Hlast).
  - right. split; reflexivity.
  - left. reflexivity.
  - exists w'. split; [exact Hrun|]. rewrite Hlast. vm_compute. reflexivity.
Defined.
